(* ===== verification/_CoqProject ===== *)
-Q . S2P
Prelude.v
StreamController.v
Float64.v
Json.v
PrefValue.v
StoreSpec.v
ReadPrefs.v
Schema.v
Store.v
Loader.v
LazyInit.v
BulkApply.v
Concurrency.v
ConcurrencyProgress.v
ConcurrencyBulk.v
ConcurrencyRefine.v
Pipeline.v
