(* ===== verification/Prelude.v ===== *)
(** * Verification of Servo's preference store ([components/config/prefs.rs])

    The program.  [src/components/config/prefs.rs] holds Servo's configuration:
    a nested, statically typed settings structure ([mod gen], lines 100-853:
    the structs [Pref], [Browser], [Display], ... with their [serde]
    attributes [default], [default = "white"] and [rename]), one process-wide
    [Preferences] value built lazily from the bundled defaults resource
    ([PREFS], lines 16-22), two macros giving compile-time checked access by
    static path ([pref!] and [set_pref!], lines 27-45), string-keyed access
    through [pref_map] (lines 54-56), and the user override path:
    [read_prefs_map] (lines 64-98) turns a JSON document into a map from key
    to [PrefValue], and [add_user_prefs] (lines 58-62) applies such a map with
    [Preferences::set_all], panicking on the first error.  [PrefValue],
    [PrefError] and [Preferences] live in [pref_util.rs] and the accessor
    table [PREF_ACCESSORS] is generated by the [build_structs] plugin; neither
    is under [src/], so they are modelled from the specification (and marked
    so in the manifest).  [serde_json::Value] and its [Number] are the
    external parser's data model; they are modelled from serde_json's
    documented behaviour.

    The library, in dependency order (the name in brackets is the file):
    - [Prelude] (this file): Rust's [Result] as an error monad ([res] with
      stdpp's [MBind]/[MRet]/[FMap], so [x ← m; k] and [mapM] work) and the
      [outcome] of code that may panic; [Iterator::all] and [flatten] on
      iterators of options; the unspecified iteration order of a [HashMap]
      ([hashmap_order], any permutation of the entries); the ranges of
      [i64], [u64] and the wrap-around of [usize]; the [prefs] hint
      databases and the generic lemmas on [mapM], [NoDup] and folds of
      [insert] that the components share.
    - [StreamController]: [readablestreamdefaultcontroller.rs], the other
      file under [src/]: the DOM object and its four methods, each a
      [todo!()] panic, and the two empty setup functions.  No property is
      stated: the file has no behaviour beyond the panics.
    - [Float64]: [f64] as its IEEE-754 bit pattern, [is_finite] and the
      round-to-nearest-even conversion [i64 as f64].
    - [Json]: serde_json's [Number] ([PosInt], [NegInt], [Float]) with
      [is_i64], [is_f64], [as_i64], [as_f64], and [Value] (external data
      model, from serde_json's documented behaviour).
    - [PrefValue]: the value kind of [pref_util.rs], [from_json_value],
      the serde [From] impls back to JSON, [PrefError], and the round
      trips between them.
    - [StoreSpec]: the contract of a preference store ([PrefStore] and its
      laws [PrefStoreLaws], a typeclass): [set] keeps the invariant, [get]
      after [set] reads the value, other keys are untouched, a refused
      [set] changes nothing.
    - [ReadPrefs]: [read_prefs_map] (lines 64-98) as written, in a section
      whose parameters are the JSON parser, [Display] and the [HashMap]
      order.  Theorems: success iff every value converts, for every order
      (C2); every accepted array comes out empty (C1, the consumed-iterator
      bug); conversion round trip (C3); errors (C4); agreement with
      [from_json_value] (C5); a key given twice keeps its last value, so an
      earlier value that does not convert is never looked at (C22).
    - [Schema]: [mod gen] as a tree of [Node]s, one definition per Rust
      struct (module [gen], 113 structs), the default functions [white],
      [black] and [default_layout_threads] with its [usize] arithmetic; the
      leaves, their static paths and string keys (distinct, checked by
      evaluation).  Theorems: [default_layout_threads] bounds (C7) and
      its wrap-around when [n * 3] overflows [usize] (C33).
    - [Store]: [Preferences] ([pref_util.rs]) with [new], [get], [set], the
      accessor table [PREF_ACCESSORS] derived from the schema, and the
      macros [pref!]/[set_pref!] read through static paths.  The invariant
      [store_wf]: every leaf present with a value of its type.  Theorems:
      the table has one entry per leaf (C6); C8-C13: set/get round trip,
      type mismatch, unknown key, frame, preservation of the invariant,
      static and dynamic access agree; the instance of [StoreSpec]'s
      contract.
    - [Loader]: the initialiser of [PREFS] (lines 16-22): the text parsed by
      a parameter parser, then serde's derived [Deserialize] for the structs
      of [mod gen] (object or array form, renames, unknown and duplicate
      keys, [default] attributes), [expect] as a panic; and the derived
      [Serialize] ([serde_json::to_value]).  Theorems: the initialiser
      panics or establishes [store_wf] (C16); an absent field takes its
      default (C17) or, lacking one, fails the load (C18); a value of the
      wrong type at any field fails the load and the initialiser panics
      (C20); an instance with every field well typed and every float
      finite, serialized, loads back as itself (C25); an unknown key is
      skipped (C31); a key given twice fails the load and the initialiser
      panics (C32).
    - [LazyInit]: [lazy_static!]'s first dereference of [PREFS] by
      concurrent threads, through [std::sync::Once]: an inductive step
      relation [lazy_step] whose initialiser is [Loader.init_prefs], with
      its invariant: every thread that gets [PREFS] gets the one
      well-formed store built, and a failed initialisation poisons the
      [Once] so every later access panics (the finding on spec 7).  No
      claim is stated on it: its properties are those of [Once] for any
      initialiser.
    - [BulkApply]: [set_all] and [add_user_prefs] (lines 58-62) over any
      store meeting [StoreSpec]'s laws.  Theorems: on a panic exactly the
      entries before the first refused one are applied (C14); otherwise
      every key holds the user's value (C15), whatever the [HashMap] order.
    - [Concurrency], [ConcurrencyProgress], [ConcurrencyBulk],
      [ConcurrencyRefine]: the [RwLock] of [Preferences] and the threads
      using it; the first file holds the model, the lock invariant and C21,
      the others the progress theorems (C23-C24), [add_user_prefs] under
      the lock (C28-C29), and linearisability against the sequential store
      (C26-C27). Each operation ([pref!], [set_pref!], [get], [set],
      [add_user_prefs]) is expanded into the code the macros of lines 27-45,
      lines 58-62 and [pref_util]'s methods run: guard acquisitions, the
      critical-section body (the sequential operation of [Store]) and
      releases. A world holds the instance, the lock and the threads; [step]
      runs one instruction of one thread, and [reach] is any interleaving.
      Theorems: no data race, so each body is atomic (C21); without
      [set_pref!] whose value reads a preference, no deadlock (C23); with
      it, the thread deadlocks on its own write guard (C24, the finding on
      line 42); the store is linearisable: every interleaving is matched,
      by a simulation whose linearisation points are the critical-section
      bodies (and the errors returned without the lock), by a run of the
      sequential machine that performs each thread's operations whole, one
      at a time, on the sequential store of [Store], ending with the same
      instance and the same observations in every thread (C26); readers of
      a key that another thread sets see the old value or the new one
      (C27).
      [add_user_prefs] takes the write guard once per entry, not around the
      whole map; a thread running it ends with the store and the panic of
      the sequential [BulkApply.add_user_prefs] (C28); beside threads that
      only read, every store an interleaving reaches is the store after a
      prefix of its entries: atomic per entry, in order, nothing applied
      after a refused entry (C29).
    - [Pipeline]: the components composed: a user document setting
      [shell.background-color.rgba] makes [add_user_prefs] panic (C19); a
      document of scalars of the fields' kinds is read and applied
      completely, each named key holding its value (C30); and the witnesses
      of [BulkApply]'s theorems on the real store.

    Bounds and fuel.  Every recursion is structural (on lists, on the JSON
    tree or on the schema tree), so no fuel is needed and every function is
    total.  Integers keep their Rust widths: [i64] and [u64] ranges decide
    how a JSON number is classified; [default_layout_threads] is proved for
    1 to 2^62 CPUs, the range where [n * 3] fits in a 64-bit [usize], and
    its wrapped result is stated for the CPU counts where it overflows.
    [num_cpus::get()] is a section variable, as is [HashMap]'s order.

    Not modelled: resource loading
    ([resources::read_string]) and the JSON text parser (parameters);
    [RwLock] poisoning (no modelled critical section panics) and the
    lock's fairness policy, which the standard library leaves to the
    platform: a read guard is granted whenever no writer holds the lock,
    which admits every behaviour of a writer-preferring lock, so the
    safety theorems (C21, C24, C26, C27, C29) hold of every policy. *)

From stdpp Require Export base list gmap strings.
From Stdlib Require Export ZArith Lia.

(** Nested inductives over [list] get induction principles with [list_all]. *)
Scheme All for list.
Scheme All for prod.

Declare Scope prefs_scope.
Delimit Scope prefs_scope with prefs.
Open Scope Z_scope.

(** ** Rust's [Result<T, E>] as an error monad *)

Inductive res (E T : Type) : Type :=
| Ok (v : T)
| Err (e : E).
Arguments Ok {E T} v.
Arguments Err {E T} e.

(** [Result T E] reads in Rust's order. *)
Abbreviation Result T E := (res E T).

#[export] Instance res_ret E : MRet (res E) := λ _ x, Ok x.
#[export] Instance res_bind E : MBind (res E) :=
  λ A B f m, match m with Ok x => f x | Err e => Err e end.
#[export] Instance res_fmap E : FMap (res E) :=
  λ A B f m, match m with Ok x => Ok (f x) | Err e => Err e end.

(** [r.is_ok()] *)
Definition is_ok {E T} (r : Result T E) : bool :=
  match r with Ok _ => true | Err _ => false end.

(** [r.map_err(f)] *)
Definition map_err {E E' T} (f : E -> E') (r : Result T E) : Result T E' :=
  match r with Ok x => Ok x | Err e => Err (f e) end.

(** [Result::ok] *)
Definition ok {E T} (r : Result T E) : option T :=
  match r with Ok x => Some x | Err _ => None end.

(** A panic of the Rust code ([panic!], [expect], [unwrap]) ends the thread
    with a message; a computation that may panic returns an [outcome]. *)
Inductive outcome (T : Type) : Type :=
| Returned (v : T)
| Panicked (msg : string).
Arguments Returned {T} v.
Arguments Panicked {T} msg.

(** ** [Option] and iterator adapters *)

(** [Option::is_some] *)
Definition is_some {A} (o : option A) : bool :=
  match o with Some _ => true | None => false end.

(** [Option::unwrap] at a call site where the code has already tested the
    option; the [inhabitant] is never reached there. *)
Definition unwrap {A} `{Inhabited A} (o : option A) : A :=
  match o with Some x => x | None => inhabitant end.

(** A Rust iterator over a finite sequence is the list of the items it has
    still to yield.  [Iterator::all] consumes items up to and including the
    first that fails the predicate, and leaves the iterator with the rest. *)
Fixpoint iter_all {A} (p : A -> bool) (it : list A) : bool * list A :=
  match it with
  | [] => (true, [])
  | x :: rest => if p x then iter_all p rest else (false, rest)
  end.

(** [Iterator::flatten] over [Option] items, collected into a [Vec]. *)
Fixpoint flatten {A} (it : list (option A)) : list A :=
  match it with
  | [] => []
  | Some x :: rest => x :: flatten rest
  | None :: rest => flatten rest
  end.

(** [HashMap::into_iter] yields the entries in an unspecified order: any
    enumeration that is a permutation of the map's entries. *)
Definition hashmap_order : Type :=
  ∀ V : Type, gmap string V -> list (string * V).
Definition valid_order (into_iter : hashmap_order) : Prop :=
  ∀ V (m : gmap string V), into_iter V m ≡ₚ map_to_list m.

(** ** Machine integers *)

Definition i64_min : Z := - 2 ^ 63.
Definition i64_max : Z := 2 ^ 63 - 1.
Definition u64_max : Z := 2 ^ 64 - 1.

(** [usize] on the 64-bit targets Servo ships for. *)
Definition usize_bits : Z := 64.

Definition in_i64 (z : Z) : bool := (i64_min <=? z) && (z <=? i64_max).
Definition in_u64 (z : Z) : bool := (0 <=? z) && (z <=? u64_max).

(** Wrapping arithmetic on [usize] (release builds), and the [as i64]
    reinterpretation of a [usize]. *)
Definition wrap_usize (z : Z) : Z := z mod 2 ^ usize_bits.
Definition usize_as_i64 (z : Z) : Z :=
  if z <=? i64_max then z else z - 2 ^ 64.

Create HintDb prefs discriminated.
Create Rewrite HintDb prefs_rw.

(** ** Generic lemmas on iterators *)

(** When every item passes, [all] exhausts the iterator. *)
Lemma iter_all_true {A} (p : A -> bool) it :
  forallb p it = true -> iter_all p it = (true, []).
Proof.
  induction it as [|x it IH]; simpl; [done|].
  rewrite andb_true_iff. intros [-> ?]. by apply IH.
Qed.

Lemma iter_all_fst {A} (p : A -> bool) it : (iter_all p it).1 = forallb p it.
Proof. induction it as [|x it IH]; simpl; [done|]. by destruct (p x). Qed.

Lemma forallb_map {A B} (p : B -> bool) (f : A -> B) l :
  forallb p (map f l) = forallb (λ x, p (f x)) l.
Proof. induction l as [|x l IH]; simpl; [done|]. by rewrite IH. Qed.

Lemma mapM_option_is_some {A B} (f : A -> option B) l :
  is_some (mapM f l) = forallb (λ x, is_some (f x)) l.
Proof.
  induction l as [|x l IH]; simpl; [done|].
  destruct (f x); simpl; [|done]. rewrite <-IH. by destruct (mapM f l).
Qed.

(** A function whose image of a list has no duplicates is injective on
    the members of the list. *)
Lemma NoDup_map_inj_on {A B} (f : A -> B) (l : list A) x y :
  NoDup (map f l) -> x ∈ l -> y ∈ l -> f x = f y -> x = y.
Proof.
  induction l as [|z l IH]; simpl; [by intros _ ?%elem_of_nil|].
  intros [Hz Hnd]%NoDup_cons Hx Hy Hf.
  apply elem_of_cons in Hx as [->|Hx]; apply elem_of_cons in Hy as [->|Hy]; [done| | |by apply IH].
  - destruct Hz. rewrite Hf. apply list_elem_of_In, in_map, list_elem_of_In, Hy.
  - destruct Hz. rewrite <-Hf. apply list_elem_of_In, in_map, list_elem_of_In, Hx.
Qed.

(** The blocks of a concatenation whose image has no duplicates: each
    block has none, and two different blocks share no image. *)
Lemma NoDup_concat_map_block {A B C} (g : B -> C) (h : A -> list B) fs f :
  NoDup (map g (concat (map h fs))) -> f ∈ fs -> NoDup (map g (h f)).
Proof.
  induction fs as [|a fs IH]; simpl; [by intros _ ?%elem_of_nil|].
  rewrite map_app. intros Hnd Hf%elem_of_cons.
  apply NoDup_app in Hnd as (Ha&_&Hrest).
  destruct Hf as [->|Hf]; [done|by apply IH].
Qed.

Lemma NoDup_concat_map_disjoint {A B C} (g : B -> C) (h : A -> list B) fs f f' x y :
  NoDup (map g (concat (map h fs))) -> f ∈ fs -> f' ∈ fs -> f <> f' ->
  x ∈ h f -> y ∈ h f' -> g x <> g y.
Proof.
  induction fs as [|a fs IH]; simpl; [by intros _ ?%elem_of_nil|].
  rewrite map_app. intros Hnd Hf%elem_of_cons Hf'%elem_of_cons Hne Hx Hy Heq.
  apply NoDup_app in Hnd as (Ha&Hdisj&Hrest).
  assert (Hin : ∀ z b, b ∈ fs -> z ∈ h b -> g z ∈ map g (concat (map h fs))).
  { intros z b Hb Hz. apply list_elem_of_In, in_map, in_concat. exists (h b).
    split; apply list_elem_of_In; [apply list_elem_of_In, in_map, list_elem_of_In|]; done. }
  assert (Hin_a : ∀ z, z ∈ h a -> g z ∈ map g (h a)).
  { intros z Hz. apply list_elem_of_In, in_map, list_elem_of_In, Hz. }
  destruct Hf as [->|Hf], Hf' as [->|Hf'].
  - done.
  - apply (Hdisj (g x)); [by apply Hin_a|rewrite Heq; by apply (Hin y f')].
  - apply (Hdisj (g y)); [by apply Hin_a|rewrite <-Heq; by apply (Hin x f)].
  - by apply (IH Hrest Hf Hf' Hne Hx Hy).
Qed.

(** ** Generic lemmas on [Result] *)

Section ResultLemmas.
Context {E : Type}.

Lemma bind_Ok {A B} (a : A) (f : A -> Result B E) : (Ok a ≫= f) = f a.
Proof. reflexivity. Qed.

Lemma bind_Err {A B} (e : E) (f : A -> Result B E) : (Err e ≫= f) = Err e.
Proof. reflexivity. Qed.

Lemma bind_eq_Ok {A B} (m : Result A E) (f : A -> Result B E) b :
  (m ≫= f) = Ok b <-> exists a, m = Ok a /\ f a = Ok b.
Proof. destruct m; simpl; split; [eauto|intros (?&[= ->]&?); done|done|by intros (?&?&?)]. Qed.

Lemma mapM_res_cons {A B} (f : A -> Result B E) x l :
  mapM f (x :: l) = (y ← f x; ys ← mapM f l; Ok (y :: ys)).
Proof. reflexivity. Qed.

(** [collect::<Result<Vec<_>, _>>()] succeeds exactly on lists whose every
    element succeeds, with the elements' values in order. *)
Lemma mapM_res_Ok {A B} (f : A -> Result B E) l l' :
  mapM f l = Ok l' <-> Forall2 (λ x y, f x = Ok y) l l'.
Proof.
  revert l'; induction l as [|x l IH]; intros l'; simpl.
  - split; [intros [= <-]; constructor|by inversion 1].
  - split.
    + intros Hm. destruct (f x) as [y|e] eqn:Hf; simpl in Hm; [|done].
      destruct (mapM f l) as [ys|e] eqn:Hl; simpl in Hm; [|done].
      unfold mret, res_ret in Hm. simplify_eq.
      constructor; [done|]. by apply IH.
    + inversion 1 as [|? y ? ys Hf Hl]; subst. rewrite Hf. simpl.
      apply IH in Hl. by rewrite Hl.
Qed.

(** The first failing element decides the error. *)
Lemma mapM_res_Err {A B} (f : A -> Result B E) l e :
  mapM f l = Err e <->
  exists l1 x l2, l = l1 ++ x :: l2 /\ Forall (λ y, is_ok (f y) = true) l1 /\
                  f x = Err e.
Proof.
  induction l as [|x l IH]; simpl.
  - split; [done|]. intros ([|]&?&?&?&?&?); done.
  - split.
    + intros Hm. destruct (f x) as [y|e'] eqn:Hf; simpl in Hm.
      * destruct (mapM f l) as [ys|e''] eqn:Hl; simpl in Hm; [done|].
        injection Hm as ->.
        destruct (proj1 IH eq_refl) as (l1&x'&l2&->&Hall&Hx).
        exists (x :: l1), x', l2. split; [done|]. split; [constructor; [by rewrite Hf|done]|done].
      * injection Hm as ->. exists [], x, l. auto.
    + intros ([|z l1]&x'&l2&Heq&Hall&Hx); simplify_eq/=.
      * by rewrite Hx.
      * inversion Hall as [|? ? Hz Hall']; subst.
        match goal with H : is_ok (f ?w) = true |- _ => destruct (f w) eqn:Hf; simpl in H; [|discriminate H] end. simpl.
        assert (mapM f (l1 ++ x' :: l2) = Err e) as -> by (apply IH; exists l1, x', l2; auto).
        done.
Qed.

Lemma mapM_res_is_ok {A B} (f : A -> Result B E) l :
  is_ok (mapM f l) = forallb (λ x, is_ok (f x)) l.
Proof.
  induction l as [|x l IH]; simpl; [done|].
  destruct (f x); simpl; [|done]. destruct (mapM f l); by simpl in *.
Qed.

Lemma mapM_res_id_map {A B} (f : A -> Result B E) l :
  mapM id (map f l) = mapM f l.
Proof. induction l as [|x l IH]; simpl; [done|]. destruct (f x); simpl; by rewrite ?IH. Qed.

End ResultLemmas.

(** ** Generic lemmas on maps built by successive inserts *)

Section FoldInsert.
Context {V : Type}.

(** Inserting the pairs of a list with distinct keys, one after the other,
    is the union of the map the list denotes with the starting map. *)
Lemma foldl_insert_union (kvs : list (string * V)) (acc : gmap string V) :
  NoDup kvs.*1 ->
  foldl (λ m kv, <[kv.1 := kv.2]> m) acc kvs = list_to_map kvs ∪ acc.
Proof.
  revert acc; induction kvs as [|[k v] kvs IH]; intros acc Hnd; simpl.
  - by rewrite map_empty_union.
  - apply NoDup_cons in Hnd as [Hk Hnd]. rewrite IH by done.
    rewrite <-insert_union_l. symmetry. apply insert_union_r.
    by apply not_elem_of_list_to_map_1.
Qed.

End FoldInsert.

#[export] Hint Rewrite @bind_Ok @bind_Err @mapM_res_cons : prefs_rw.

(** [simplify_res] takes apart equations on [Result] values in the context. *)
Ltac simplify_res :=
  repeat match goal with
  | H : (_ ≫= _) = Ok _ |- _ => apply bind_eq_Ok in H as (?&?&?)
  | H : Ok _ = Ok _ |- _ => injection H as H
  | H : Err _ = Err _ |- _ => injection H as H
  | H : Ok _ = Err _ |- _ => discriminate H
  | H : Err _ = Ok _ |- _ => discriminate H
  end; subst.

(** [decide_by_eval] proves a decidable proposition on closed data by
    evaluating its decision procedure. *)
Ltac decide_by_eval := apply (bool_decide_unpack _); vm_compute; exact I.

(** The hypotheses of the nested induction principles, as [Forall]. *)
Lemma list_all_Forall {A} (P : A -> Prop) (l : list A) :
  list_all A P l -> Forall P l.
Proof. induction 1; by constructor. Qed.

#[export] Hint Resolve list_all_Forall : prefs.

(** The bounds stay folded under [simpl]; [vm_compute] still evaluates them. *)
Arguments i64_min : simpl never.
Arguments i64_max : simpl never.
Arguments u64_max : simpl never.
