(* ===== verification/StreamController.v ===== *)
(** * [ReadableStreamDefaultController] (script/dom/readablestreamdefaultcontroller.rs)

    The file declares the DOM object and the methods of its WebIDL
    interface, but every method body is [todo!()], which panics with the
    message ["not yet implemented"], and the two setup functions of the
    Streams specification have empty bodies.  The model keeps exactly
    that: the object carries nothing but its reflector, each method is a
    panic whatever its arguments, and each setup function returns unit.
    The JavaScript values the methods take are opaque parameters: no body
    reads them. *)

From S2P Require Import Prelude.

Section StreamController.

(** [JSContext] and [HandleValue] of the bindings, and the DOM [Error] of
    [Fallible]: the bodies never look at them. *)
Variables (JSContext HandleValue DomError : Type).

(** [#[dom_struct] pub struct ReadableStreamDefaultController]: only the
    [reflector_] field, itself opaque. *)
Record ReadableStreamDefaultController : Type := {
  reflector_ : unit;
}.

(** [todo!()] *)
Definition todo {A} : outcome A := Panicked "not yet implemented".

(** [fn GetDesiredSize(&self) -> Option<f64>]: the [f64] as its bits. *)
Definition GetDesiredSize (self : ReadableStreamDefaultController) : outcome (option Z) := todo.

(** [fn Close(&self) -> Fallible<()>] *)
Definition Close (self : ReadableStreamDefaultController) : outcome (Result () DomError) := todo.

(** [fn Enqueue(&self, cx, chunk) -> Fallible<()>] *)
Definition Enqueue (self : ReadableStreamDefaultController) (cx : JSContext) (chunk : HandleValue) :
    outcome (Result () DomError) := todo.

(** [fn Error(&self, cx, e) -> Fallible<()>] *)
Definition Error (self : ReadableStreamDefaultController) (cx : JSContext) (e : HandleValue) :
    outcome (Result () DomError) := todo.

End StreamController.

(** [pub fn setup_readable_stream_default_controller_from_underlying_source() {}] *)
Definition setup_readable_stream_default_controller_from_underlying_source : unit := tt.

(** [fn SetUpReadableStreamDefaultController() {}] *)
Definition SetUpReadableStreamDefaultController : unit := tt.
