(* ===== verification/Float64.v ===== *)
(** * IEEE-754 binary64 values as 64-bit patterns

    Rust's [f64] and serde_json's [N::Float] are kept as their bit pattern,
    an integer in [[0, 2^64)].  The only floating-point operations the
    preference code reaches are the classification of a pattern (finite or
    not) and the [as f64] conversion of an [i64] or [u64] (used by
    [serde_json::Number::as_f64] and by serde when an integer literal fills
    an [f64] field); both are written here with [Z.shiftr], [Z.land],
    [Z.lor] and round-to-nearest-ties-to-even. *)

From S2P Require Import Prelude.

Module F64.

Definition frac_bits : Z := 52.
Definition bias : Z := 1023.

(** The fields of a pattern. *)
Definition sign (b : Z) : bool := Z.testbit b 63.
Definition biased_exponent (b : Z) : Z := Z.land (Z.shiftr b frac_bits) (2 ^ 11 - 1).
Definition fraction (b : Z) : Z := Z.land b (2 ^ frac_bits - 1).

(** [f64::is_finite]: the exponent field is not all ones. *)
Definition is_finite (b : Z) : bool := negb (biased_exponent b =? 2 ^ 11 - 1).

(** A pattern is one of the [2^64] words. *)
Definition wf (b : Z) : bool := (0 <=? b) && (b <? 2 ^ 64).

(** Assemble a pattern from its three fields. *)
Definition make (s : bool) (e m : Z) : Z :=
  Z.lor (Z.shiftl (Z.b2z s) 63) (Z.lor (Z.shiftl e frac_bits) m).

(** Rounding of the 53-bit significand of a positive integer [a] whose
    leading bit is bit [e]: the significand and the (unbiased) exponent. *)
Definition round_significand (a e : Z) : Z * Z :=
  if e <=? frac_bits then (Z.shiftl a (frac_bits - e), e)
  else
    let s := e - frac_bits in
    let q := Z.shiftr a s in
    let r := Z.land a (2 ^ s - 1) in
    let half := 2 ^ (s - 1) in
    let q' := if (half <? r) || ((r =? half) && Z.odd q) then q + 1 else q in
    if q' =? 2 ^ (frac_bits + 1) then (2 ^ frac_bits, e + 1) else (q', e).

(** [n as f64] for an integer [n] of at most 64 bits (an [i64] or a [u64]):
    the nearest binary64, ties to even.  No such integer overflows the
    exponent range. *)
Definition of_int (n : Z) : Z :=
  if n =? 0 then 0 else
  let a := Z.abs n in
  let '(m, e) := round_significand a (Z.log2 a) in
  make (n <? 0) (e + bias) (m - 2 ^ frac_bits).

(** The integer a finite pattern denotes, when it denotes one. *)
Definition to_int_exact (b : Z) : option Z :=
  let ex := biased_exponent b in
  if ex =? 2 ^ 11 - 1 then None else
  let m := if ex =? 0 then fraction b else fraction b + 2 ^ frac_bits in
  let e := Z.max ex 1 - bias - frac_bits in
  let mag :=
    if 0 <=? e then Some (Z.shiftl m e)
    else if Z.land m (2 ^ (- e) - 1) =? 0 then Some (Z.shiftr m (- e)) else None in
  match mag with
  | Some v => Some (if sign b then - v else v)
  | None => None
  end.

(** The bit-level definitions stay folded under [simpl]. *)
Arguments sign : simpl never.
Arguments biased_exponent : simpl never.
Arguments fraction : simpl never.
Arguments is_finite : simpl never.
Arguments wf : simpl never.
Arguments of_int : simpl never.
Arguments to_int_exact : simpl never.

End F64.
