(* ===== verification/Json.v ===== *)
(** * serde_json's data model: [serde_json::Number] and [serde_json::Value]

    The external parser turns text into these values; [read_prefs_map]
    (prefs.rs, 64-98) and [PrefValue::from_json_value] inspect them.  A
    [Number] is serde_json's private enum [N]: a non-negative integer that
    fits a [u64], a negative integer that fits an [i64], or a finite float.
    Objects keep their entries in document order (the order in which serde
    visits them when it deserializes a map). *)

From S2P Require Import Prelude Float64.

Module Number.

Inductive t : Type :=
| PosInt (u : Z)
| NegInt (i : Z)
| Float (bits : Z).

(** The invariant serde_json maintains for its numbers. *)
Definition wf (n : t) : bool :=
  match n with
  | PosInt u => in_u64 u
  | NegInt i => (i64_min <=? i) && (i <? 0)
  | Float b => F64.wf b && F64.is_finite b
  end.

(** [Number::is_i64] *)
Definition is_i64 (n : t) : bool :=
  match n with
  | PosInt u => u <=? i64_max
  | NegInt _ => true
  | Float _ => false
  end.

(** [Number::is_u64] *)
Definition is_u64 (n : t) : bool :=
  match n with PosInt _ => true | _ => false end.

(** [Number::is_f64] *)
Definition is_f64 (n : t) : bool :=
  match n with Float _ => true | _ => false end.

(** [Number::as_i64] *)
Definition as_i64 (n : t) : option Z :=
  match n with
  | PosInt u => if u <=? i64_max then Some u else None
  | NegInt i => Some i
  | Float _ => None
  end.

(** [Number::as_f64]: integers are converted with [as f64]. *)
Definition as_f64 (n : t) : option Z :=
  match n with
  | PosInt u => Some (F64.of_int u)
  | NegInt i => Some (F64.of_int i)
  | Float b => Some b
  end.

Lemma as_i64_is_i64 n : Number.is_i64 n = true -> exists i, as_i64 n = Some i.
Proof. destruct n as [u|i|b]; simpl; [intros ->|intros _|done]; eauto. Qed.

Lemma as_f64_total n : exists b, as_f64 n = Some b.
Proof. destruct n; simpl; eauto. Qed.

(** [impl From<i64> for Number] *)
Definition from_i64 (i : Z) : t := if i <? 0 then NegInt i else PosInt i.

(** [Number::from_f64]: [None] for NaN and the infinities. *)
Definition from_f64 (b : Z) : option t :=
  if F64.is_finite b then Some (Float b) else None.

End Number.

Module Value.

Inductive t : Type :=
| Null
| Bool (b : bool)
| Number (n : Number.t)
| String (s : string)
| Array (vs : list t)
| Object (entries : list (string * t)).

(** Every number in the tree satisfies serde_json's invariant. *)
Fixpoint wf (v : t) : bool :=
  match v with
  | Null | Bool _ | String _ => true
  | Number n => Number.wf n
  | Array vs => forallb wf vs
  | Object es => forallb (λ e, wf e.2) es
  end.

End Value.
