(* ===== verification/PrefValue.v ===== *)
(** * The value kind: [pref_util::PrefValue]

    [PrefValue] is the closed tagged union every dynamically addressed
    preference takes (spec, section 3): [Bool], [Int] (an [i64]), [Float]
    (an [f64], kept as its bit pattern), [Str] and [Array].  [pref_util.rs]
    is not under [src/]; [from_json_value] follows the contract of spec 4.1
    (scalars convert, arrays convert only when every element does), and the
    conversion back to JSON follows serde_json's [From] impls for [Value].
    The file proves the two round trips between convertible JSON values and
    well-formed [PrefValue]s. *)

From S2P Require Import Prelude Float64 Json.

Module PrefValue.

Inductive t : Type :=
| Bool (b : bool)
| Int (i : Z)
| Float (bits : Z)
| Str (s : string)
| Array (vs : list t).

#[global] Instance t_inhabited : Inhabited t := populate (Bool false).

(** Structural equality ([#[derive(PartialEq)]] on the bit patterns). *)
Fixpoint eqb (x y : t) : bool :=
  match x, y with
  | Bool a, Bool b => Bool.eqb a b
  | Int a, Int b => Z.eqb a b
  | Float a, Float b => Z.eqb a b
  | Str a, Str b => String.eqb a b
  | Array xs, Array ys =>
      (fix go (xs ys : list t) : bool :=
         match xs, ys with
         | [], [] => true
         | x :: xs, y :: ys => eqb x y && go xs ys
         | _, _ => false
         end) xs ys
  | _, _ => false
  end.

(** [PrefValue::from_json_value]: spec 4.1.  Numbers are classified the
    way serde_json exposes them: an [i64] first, then a float; a [u64]
    above [i64::MAX] has no matching kind. *)
Fixpoint from_json_value (v : Value.t) : option t :=
  match v with
  | Value.Bool b => Some (Bool b)
  | Value.Number n =>
      if Number.is_i64 n then Int <$> Number.as_i64 n
      else if Number.is_f64 n then Float <$> Number.as_f64 n
      else None
  | Value.String s => Some (Str s)
  | Value.Array vs =>
      Array <$> (fix go (vs : list Value.t) : option (list t) :=
                   match vs with
                   | [] => Some []
                   | v :: vs => x ← from_json_value v; xs ← go vs; Some (x :: xs)
                   end) vs
  | Value.Null | Value.Object _ => None
  end.

(** The conversion back: serde_json's [From<bool>], [From<i64>],
    [From<f64>] (a non-finite float becomes [Null]), [From<String>] and
    [From<Vec<_>>] for [Value]. *)
Fixpoint to_json_value (v : t) : Value.t :=
  match v with
  | Bool b => Value.Bool b
  | Int i => Value.Number (Number.from_i64 i)
  | Float b =>
      match Number.from_f64 b with
      | Some n => Value.Number n
      | None => Value.Null
      end
  | Str s => Value.String s
  | Array vs => Value.Array (map to_json_value vs)
  end.

Lemma to_json_value_array_eq vs :
  to_json_value (Array vs) = Value.Array (map to_json_value vs).
Proof. reflexivity. Qed.

(** Well-formedness: integers fit an [i64], floats are finite patterns. *)
Fixpoint wf (v : t) : bool :=
  match v with
  | Bool _ | Str _ => true
  | Int i => in_i64 i
  | Float b => F64.wf b && F64.is_finite b
  | Array vs => forallb wf vs
  end.

(** ** Equality is decidable *)

Lemma eqb_eq x y : eqb x y = true <-> x = y.
Proof.
  revert y; induction x as [a|a|a|a|xs IH] using t_ind; intros [b|b|b|b|ys]; simpl;
    try (split; [done|intros; discriminate]).
  - rewrite Bool.eqb_true_iff. naive_solver.
  - rewrite Z.eqb_eq. naive_solver.
  - rewrite Z.eqb_eq. naive_solver.
  - rewrite String.eqb_eq. naive_solver.
  - apply list_all_Forall in IH. revert ys; induction IH as [|x xs Hx Hxs IHxs]; intros [|y ys];
      try (split; [done|intros; discriminate]); [done|].
    rewrite andb_true_iff, Hx, IHxs. split; [intros [-> [= ->]]; reflexivity|intros [= -> ->]; auto].
Qed.

#[global] Instance t_eq_dec : EqDecision t.
Proof.
  intros x y. destruct (eqb x y) eqn:E; [left; by apply eqb_eq|right].
  intros <-. assert (eqb x x = true) by (by apply eqb_eq). congruence.
Defined.

(** ** [from_json_value] on arrays is stdpp's [mapM] *)

Lemma from_json_value_array vs :
  from_json_value (Value.Array vs) = Array <$> mapM from_json_value vs.
Proof.
  reflexivity.
Qed.

(** ** Round trips between [PrefValue] and JSON *)

Lemma from_json_value_int i :
  in_i64 i = true -> from_json_value (Value.Number (Number.from_i64 i)) = Some (Int i).
Proof.
  unfold in_i64, Number.from_i64. rewrite andb_true_iff, !Z.leb_le. intros [_ Hi].
  destruct (Z.ltb_spec i 0); cbn -[i64_max]; [reflexivity|].
  rewrite (proj2 (Z.leb_le _ _) Hi). reflexivity.
Qed.

Lemma from_json_value_float b :
  F64.is_finite b = true -> from_json_value (to_json_value (Float b)) = Some (Float b).
Proof. intros Hb. cbn [to_json_value]. unfold Number.from_f64. rewrite Hb. reflexivity. Qed.

Lemma mapM_from_json_value_map vs :
  Forall (λ v, from_json_value (to_json_value v) = Some v) vs ->
  mapM from_json_value (map to_json_value vs) = Some vs.
Proof. induction 1 as [|v vs Hv _ IH]; simpl; [done|]. by rewrite Hv, IH. Qed.

(** Every well-formed [PrefValue] survives the trip to a JSON value and
    back through [from_json_value] (spec 8, first property: booleans,
    integers, finite floats, strings, and arrays of them). *)
Theorem from_json_value_to_json_value v :
  wf v = true -> from_json_value (to_json_value v) = Some v.
Proof.
  induction v as [b|i|b|s|vs IH] using t_ind; simpl wf; intros Hwf.
  - done.
  - by apply from_json_value_int.
  - apply andb_true_iff in Hwf as [_ Hb]. by apply from_json_value_float.
  - done.
  - apply list_all_Forall in IH. rewrite forallb_forall in Hwf.
    rewrite to_json_value_array_eq, from_json_value_array, mapM_from_json_value_map; [done|].
    apply List.Forall_forall. intros v Hv.
    apply (proj1 (List.Forall_forall _ _) IH v Hv), Hwf, Hv.
Qed.

Lemma number_roundtrip n p :
  Number.wf n = true -> from_json_value (Value.Number n) = Some p ->
  to_json_value p = Value.Number n /\ wf p = true.
Proof.
  destruct n as [u|i|b]; cbn -[i64_max i64_min u64_max]; unfold in_u64, in_i64;
    rewrite ?andb_true_iff, ?Z.leb_le, ?Z.ltb_lt.
  - intros [Hu _]. destruct (Z.leb_spec u i64_max); simpl; [|intros [=]].
    intros [= <-]. cbn [to_json_value]. unfold Number.from_i64. destruct (Z.ltb_spec u 0); [lia|].
    split; [done|]. apply andb_true_iff; rewrite !Z.leb_le. unfold i64_min in *; lia.
  - intros [Hlo Hhi] [= <-]. cbn [to_json_value]. unfold Number.from_i64. destruct (Z.ltb_spec i 0); [|lia].
    split; [done|]. apply andb_true_iff; rewrite !Z.leb_le. unfold i64_max in *; lia.
  - intros [Hwf Hfin] [= <-]. cbn [to_json_value]. unfold Number.from_f64. rewrite Hfin.
    split; [done|]. simpl. by rewrite Hwf, Hfin.
Qed.

(** Conversely, a well-formed JSON value that [from_json_value]
    accepts is exactly the JSON image of the [PrefValue] it yields, and that
    value is well formed: the conversion loses nothing. *)
Theorem to_json_value_from_json_value j p :
  Value.wf j = true -> from_json_value j = Some p ->
  to_json_value p = j /\ wf p = true.
Proof.
  revert p; induction j as [|b|n|s|vs IH|es _] using Value.t_ind; intros p Hwf Hp;
    try discriminate Hp.
  - injection Hp as <-. done.
  - by apply number_roundtrip.
  - injection Hp as <-. done.
  - rewrite from_json_value_array in Hp.
    destruct (mapM from_json_value vs) as [xs|] eqn:Hxs; simpl in Hp; [|discriminate].
    injection Hp as <-. apply mapM_Some in Hxs.
    apply list_all_Forall in IH. simpl in Hwf. rewrite forallb_forall in Hwf.
    cut (map to_json_value xs = vs /\ forallb wf xs = true);
      [intros [Hm Hw]; cbn [to_json_value wf]; by rewrite Hm, Hw|].
    induction Hxs as [|v x vs xs Hx Hxs IHxs]; [done|].
    inversion IH as [|? ? IHv IHvs]; subst. simpl.
    destruct (IHv x) as [-> ->]; [apply Hwf; by left|done|].
    destruct IHxs as [-> ->]; [done|intros; apply Hwf; by right|done].
Qed.

End PrefValue.

(** [pref_util::PrefError]: the parse error of serde_json, a value with no
    matching kind, an unknown key, and (spec 7) a value whose kind does not
    match the field's declared type. *)
Inductive PrefError : Type :=
| JsonParseErr (e : string)
| InvalidValue (msg : string)
| NoSuchPref (key : string)
| TypeMismatch (key : string) (value : PrefValue.t).

(** ** Witnesses *)

Lemma from_json_value_to_json_value_witness :
  let v := PrefValue.Array [PrefValue.Int (-5); PrefValue.Float 4607182418800017408;
                            PrefValue.Str "a"; PrefValue.Bool true] in
  PrefValue.wf v = true /\ PrefValue.from_json_value (PrefValue.to_json_value v) = Some v.
Proof.
  intros v. split; [vm_compute; reflexivity|].
  apply PrefValue.from_json_value_to_json_value. vm_compute. reflexivity.
Defined.

Lemma to_json_value_from_json_value_witness :
  let j := Value.Array [Value.Number (Number.NegInt (-5)); Value.Number (Number.PosInt 7)] in
  let p := PrefValue.Array [PrefValue.Int (-5); PrefValue.Int 7] in
  PrefValue.to_json_value p = j /\ PrefValue.wf p = true.
Proof.
  intros j p. apply PrefValue.to_json_value_from_json_value; vm_compute; reflexivity.
Defined.
