(* ===== verification/StoreSpec.v ===== *)
(** * The contract of the preference store

    What [Preferences] promises to its clients (spec 4.3 and 8), as a
    typeclass: a string-keyed [store_get] and [store_set] over a state
    type, an invariant [store_inv] the store keeps, and the laws.  The bulk
    applier ([BulkApply]) is proved against these laws only; [Store] proves
    that [Preferences] with the generated accessor table satisfies them. *)

From S2P Require Import Prelude Float64 Json PrefValue.

Class PrefStore (S : Type) : Type := {
  store_get : S -> string -> Result PrefValue.t PrefError;
  store_set : S -> string -> PrefValue.t -> Result S PrefError;
  store_inv : S -> Prop;
}.

Class PrefStoreLaws (S : Type) `{!PrefStore S} : Prop := {
  (** [set] keeps the invariant. *)
  store_set_inv s s' k v :
    store_inv s -> store_set s k v = Ok s' -> store_inv s';
  (** A [get] after a successful [set] of the same key returns the value. *)
  store_get_set_eq s s' k v :
    store_inv s -> store_set s k v = Ok s' -> store_get s' k = Ok v;
  (** A successful [set] leaves every other key as it was. *)
  store_get_set_ne s s' k k' v :
    store_inv s -> store_set s k v = Ok s' -> k' <> k -> store_get s' k' = store_get s k';
  (** Whether a [set] is refused, and with which error, depends only on
      the key and the value, not on the values stored. *)
  store_set_err_stable s s' k v e :
    store_inv s -> store_inv s' -> store_set s k v = Err e -> store_set s' k v = Err e;
}.
