(* ===== verification/ReadPrefs.v ===== *)
(** * Reading a user preference document: [read_prefs_map]

    [read_prefs_map] (prefs.rs, lines 64-98) deserializes a JSON text into a
    [HashMap<String, Value>], then converts each value into a [PrefValue]
    with an inline [match] and collects the results into a
    [Result<HashMap<String, PrefValue>, PrefError>].  The JSON text parser,
    [Display] of a value (used in the error message) and the iteration order
    of [HashMap] are external; they are the variables of the section.

    The array arm is modelled as written: [array] is a lazy [Map] iterator,
    [array.all(..)] consumes it, and [array.flatten().collect()] then reads
    what [all] left, which is nothing when [all] returned [true]. *)

From S2P Require Import Prelude Float64 Json PrefValue.

Section ReadPrefs.

(** serde_json's text parser: the document with the entries of every object
    in text order, or the parser's error message. *)
Variable parse_json : string -> Result Value.t string.
(** [impl Display for Value]. *)
Variable display : Value.t -> string.
(** The iteration order of [HashMap]. *)
Variable into_iter : hashmap_order.

(** [serde_json::from_str::<HashMap<String, Value>>]: the document must be
    an object; each entry is inserted in turn, so a repeated key keeps its
    last value. *)
Definition hashmap_from_entries (es : list (string * Value.t)) : gmap string Value.t :=
  foldl (λ m kv, <[kv.1 := kv.2]> m) ∅ es.

Definition from_str_map (txt : string) : Result (gmap string Value.t) string :=
  v ← parse_json txt;
  match v with
  | Value.Object es => Ok (hashmap_from_entries es)
  | _ => Err "invalid type: expected a map"
  end.

(** [PrefError::InvalidValue(format!("Invalid value: {}", pref_value))] *)
Definition invalid_value (pref_value : Value.t) : PrefError :=
  InvalidValue ("Invalid value: " +:+ display pref_value).

(** The [match &pref_value] of lines 71-93; its early [return]s are the
    [Err] results. *)
Definition convert_value (pref_value : Value.t) : Result PrefValue.t PrefError :=
  match pref_value with
  | Value.Bool b => Ok (PrefValue.Bool b)
  | Value.Number n =>
      if Number.is_i64 n then Ok (PrefValue.Int (unwrap (Number.as_i64 n)))
      else if Number.is_f64 n then Ok (PrefValue.Float (unwrap (Number.as_f64 n)))
      else Err (invalid_value pref_value)
  | Value.String s => Ok (PrefValue.Str s)
  | Value.Array v =>
      let array := map PrefValue.from_json_value v in
      let '(all_some, array) := iter_all is_some array in
      if all_some then Ok (PrefValue.Array (flatten array))
      else Err (invalid_value pref_value)
  | Value.Null | Value.Object _ => Err (invalid_value pref_value)
  end.

(** The closure of [map] (lines 69-96): [Ok((k.to_owned(), v))]. *)
Definition convert_entry (kv : string * Value.t) : Result (string * PrefValue.t) PrefError :=
  v ← convert_value kv.2; Ok (kv.1, v).

(** [collect::<Result<HashMap<_, _>, _>>()]: the first [Err] ends the
    collection; each [Ok] pair is inserted into the map being built. *)
Fixpoint collect_map {V E} (acc : gmap string V) (it : list (Result (string * V) E)) :
    Result (gmap string V) E :=
  match it with
  | [] => Ok acc
  | Ok kv :: rest => collect_map (<[kv.1 := kv.2]> acc) rest
  | Err e :: _ => Err e
  end.

(** [read_prefs_map] *)
Definition read_prefs_map (txt : string) : Result (gmap string PrefValue.t) PrefError :=
  prefs ← map_err JsonParseErr (from_str_map txt);
  collect_map ∅ (map convert_entry (into_iter _ prefs)).

(** ** Lemmas on the collection and on one entry *)

Definition insert_pair {V} (m : gmap string V) (kv : string * V) : gmap string V :=
  <[kv.1 := kv.2]> m.

(** [collect] into [Result<HashMap>] is [mapM] followed by the inserts. *)
Lemma collect_map_eq {V E} (acc : gmap string V) (it : list (Result (string * V) E)) :
  collect_map acc it = (kvs ← mapM id it; Ok (foldl insert_pair acc kvs)).
Proof.
  revert acc; induction it as [|[kv|e] it IH]; intros acc; simpl; [done| |done].
  rewrite IH. by destruct (mapM id it).
Qed.

Lemma convert_entry_Ok kv kv' :
  convert_entry kv = Ok kv' <-> exists pv, kv' = (kv.1, pv) /\ convert_value kv.2 = Ok pv.
Proof.
  unfold convert_entry. destruct (convert_value kv.2) as [pv|e]; simpl.
  - split; [intros [= <-]; eauto|]. by intros (?&->&[= ->]).
  - split; [done|]. by intros (?&_&?).
Qed.

(** The pairs collected from entries with their converted values. *)
Lemma collected_elem l kvs :
  Forall2 (λ x y, convert_entry x = Ok y) l kvs ->
  kvs.*1 = l.*1 /\
  ∀ k pv, (k, pv) ∈ kvs <-> exists v, (k, v) ∈ l /\ convert_value v = Ok pv.
Proof.
  induction 1 as [|[k0 v0] y l kvs Hy _ [IH1 IH2]]; simpl.
  - split; [done|]. intros k pv. split; [by intros ?%elem_of_nil|].
    by intros (?&?%elem_of_nil&_).
  - apply convert_entry_Ok in Hy as (pv0&->&Hv0). simpl in *.
    split; [cbn; by f_equal|]. intros k pv. rewrite elem_of_cons, IH2.
    split.
    + intros [[= -> ->]|(v&Hv&Hc)]; [exists v0; by rewrite elem_of_cons; auto|].
      exists v. rewrite elem_of_cons. auto.
    + intros (v&Hv&Hc). apply elem_of_cons in Hv as [[= -> ->]|Hv]; [|eauto].
      left. rewrite Hv0 in Hc. by injection Hc as ->.
Qed.

(** The [Array] arm: [all] exhausts the iterator before [flatten] reads
    it, so an array is accepted exactly when each element converts, and the
    value produced is always the empty array. *)
Lemma convert_value_array v :
  convert_value (Value.Array v) =
  if forallb (λ x, is_some (PrefValue.from_json_value x)) v
  then Ok (PrefValue.Array [])
  else Err (invalid_value (Value.Array v)).
Proof.
  unfold convert_value. destruct (forallb _ v) eqn:Hall.
  - rewrite iter_all_true; [done|]. by rewrite forallb_map.
  - destruct (iter_all is_some (map PrefValue.from_json_value v)) as [b rest] eqn:E.
    assert (b = false) as ->; [|done].
    assert (Hb : (iter_all is_some (map PrefValue.from_json_value v)).1 = b) by by rewrite E.
    rewrite iter_all_fst, forallb_map in Hb. congruence.
Qed.

Lemma is_ok_convert_entry kv : is_ok (convert_entry kv) = is_ok (convert_value kv.2).
Proof. unfold convert_entry. by destruct (convert_value kv.2). Qed.

Lemma read_prefs_map_collect txt prefs :
  from_str_map txt = Ok prefs ->
  read_prefs_map txt =
  (kvs ← mapM convert_entry (into_iter _ prefs); Ok (foldl insert_pair ∅ kvs)).
Proof.
  intros Hs. unfold read_prefs_map. rewrite Hs. simpl.
  by rewrite collect_map_eq, mapM_res_id_map.
Qed.

(** [convert_value] against [PrefValue::from_json_value]. *)
Lemma convert_value_ok_eq v :
  ok (convert_value v) =
  match v with
  | Value.Array _ => (λ _, PrefValue.Array []) <$> PrefValue.from_json_value v
  | _ => PrefValue.from_json_value v
  end.
Proof.
  destruct v as [|b|n|str|vs|es]; try reflexivity.
  - cbn [convert_value PrefValue.from_json_value].
    destruct (Number.is_i64 n) eqn:Hi.
    + destruct (Number.as_i64_is_i64 n Hi) as [i ->]. reflexivity.
    + destruct (Number.is_f64 n); [|reflexivity].
      destruct (Number.as_f64_total n) as [b ->]. reflexivity.
  - rewrite convert_value_array, PrefValue.from_json_value_array.
    rewrite <-(mapM_option_is_some PrefValue.from_json_value).
    by destruct (mapM PrefValue.from_json_value vs).
Qed.

(** C5. The inline conversion of [read_prefs_map] accepts exactly the
    values [PrefValue::from_json_value] accepts and yields the same value,
    except on arrays, which it always turns into the empty array. *)
Theorem convert_value_from_json_value v :
  ok (convert_value v) =
  match v with
  | Value.Array _ => (λ _, PrefValue.Array []) <$> PrefValue.from_json_value v
  | _ => PrefValue.from_json_value v
  end.
Proof. apply convert_value_ok_eq. Qed.

Lemma ok_Some {E A} (r : Result A E) x : ok r = Some x -> r = Ok x.
Proof. destruct r; simpl; congruence. Qed.

(** C3. A well-formed [PrefValue] written as JSON is read back by
    [read_prefs_map]'s conversion as itself when it is a boolean, an
    integer, a float or a string, and as the empty array when it is an
    array (spec 8, first property, holds for the scalars only). *)
Theorem convert_value_roundtrip v :
  PrefValue.wf v = true ->
  convert_value (PrefValue.to_json_value v) =
  Ok (match v with PrefValue.Array _ => PrefValue.Array [] | _ => v end).
Proof.
  intros Hwf. apply ok_Some. rewrite convert_value_ok_eq.
  pose proof (PrefValue.from_json_value_to_json_value v Hwf) as Hrt.
  destruct v as [b|i|b|str|vs]; cbn [PrefValue.to_json_value] in *.
  - exact Hrt.
  - exact Hrt.
  - destruct (Number.from_f64 b); exact Hrt.
  - exact Hrt.
  - by rewrite Hrt.
Qed.

(** ** A key repeated in the document *)

(** Inserting the entries one after the other: a later entry of a key
    replaces an earlier one. *)
Lemma foldl_insert_shadow {V} (m : gmap string V) k v v' es :
  <[k:=v']> (foldl (λ m kv, <[kv.1:=kv.2]> m) (<[k:=v]> m) es) =
  <[k:=v']> (foldl (λ m kv, <[kv.1:=kv.2]> m) m es).
Proof.
  revert m. induction es as [|[k2 v2] es IH]; intros m; simpl; [by rewrite insert_insert_eq|].
  destruct (decide (k2 = k)) as [->|Hne]; [by rewrite insert_insert_eq|].
  rewrite insert_insert_ne by done. apply IH.
Qed.

Lemma hashmap_from_entries_shadow e1 k v e2 v' e3 :
  hashmap_from_entries (e1 ++ (k, v) :: e2 ++ (k, v') :: e3) =
  hashmap_from_entries (e1 ++ e2 ++ (k, v') :: e3).
Proof.
  unfold hashmap_from_entries. rewrite !foldl_app. simpl. rewrite !foldl_app. simpl.
  by rewrite foldl_insert_shadow.
Qed.


Section Order.
Hypothesis Horder : valid_order into_iter.

Lemma into_iter_entries {V} (m : gmap string V) k v :
  (k, v) ∈ into_iter _ m <-> m !! k = Some v.
Proof. rewrite (Horder _ m). apply elem_of_map_to_list. Qed.

Lemma into_iter_NoDup {V} (m : gmap string V) : NoDup (into_iter _ m).*1.
Proof. rewrite (Horder _ m). apply NoDup_fst_map_to_list. Qed.

(** The map collected from the converted entries, key by key. *)
Lemma collected_lookup prefs kvs :
  Forall2 (λ x y, convert_entry x = Ok y) (into_iter _ prefs) kvs ->
  ∀ k pv, foldl insert_pair ∅ kvs !! k = Some pv <->
          exists v, prefs !! k = Some v /\ convert_value v = Ok pv.
Proof.
  intros Hc%collected_elem. destruct Hc as [Hk Hel]. intros k pv.
  assert (Hnd : NoDup kvs.*1) by (rewrite Hk; apply into_iter_NoDup).
  unfold insert_pair. rewrite foldl_insert_union, map_union_empty by done.
  rewrite <-elem_of_list_to_map, Hel by done.
  by setoid_rewrite into_iter_entries.
Qed.

Lemma all_entries_convert prefs :
  map_Forall (λ _ v, is_ok (convert_value v) = true) prefs <->
  is_ok (mapM convert_entry (into_iter _ prefs)) = true.
Proof.
  rewrite mapM_res_is_ok, forallb_forall. split.
  - intros Hall [k v] Hin. apply list_elem_of_In, into_iter_entries in Hin.
    rewrite is_ok_convert_entry. by apply (Hall k).
  - intros Hall k v Hkv. apply (into_iter_entries prefs), list_elem_of_In, Hall in Hkv.
    by rewrite is_ok_convert_entry in Hkv.
Qed.

(** The success of [read_prefs_map], entry by entry. *)
Lemma read_prefs_map_Ok_iff txt prefs m :
  from_str_map txt = Ok prefs ->
  read_prefs_map txt = Ok m <->
  map_Forall (λ _ v, is_ok (convert_value v) = true) prefs /\
  (∀ k pv, m !! k = Some pv <-> exists v, prefs !! k = Some v /\ convert_value v = Ok pv).
Proof.
  intros Hs. rewrite (read_prefs_map_collect _ _ Hs), all_entries_convert.
  destruct (mapM convert_entry (into_iter _ prefs)) as [kvs|e] eqn:E; simpl;
    [|split; [done|by intros [? _]]].
  apply mapM_res_Ok in E. split.
  - intros [= <-]. split; [done|]. by apply collected_lookup.
  - intros [_ Hlk]. f_equal. apply map_eq. intros k. apply option_eq. intros pv.
    by rewrite Hlk, collected_lookup.
Qed.

(** A document whose values all convert is read. *)
Lemma read_prefs_map_Ok_exists txt prefs :
  from_str_map txt = Ok prefs ->
  map_Forall (λ _ v, is_ok (convert_value v) = true) prefs ->
  exists m, read_prefs_map txt = Ok m.
Proof.
  intros Hs Hall%all_entries_convert. rewrite (read_prefs_map_collect _ _ Hs).
  destruct (mapM convert_entry (into_iter _ prefs)); [by eexists|done].
Qed.

(** C2. [read_prefs_map] succeeds on a document that deserializes into a
    map exactly when every value of the map converts, whatever order the
    [HashMap] yields its entries in; the map it returns holds, under each
    key, the converted value of that key. *)
Theorem read_prefs_map_Ok txt prefs m :
  from_str_map txt = Ok prefs ->
  read_prefs_map txt = Ok m <->
  map_Forall (λ _ v, is_ok (convert_value v) = true) prefs /\
  (∀ k pv, m !! k = Some pv <-> exists v, prefs !! k = Some v /\ convert_value v = Ok pv).
Proof. apply read_prefs_map_Ok_iff. Qed.

(** The value [read_prefs_map] stores for an array entry. *)
Lemma read_prefs_map_array_entry txt prefs m k vs :
  from_str_map txt = Ok prefs ->
  read_prefs_map txt = Ok m ->
  prefs !! k = Some (Value.Array vs) ->
  m !! k = Some (PrefValue.Array []).
Proof.
  intros Hs Hr Hk. apply (read_prefs_map_Ok_iff _ _ _ Hs) in Hr as [Hall Hlk].
  specialize (Hall k _ Hk). cbv beta in Hall. rewrite convert_value_array in Hall.
  apply Hlk. exists (Value.Array vs). split; [done|].
  rewrite convert_value_array. by destruct (forallb _ vs).
Qed.

(** C1. Every array of a user document that [read_prefs_map] accepts is
    stored as the empty array: [array.all(..)] has consumed the iterator
    that [array.flatten().collect()] reads (spec 4.1 and 4.5 expect the
    converted elements). *)
Theorem read_prefs_map_array_empty txt prefs m k vs :
  from_str_map txt = Ok prefs ->
  read_prefs_map txt = Ok m ->
  prefs !! k = Some (Value.Array vs) ->
  m !! k = Some (PrefValue.Array []).
Proof. apply read_prefs_map_array_entry. Qed.

(** C4. When [read_prefs_map] fails, the error is the parse error of the
    document, or the error of converting some value of it (which one,
    when several values fail, depends on the [HashMap] order). *)
Theorem read_prefs_map_Err txt e :
  read_prefs_map txt = Err e ->
  (exists msg, from_str_map txt = Err msg /\ e = JsonParseErr msg) \/
  (exists prefs k v, from_str_map txt = Ok prefs /\ prefs !! k = Some v /\
                     convert_value v = Err e).
Proof.
  destruct (from_str_map txt) as [prefs|msg] eqn:Hs;
    [|unfold read_prefs_map; rewrite Hs; intros [= <-]; eauto].
  rewrite (read_prefs_map_collect _ _ Hs).
  destruct (mapM convert_entry _) as [kvs|e'] eqn:E; simpl; [done|intros [= ->]].
  right. apply mapM_res_Err in E as (l1&[k v]&l2&Hl&_&He).
  exists prefs, k, v. split; [done|]. split.
  - apply (into_iter_entries prefs). rewrite Hl. apply elem_of_app. right. apply elem_of_cons. by left.
  - unfold convert_entry in He. simpl in He. destruct (convert_value v); simpl in He; congruence.
Qed.

End Order.

End ReadPrefs.

(** ** Witnesses *)

(** A parser that always yields the given document, a [Display] that is
    not looked at, and the enumeration order of [map_to_list]. *)
Definition doc_parser (doc : Value.t) : string -> Result Value.t string := λ _, Ok doc.
Definition no_display : Value.t -> string := λ _, "".
Definition map_order : hashmap_order := λ V m, map_to_list m.

Lemma map_order_valid : valid_order map_order.
Proof. intros V m. reflexivity. Qed.

(** The user document [{"shell.background-color.rgba": [0.0, 0.0, 0.0, 1.0]}]. *)
Definition rgba_key : string := "shell.background-color.rgba".
Definition rgba_array : list Value.t :=
  [Value.Number (Number.Float 0); Value.Number (Number.Float 0);
   Value.Number (Number.Float 0); Value.Number (Number.Float 4607182418800017408)].
Definition rgba_entries : list (string * Value.t) := [(rgba_key, Value.Array rgba_array)].

Lemma read_prefs_map_array_empty_witness :
  (<[rgba_key := PrefValue.Array []]> ∅ : gmap string PrefValue.t) !! rgba_key =
  Some (PrefValue.Array []).
Proof.
  apply (read_prefs_map_array_empty (doc_parser (Value.Object rgba_entries)) no_display
           map_order map_order_valid "" (hashmap_from_entries rgba_entries)
           (<[rgba_key := PrefValue.Array []]> ∅) rgba_key rgba_array);
    vm_compute; reflexivity.
Defined.

(** [{"dom.webgpu.enabled": true, "layout.threads": 4}] is read entry by entry. *)
Definition small_entries : list (string * Value.t) :=
  [("dom.webgpu.enabled", Value.Bool true); ("layout.threads", Value.Number (Number.PosInt 4))].

Lemma read_prefs_map_Ok_witness :
  read_prefs_map (doc_parser (Value.Object small_entries)) no_display map_order ""
    = Ok (<["layout.threads" := PrefValue.Int 4]> {["dom.webgpu.enabled" := PrefValue.Bool true]}) <->
  map_Forall (λ _ v, is_ok (convert_value no_display v) = true) (hashmap_from_entries small_entries) /\
  (∀ k pv, (<["layout.threads" := PrefValue.Int 4]> {["dom.webgpu.enabled" := PrefValue.Bool true]}
              : gmap string PrefValue.t) !! k = Some pv <->
     exists v, hashmap_from_entries small_entries !! k = Some v /\
               convert_value no_display v = Ok pv).
Proof.
  apply (read_prefs_map_Ok (doc_parser (Value.Object small_entries)) no_display map_order
           map_order_valid ""); vm_compute; reflexivity.
Defined.

(** [{"dom.webgpu.enabled": null}]: a [null] has no value kind. *)
Lemma read_prefs_map_Err_witness :
  let parse := doc_parser (Value.Object [("dom.webgpu.enabled", Value.Null)]) in
  let e := InvalidValue "Invalid value: " in
  (exists msg, from_str_map parse "" = Err msg /\ e = JsonParseErr msg) \/
  (exists prefs k v, from_str_map parse "" = Ok prefs /\ prefs !! k = Some v /\
                     convert_value no_display v = Err e).
Proof.
  intros parse e.
  apply (read_prefs_map_Err parse no_display map_order map_order_valid "" e).
  vm_compute. reflexivity.
Defined.

Lemma convert_value_roundtrip_witness :
  convert_value no_display (PrefValue.to_json_value (PrefValue.Array [PrefValue.Int 7]))
  = Ok (PrefValue.Array []).
Proof.
  apply (convert_value_roundtrip no_display (PrefValue.Array [PrefValue.Int 7])).
  vm_compute. reflexivity.
Defined.

(** [{"dom.webgpu.enabled": null, "dom.webgpu.enabled": true}] is read as
    [{"dom.webgpu.enabled": true}]: the [null] is never converted. *)
Definition dup_parser : string -> Result Value.t string := λ txt,
  if String.eqb txt "dup"
  then Ok (Value.Object [("dom.webgpu.enabled", Value.Null); ("dom.webgpu.enabled", Value.Bool true)])
  else Ok (Value.Object [("dom.webgpu.enabled", Value.Bool true)]).

