(* ===== verification/Schema.v ===== *)
(** * The preference schema: [mod gen] of prefs.rs (lines 100-853)

    Each Rust struct of [mod gen] is one definition of [Module gen] with the
    struct's name: the list of its fields, in declaration order.  A field of
    scalar type is a [Leaf] carrying its [serde] attributes ([default],
    [default = "path"], [rename = "key"]); a field whose type is another
    struct is a [Group] naming that struct.  The three default functions of
    lines 105-115 are [white], [black] and [default_layout_threads], whose
    [usize] arithmetic is kept at 64 bits.  [leaves] enumerates the leaf
    fields with their static path, the path the [pref!] and [set_pref!]
    macros name; [pref_key] is the string key of a leaf, its [rename] when
    it has one and its dotted static path otherwise (the comment of lines
    47-48). *)

From S2P Require Import Prelude Float64 Json PrefValue.

(** The declared type of a leaf field: [bool], [i64], [f64], [String] or
    [[f64; n]]. *)
Inductive FieldType : Type :=
| TBool
| TI64
| TF64
| TString
| TF64Array (n : nat).

(** [#[serde(default)]] and [#[serde(default = "path")]]. *)
Inductive SerdeDefault : Type :=
| DefaultTrait
| DefaultPath (path : string).

(** A field of a schema struct. *)
Inductive Node : Type :=
| Leaf (ident : string) (ty : FieldType) (default : option SerdeDefault) (rename : option string)
| Group (ident : string) (struct_name : string) (fields : list Node).

Module gen.

(** [fn default_layout_threads() -> i64], lines 104-107: [num_cpus::get()]
    is the host's CPU count, a [usize]; [* 3] wraps in a release build. *)
Definition default_layout_threads (num_cpus : Z) : Z :=
  usize_as_i64 (Z.max (wrap_usize (num_cpus * 3) / 4) 1).

(** [fn black() -> i64], lines 109-111. *)
Definition black : Z := 0.

(** [fn white() -> i64], lines 113-115. *)
Definition white : Z := 16777215.

(** [struct Display], lines 138-144. *)
Definition Display : list Node :=
  [Leaf "background_color" TI64 (Some (DefaultPath "white")) None;
  Leaf "foreground_color" TI64 (Some (DefaultPath "black")) None].

(** [struct Browser], lines 133-136. *)
Definition Browser : list Node :=
  [Group "display" "Display" Display].

(** [struct Testing], lines 156-160. *)
Definition Testing : list Node :=
  [Leaf "enabled" TBool (Some (DefaultTrait)) None].

(** [struct Animations], lines 151-154. *)
Definition Animations : list Node :=
  [Group "testing" "Testing" Testing].

(** [struct Css], lines 146-149. *)
Definition Css : list Node :=
  [Group "animations" "Animations" Animations].

(** [struct Server], lines 167-171. *)
Definition Server : list Node :=
  [Leaf "enabled" TBool None None;
  Leaf "port" TI64 None None].

(** [struct Devtools], lines 162-165. *)
Definition Devtools : list Node :=
  [Group "server" "Server" Server].

(** [struct Webgpu], lines 208-212. *)
Definition Webgpu : list Node :=
  [Leaf "enabled" TBool None None].

(** [struct BluetoothTesting], lines 220-223. *)
Definition BluetoothTesting : list Node :=
  [Leaf "enabled" TBool None None].

(** [struct Bluetooth], lines 214-218. *)
Definition Bluetooth : list Node :=
  [Leaf "enabled" TBool None None;
  Group "testing" "BluetoothTesting" BluetoothTesting].

(** [struct CanvasCapture], lines 225-228. *)
Definition CanvasCapture : list Node :=
  [Leaf "enabled" TBool None None].

(** [struct CanvasText], lines 230-233. *)
Definition CanvasText : list Node :=
  [Leaf "enabled" TBool None None].

(** [struct CompositionEvent], lines 235-239. *)
Definition CompositionEvent : list Node :=
  [Leaf "enabled" TBool None (Some "dom.compositionevent.enabled")].

(** [struct CustomElements], lines 241-245. *)
Definition CustomElements : list Node :=
  [Leaf "enabled" TBool None (Some "dom.customelements.enabled")].

(** [struct Document], lines 247-251. *)
Definition Document : list Node :=
  [Leaf "dblclick_timeout" TI64 None None;
  Leaf "dblclick_dist" TI64 None None].

(** [struct Forcetouch], lines 253-256. *)
Definition Forcetouch : list Node :=
  [Leaf "enabled" TBool None None].

(** [struct Fullscreen], lines 258-261. *)
Definition Fullscreen : list Node :=
  [Leaf "test" TBool None None].

(** [struct Gamepad], lines 263-266. *)
Definition Gamepad : list Node :=
  [Leaf "enabled" TBool None None].

(** [struct Imagebitmap], lines 268-271. *)
Definition Imagebitmap : list Node :=
  [Leaf "enabled" TBool None None].

(** [struct TestingMicrodata], lines 278-281. *)
Definition TestingMicrodata : list Node :=
  [Leaf "enabled" TBool None None].

(** [struct Microdata], lines 273-276. *)
Definition Microdata : list Node :=
  [Group "testing" "TestingMicrodata" TestingMicrodata].

(** [struct Which], lines 288-292. *)
Definition Which : list Node :=
  [Leaf "enabled" TBool None (Some "dom.mouseevent.which.enabled")].

(** [struct MouseEvent], lines 283-286. *)
Definition MouseEvent : list Node :=
  [Group "which" "Which" Which].

(** [struct MutationObserver], lines 294-297. *)
Definition MutationObserver : list Node :=
  [Leaf "enabled" TBool None None].

(** [struct OffscreenCanvas], lines 299-302. *)
Definition OffscreenCanvas : list Node :=
  [Leaf "enabled" TBool None None].

(** [struct TestingPermissions], lines 310-313. *)
Definition TestingPermissions : list Node :=
  [Leaf "allowed_in_nonsecure_contexts" TBool None None].

(** [struct Permissions], lines 304-308. *)
Definition Permissions : list Node :=
  [Leaf "enabled" TBool None None;
  Group "testing" "TestingPermissions" TestingPermissions].

(** [struct Script], lines 315-318. *)
Definition Script : list Node :=
  [Leaf "asynch" TBool None None].

(** [struct Serviceworker], lines 320-324. *)
Definition Serviceworker : list Node :=
  [Leaf "enabled" TBool None None;
  Leaf "timeout_seconds" TI64 None None].

(** [struct ServoHelpers], lines 326-329. *)
Definition ServoHelpers : list Node :=
  [Leaf "enabled" TBool None None].

(** [struct AsyncHtmlTokenizer], lines 336-339. *)
Definition AsyncHtmlTokenizer : list Node :=
  [Leaf "enabled" TBool None None].

(** [struct Servoparser], lines 331-334. *)
Definition Servoparser : list Node :=
  [Group "async_html_tokenizer" "AsyncHtmlTokenizer" AsyncHtmlTokenizer].

(** [struct Shadowdom], lines 341-344. *)
Definition Shadowdom : list Node :=
  [Leaf "enabled" TBool None None].

(** [struct Svg], lines 346-349. *)
Definition Svg : list Node :=
  [Leaf "enabled" TBool None None].

(** [struct TestableCrash], lines 351-354. *)
Definition TestableCrash : list Node :=
  [Leaf "enabled" TBool None None].

(** [struct Prefcontrolled], lines 364-368. *)
Definition Prefcontrolled : list Node :=
  [Leaf "enabled" TBool (Some (DefaultTrait)) None].

(** [struct Prefcontrolled2], lines 370-374. *)
Definition Prefcontrolled2 : list Node :=
  [Leaf "enabled" TBool (Some (DefaultTrait)) None].

(** [struct PreferenceValue], lines 376-390. *)
Definition PreferenceValue : list Node :=
  [Leaf "falsy" TBool (Some (DefaultTrait)) None;
  Leaf "quote_string_test" TString (Some (DefaultTrait)) None;
  Leaf "space_string_test" TString (Some (DefaultTrait)) None;
  Leaf "string_empty" TString (Some (DefaultTrait)) None;
  Leaf "string_test" TString (Some (DefaultTrait)) None;
  Leaf "truthy" TBool (Some (DefaultTrait)) None].

(** [struct Testbinding], lines 356-362. *)
Definition Testbinding : list Node :=
  [Leaf "enabled" TBool None None;
  Group "prefcontrolled" "Prefcontrolled" Prefcontrolled;
  Group "prefcontrolled2" "Prefcontrolled2" Prefcontrolled2;
  Group "preference_value" "PreferenceValue" PreferenceValue].

(** [struct Activation], lines 403-407. *)
Definition Activation : list Node :=
  [Leaf "enabled" TBool (Some (DefaultTrait)) None].

(** [struct Element], lines 398-401. *)
Definition Element : list Node :=
  [Group "activation" "Activation" Activation].

(** [struct SelectFiles], lines 414-418. *)
Definition SelectFiles : list Node :=
  [Leaf "enabled" TBool None (Some "dom.testing.htmlinputelement.select_files.enabled")].

(** [struct HtmlInputElement], lines 409-412. *)
Definition HtmlInputElement : list Node :=
  [Group "select_files" "SelectFiles" SelectFiles].

(** [struct TestingDom], lines 392-396. *)
Definition TestingDom : list Node :=
  [Group "element" "Element" Element;
  Group "html_input_element" "HtmlInputElement" HtmlInputElement].

(** [struct Testperf], lines 420-424. *)
Definition Testperf : list Node :=
  [Leaf "enabled" TBool (Some (DefaultTrait)) None].

(** [struct Webgl2], lines 426-430. *)
Definition Webgl2 : list Node :=
  [Leaf "enabled" TBool None None].

(** [struct Transceiver], lines 439-442. *)
Definition Transceiver : list Node :=
  [Leaf "enabled" TBool None None].

(** [struct Webrtc], lines 432-437. *)
Definition Webrtc : list Node :=
  [Group "transceiver" "Transceiver" Transceiver;
  Leaf "enabled" TBool (Some (DefaultTrait)) None].

(** [struct Webvtt], lines 444-447. *)
Definition Webvtt : list Node :=
  [Leaf "enabled" TBool None None].

(** [struct Glwindow], lines 464-474. *)
Definition Glwindow : list Node :=
  [Leaf "enabled" TBool (Some (DefaultTrait)) None;
  Leaf "left_right" TBool None (Some "dom.webxr.glwindow.left-right");
  Leaf "red_cyan" TBool None (Some "dom.webxr.glwindow.red-cyan");
  Leaf "spherical" TBool None None;
  Leaf "cubemap" TBool None None].

(** [struct Hands], lines 476-480. *)
Definition Hands : list Node :=
  [Leaf "enabled" TBool (Some (DefaultTrait)) None].

(** [struct Layers], lines 482-485. *)
Definition Layers : list Node :=
  [Leaf "enabled" TBool None None].

(** [struct Webxr], lines 449-462. *)
Definition Webxr : list Node :=
  [Leaf "enabled" TBool (Some (DefaultTrait)) None;
  Leaf "test" TBool (Some (DefaultTrait)) None;
  Leaf "first_person_observer_view" TBool None None;
  Group "glwindow" "Glwindow" Glwindow;
  Group "hands" "Hands" Hands;
  Group "layers" "Layers" Layers;
  Leaf "sessionavailable" TBool None None;
  Leaf "unsafe_assume_user_intent" TBool None (Some "dom.webxr.unsafe-assume-user-intent")].

(** [struct Blockingsleep], lines 496-500. *)
Definition Blockingsleep : list Node :=
  [Leaf "enabled" TBool (Some (DefaultTrait)) None].

(** [struct TestingWorklet], lines 502-506. *)
Definition TestingWorklet : list Node :=
  [Leaf "enabled" TBool (Some (DefaultTrait)) None].

(** [struct Worklet], lines 487-494. *)
Definition Worklet : list Node :=
  [Group "blockingsleep" "Blockingsleep" Blockingsleep;
  Leaf "enabled" TBool (Some (DefaultTrait)) None;
  Group "testing" "TestingWorklet" TestingWorklet;
  Leaf "timeout_ms" TI64 None None].

(** [struct Dom], lines 173-206. *)
Definition Dom : list Node :=
  [Group "webgpu" "Webgpu" Webgpu;
  Group "bluetooth" "Bluetooth" Bluetooth;
  Group "canvas_capture" "CanvasCapture" CanvasCapture;
  Group "canvas_text" "CanvasText" CanvasText;
  Group "composition_event" "CompositionEvent" CompositionEvent;
  Group "custom_elements" "CustomElements" CustomElements;
  Group "document" "Document" Document;
  Group "forcetouch" "Forcetouch" Forcetouch;
  Group "fullscreen" "Fullscreen" Fullscreen;
  Group "gamepad" "Gamepad" Gamepad;
  Group "imagebitmap" "Imagebitmap" Imagebitmap;
  Group "microdata" "Microdata" Microdata;
  Group "mouse_event" "MouseEvent" MouseEvent;
  Group "mutation_observer" "MutationObserver" MutationObserver;
  Group "offscreen_canvas" "OffscreenCanvas" OffscreenCanvas;
  Group "permissions" "Permissions" Permissions;
  Group "script" "Script" Script;
  Group "serviceworker" "Serviceworker" Serviceworker;
  Group "servo_helpers" "ServoHelpers" ServoHelpers;
  Group "servoparser" "Servoparser" Servoparser;
  Group "shadowdom" "Shadowdom" Shadowdom;
  Group "svg" "Svg" Svg;
  Group "testable_crash" "TestableCrash" TestableCrash;
  Group "testbinding" "Testbinding" Testbinding;
  Group "testing" "TestingDom" TestingDom;
  Group "testperf" "Testperf" Testperf;
  Group "webgl2" "Webgl2" Webgl2;
  Group "webrtc" "Webrtc" Webrtc;
  Group "webvtt" "Webvtt" Webvtt;
  Group "webxr" "Webxr" Webxr;
  Group "worklet" "Worklet" Worklet].

(** [struct SubpixelTextAntialiasing], lines 514-518. *)
Definition SubpixelTextAntialiasing : list Node :=
  [Leaf "enabled" TBool None (Some "gfx.subpixel-text-antialiasing.enabled")].

(** [struct TextureSwizzling], lines 520-524. *)
Definition TextureSwizzling : list Node :=
  [Leaf "enabled" TBool None (Some "gfx.texture-swizzling.enabled")].

(** [struct Gfx], lines 508-512. *)
Definition Gfx : list Node :=
  [Group "subpixel_text_antialiasing" "SubpixelTextAntialiasing" SubpixelTextAntialiasing;
  Group "texture_swizzling" "TextureSwizzling" TextureSwizzling].

(** [struct Asmjs], lines 547-550. *)
Definition Asmjs : list Node :=
  [Leaf "enabled" TBool None None].

(** [struct Asyncstack], lines 552-555. *)
Definition Asyncstack : list Node :=
  [Leaf "enabled" TBool None None].

(** [struct UnsafeEagerCompilation], lines 563-566. *)
Definition UnsafeEagerCompilation : list Node :=
  [Leaf "enabled" TBool None None].

(** [struct Baseline], lines 557-561. *)
Definition Baseline : list Node :=
  [Leaf "enabled" TBool None None;
  Group "unsafe_eager_compilation" "UnsafeEagerCompilation" UnsafeEagerCompilation].

(** [struct DiscardSystemSource], lines 568-571. *)
Definition DiscardSystemSource : list Node :=
  [Leaf "enabled" TBool None None].

(** [struct DumpStackOnDebuggeeWouldRun], lines 573-576. *)
Definition DumpStackOnDebuggeeWouldRun : list Node :=
  [Leaf "enabled" TBool None None].

(** [struct OffthreadCompilationIon], lines 585-588. *)
Definition OffthreadCompilationIon : list Node :=
  [Leaf "enabled" TBool None None].

(** [struct UnsafeEagerCompilationIon], lines 590-593. *)
Definition UnsafeEagerCompilationIon : list Node :=
  [Leaf "enabled" TBool None None].

(** [struct Ion], lines 578-583. *)
Definition Ion : list Node :=
  [Leaf "enabled" TBool None None;
  Group "offthread_compilation" "OffthreadCompilationIon" OffthreadCompilationIon;
  Group "unsafe_eager_compilation" "UnsafeEagerCompilationIon" UnsafeEagerCompilationIon].

(** [struct Compacting], lines 623-626. *)
Definition Compacting : list Node :=
  [Leaf "enabled" TBool None None].

(** [struct DynamicHeapGrowth], lines 628-631. *)
Definition DynamicHeapGrowth : list Node :=
  [Leaf "enabled" TBool None None].

(** [struct DynamicMarkSlice], lines 633-636. *)
Definition DynamicMarkSlice : list Node :=
  [Leaf "enabled" TBool None None].

(** [struct Incremental], lines 638-642. *)
Definition Incremental : list Node :=
  [Leaf "enabled" TBool None None;
  Leaf "slice_ms" TI64 None None].

(** [struct PerZone], lines 644-647. *)
Definition PerZone : list Node :=
  [Leaf "enabled" TBool None None].

(** [struct Zeal], lines 649-653. *)
Definition Zeal : list Node :=
  [Leaf "frequency" TI64 None None;
  Leaf "level" TI64 None None].

(** [struct Gc], lines 601-621. *)
Definition Gc : list Node :=
  [Leaf "allocation_threshold_mb" TI64 None None;
  Leaf "allocation_threshold_factor" TI64 None None;
  Leaf "allocation_threshold_avoid_interrupt_factor" TI64 None None;
  Group "compacting" "Compacting" Compacting;
  Leaf "decommit_threshold_mb" TI64 None None;
  Group "dynamic_heap_growth" "DynamicHeapGrowth" DynamicHeapGrowth;
  Group "dynamic_mark_slice" "DynamicMarkSlice" DynamicMarkSlice;
  Leaf "empty_chunk_count_max" TI64 None None;
  Leaf "empty_chunk_count_min" TI64 None None;
  Leaf "high_frequency_heap_growth_max" TI64 None None;
  Leaf "high_frequency_heap_growth_min" TI64 None None;
  Leaf "high_frequency_high_limit_mb" TI64 None None;
  Leaf "high_frequency_low_limit_mb" TI64 None None;
  Leaf "high_frequency_time_limit_ms" TI64 None None;
  Group "incremental" "Incremental" Incremental;
  Leaf "low_frequency_heap_growth" TI64 None None;
  Group "per_zone" "PerZone" PerZone;
  Group "zeal" "Zeal" Zeal].

(** [struct Mem], lines 595-599. *)
Definition Mem : list Node :=
  [Group "gc" "Gc" Gc;
  Leaf "max" TI64 None None].

(** [struct NativeRegex], lines 655-658. *)
Definition NativeRegex : list Node :=
  [Leaf "enabled" TBool None None].

(** [struct OffthreadCompilation], lines 660-663. *)
Definition OffthreadCompilation : list Node :=
  [Leaf "enabled" TBool None None].

(** [struct ParallelParsing], lines 665-668. *)
Definition ParallelParsing : list Node :=
  [Leaf "enabled" TBool None None].

(** [struct SharedMemory], lines 670-673. *)
Definition SharedMemory : list Node :=
  [Leaf "enabled" TBool None None].

(** [struct Debug], lines 681-684. *)
Definition Debug : list Node :=
  [Leaf "enabled" TBool None None].

(** [struct Strict], lines 675-679. *)
Definition Strict : list Node :=
  [Group "debug" "Debug" Debug;
  Leaf "enabled" TBool None None].

(** [struct ThrowOnAsmjsValidationFailure], lines 686-689. *)
Definition ThrowOnAsmjsValidationFailure : list Node :=
  [Leaf "enabled" TBool None None].

(** [struct ThrowOnDebuggeeWouldRun], lines 691-694. *)
Definition ThrowOnDebuggeeWouldRun : list Node :=
  [Leaf "enabled" TBool None None].

(** [struct Timers], lines 696-699. *)
Definition Timers : list Node :=
  [Leaf "minimum_duration" TI64 None None].

(** [struct BaselineWasm], lines 708-711. *)
Definition BaselineWasm : list Node :=
  [Leaf "enabled" TBool None None].

(** [struct IonWasm], lines 713-716. *)
Definition IonWasm : list Node :=
  [Leaf "enabled" TBool None None].

(** [struct Wasm], lines 701-706. *)
Definition Wasm : list Node :=
  [Group "baseline" "BaselineWasm" BaselineWasm;
  Leaf "enabled" TBool None None;
  Group "ion" "IonWasm" IonWasm].

(** [struct Werror], lines 718-721. *)
Definition Werror : list Node :=
  [Leaf "enabled" TBool None None].

(** [struct Js], lines 526-545. *)
Definition Js : list Node :=
  [Group "asmjs" "Asmjs" Asmjs;
  Group "asyncstack" "Asyncstack" Asyncstack;
  Group "baseline" "Baseline" Baseline;
  Group "discard_system_source" "DiscardSystemSource" DiscardSystemSource;
  Group "dump_stack_on_debuggee_would_run" "DumpStackOnDebuggeeWouldRun" DumpStackOnDebuggeeWouldRun;
  Group "ion" "Ion" Ion;
  Group "mem" "Mem" Mem;
  Group "native_regex" "NativeRegex" NativeRegex;
  Group "offthread_compilation" "OffthreadCompilation" OffthreadCompilation;
  Group "parallel_parsing" "ParallelParsing" ParallelParsing;
  Group "shared_memory" "SharedMemory" SharedMemory;
  Group "strict" "Strict" Strict;
  Group "throw_on_asmjs_validation_failure" "ThrowOnAsmjsValidationFailure" ThrowOnAsmjsValidationFailure;
  Group "throw_on_debuggee_would_run" "ThrowOnDebuggeeWouldRun" ThrowOnDebuggeeWouldRun;
  Group "timers" "Timers" Timers;
  Group "wasm" "Wasm" Wasm;
  Group "werror" "Werror" Werror].

(** [struct Test], lines 739-742. *)
Definition Test : list Node :=
  [Leaf "enabled" TBool None None].

(** [struct AnimationsLayout], lines 734-737. *)
Definition AnimationsLayout : list Node :=
  [Group "test" "Test" Test].

(** [struct Columns], lines 744-747. *)
Definition Columns : list Node :=
  [Leaf "enabled" TBool None None].

(** [struct Flexbox], lines 749-752. *)
Definition Flexbox : list Node :=
  [Leaf "enabled" TBool None None].

(** [struct WritingMode], lines 754-758. *)
Definition WritingMode : list Node :=
  [Leaf "enabled" TBool None (Some "layout.writing-mode.enabled")].

(** [struct Layout], lines 723-732. *)
Definition Layout : list Node :=
  [Group "animations" "AnimationsLayout" AnimationsLayout;
  Group "columns" "Columns" Columns;
  Group "flexbox" "Flexbox" Flexbox;
  Leaf "legacy_layout" TBool None None;
  Leaf "threads" TI64 (Some (DefaultPath "default_layout_threads")) None;
  Group "writing_mode" "WritingMode" WritingMode].

(** [struct Glvideo], lines 766-769. *)
Definition Glvideo : list Node :=
  [Leaf "enabled" TBool None None].

(** [struct TestingMedia], lines 771-774. *)
Definition TestingMedia : list Node :=
  [Leaf "enabled" TBool None None].

(** [struct Media], lines 760-764. *)
Definition Media : list Node :=
  [Group "glvideo" "Glvideo" Glvideo;
  Group "testing" "TestingMedia" TestingMedia].

(** [struct EnforceTls], lines 783-788. *)
Definition EnforceTls : list Node :=
  [Leaf "enabled" TBool None None;
  Leaf "localhost" TBool None None;
  Leaf "onion" TBool None None].

(** [struct HttpCache], lines 790-794. *)
Definition HttpCache : list Node :=
  [Leaf "disabled" TBool None (Some "network.http-cache.disabled")].

(** [struct Mime], lines 796-799. *)
Definition Mime : list Node :=
  [Leaf "sniff" TBool None None].

(** [struct Network], lines 776-781. *)
Definition Network : list Node :=
  [Group "enforce_tls" "EnforceTls" EnforceTls;
  Group "http_cache" "HttpCache" HttpCache;
  Group "mime" "Mime" Mime].

(** [struct SessionHistory], lines 801-805. *)
Definition SessionHistory : list Node :=
  [Leaf "max_length" TI64 None (Some "session-history.max-length")].

(** [struct BackgroundColor], lines 820-825. *)
Definition BackgroundColor : list Node :=
  [Leaf "rgba" (TF64Array 4) None (Some "shell.background-color.rgba")].

(** [struct CrashReporter], lines 827-830. *)
Definition CrashReporter : list Node :=
  [Leaf "enabled" TBool None None].

(** [struct KeepScreenOn], lines 832-835. *)
Definition KeepScreenOn : list Node :=
  [Leaf "enabled" TBool None None].

(** [struct NativeTitlebar], lines 837-842. *)
Definition NativeTitlebar : list Node :=
  [Leaf "enabled" TBool None (Some "shell.native-titlebar.enabled")].

(** [struct Shell], lines 807-818. *)
Definition Shell : list Node :=
  [Group "background_color" "BackgroundColor" BackgroundColor;
  Group "crash_reporter" "CrashReporter" CrashReporter;
  Leaf "homepage" TString None None;
  Group "keep_screen_on" "KeepScreenOn" KeepScreenOn;
  Leaf "native_orientation" TString None (Some "shell.native-orientation");
  Group "native_titlebar" "NativeTitlebar" NativeTitlebar;
  Leaf "searchpage" TString None None].

(** [struct TestingWebgl], lines 849-852. *)
Definition TestingWebgl : list Node :=
  [Leaf "context_creation_error" TBool None None].

(** [struct Webgl], lines 844-847. *)
Definition Webgl : list Node :=
  [Group "testing" "TestingWebgl" TestingWebgl].

(** [struct Pref], the root of the schema, lines 117-131. *)
Definition Pref : list Node :=
  [Group "browser" "Browser" Browser;
  Group "css" "Css" Css;
  Group "devtools" "Devtools" Devtools;
  Group "dom" "Dom" Dom;
  Group "gfx" "Gfx" Gfx;
  Group "js" "Js" Js;
  Group "layout" "Layout" Layout;
  Group "media" "Media" Media;
  Group "network" "Network" Network;
  Group "session_history" "SessionHistory" SessionHistory;
  Group "shell" "Shell" Shell;
  Group "webgl" "Webgl" Webgl].

End gen.

(** ** Leaf fields, static paths and keys *)

(** A leaf field of the schema, reached from [Pref] by [leaf_path]. *)
Record LeafInfo : Type := {
  leaf_path : list string;
  leaf_ty : FieldType;
  leaf_default : option SerdeDefault;
  leaf_rename : option string;
}.

(** The leaves under a field, in declaration order, below [prefix]. *)
Fixpoint leaves_of (prefix : list string) (n : Node) : list LeafInfo :=
  match n with
  | Leaf id ty d r =>
      [{| leaf_path := prefix ++ [id]; leaf_ty := ty; leaf_default := d; leaf_rename := r |}]
  | Group id _ fs =>
      (fix go (fs : list Node) : list LeafInfo :=
         match fs with
         | [] => []
         | f :: fs => leaves_of (prefix ++ [id]) f ++ go fs
         end) fs
  end.

Definition leaves (fields : list Node) : list LeafInfo := concat (map (leaves_of []) fields).

(** The static path [$($segment).+] of the macros, written with dots. *)
Definition static_path (l : LeafInfo) : string := String.concat "." (leaf_path l).

(** The string key of a leaf: its [rename], or its dotted static path. *)
Definition pref_key (l : LeafInfo) : string :=
  match leaf_rename l with
  | Some r => r
  | None => static_path l
  end.

(** Every leaf field of the schema. *)
Definition schema_leaves : list LeafInfo := leaves gen.Pref.

(** The function a [default = "path"] attribute names, given the host's
    CPU count (the only input any of them reads). *)
Definition default_fn (num_cpus : Z) (path : string) : option Z :=
  if String.eqb path "white" then Some gen.white
  else if String.eqb path "black" then Some gen.black
  else if String.eqb path "default_layout_threads" then Some (gen.default_layout_threads num_cpus)
  else None.

(** The shape test of the generated setters ([From<PrefValue>] for the
    field's Rust type): the variant must match the declared type, and an
    [[f64; n]] takes an array of exactly [n] floats. *)
Definition shape_matches (ty : FieldType) (v : PrefValue.t) : bool :=
  match ty, v with
  | TBool, PrefValue.Bool _ => true
  | TI64, PrefValue.Int _ => true
  | TF64, PrefValue.Float _ => true
  | TString, PrefValue.Str _ => true
  | TF64Array n, PrefValue.Array vs =>
      (length vs =? n)%nat &&
      forallb (λ x, match x with PrefValue.Float _ => true | _ => false end) vs
  | _, _ => false
  end.

(** [Default::default()] for a field type: what [#[serde(default)]] puts
    in an absent field. *)
Definition rust_default (ty : FieldType) : PrefValue.t :=
  match ty with
  | TBool => PrefValue.Bool false
  | TI64 => PrefValue.Int 0
  | TF64 => PrefValue.Float 0
  | TString => PrefValue.Str ""
  | TF64Array n => PrefValue.Array (replicate n (PrefValue.Float 0))
  end.

#[global] Instance FieldType_eq_dec : EqDecision FieldType.
Proof. solve_decision. Defined.
#[global] Instance SerdeDefault_eq_dec : EqDecision SerdeDefault.
Proof. solve_decision. Defined.
#[global] Instance LeafInfo_eq_dec : EqDecision LeafInfo.
Proof.
  intros [p t d r] [p' t' d' r'].
  destruct (decide (p = p')), (decide (t = t')), (decide (d = d')), (decide (r = r'));
    subst; [left; reflexivity|right; congruence..].
Defined.

(** ** Properties of the schema *)

(** The string keys of the schema's leaves are pairwise distinct: no
    [rename] collides with another leaf's key (spec 3 and 4.2: a duplicate
    key is a defect of the schema). *)
Lemma pref_keys_NoDup : NoDup (map pref_key schema_leaves).
Proof. decide_by_eval. Qed.

(** Distinct leaves are distinct fields: their static paths differ. *)
Lemma static_paths_unique : NoDup (map static_path schema_leaves).
Proof. decide_by_eval. Qed.

(** Distinct leaves have distinct paths of segments. *)
Lemma leaf_paths_unique : NoDup (map leaf_path schema_leaves).
Proof. decide_by_eval. Qed.

(** C7. On any host with between 1 and [2^62] CPUs the [usize] arithmetic
    of [default_layout_threads] does not wrap: it returns [max(3n/4, 1)],
    which is at least one thread and at most one per CPU. *)
Theorem default_layout_threads_bounds n :
  1 <= n <= 2 ^ 62 ->
  gen.default_layout_threads n = Z.max (n * 3 / 4) 1 /\
  1 <= gen.default_layout_threads n <= n.
Proof.
  intros Hn. unfold gen.default_layout_threads, usize_as_i64, wrap_usize, usize_bits.
  rewrite Z.mod_small by lia.
  assert (0 <= n * 3 / 4 <= n) by (split; [apply Z.div_pos|apply Z.div_le_upper_bound]; lia).
  rewrite (proj2 (Z.leb_le _ _)) by (unfold i64_max; lia). lia.
Qed.

(** C33. Past that range the release build's [usize] arithmetic wraps:
    when [num_cpus::get() * 3] exceeds [usize::MAX], the product is taken
    modulo [2^64], and the thread count is [max((3n mod 2^64)/4, 1)],
    strictly fewer than the [3n/4] the comment of line 104 intends.  (A
    debug build panics on the overflow instead.) *)
Theorem default_layout_threads_wraps n :
  0 <= n < 2 ^ 64 -> 2 ^ 64 <= n * 3 ->
  gen.default_layout_threads n = Z.max ((n * 3) mod 2 ^ 64 / 4) 1 /\
  gen.default_layout_threads n < n * 3 / 4.
Proof.
  intros Hn Ho. unfold gen.default_layout_threads, usize_as_i64, wrap_usize, usize_bits.
  assert (Hm : 0 <= (n * 3) mod 2 ^ 64 <= n * 3 - 2 ^ 64).
  { assert (1 <= n * 3 / 2 ^ 64) by (apply Z.div_le_lower_bound; lia).
    pose proof (Z.mod_pos_bound (n * 3) (2 ^ 64) ltac:(lia)). rewrite Z.mod_eq in * by lia. nia. }
  pose proof (Z.mod_pos_bound (n * 3) (2 ^ 64) ltac:(lia)) as Hb.
  assert (E : 2 ^ 64 = 4 * 2 ^ 62) by reflexivity.
  assert (Hq : 0 <= (n * 3) mod 2 ^ 64 / 4 < 2 ^ 62)
    by (split; [apply Z.div_pos|apply Z.div_lt_upper_bound]; lia).
  rewrite (proj2 (Z.leb_le _ _)) by (unfold i64_max; lia). split; [done|].
  revert Hm Hq. generalize ((n * 3) mod 2 ^ 64). intros m Hm Hq.
  Z.div_mod_to_equations. lia.
Qed.

Lemma default_layout_threads_wraps_witness :
  gen.default_layout_threads (2 ^ 63) = 2 ^ 61 /\ gen.default_layout_threads (2 ^ 63) < 2 ^ 63 * 3 / 4.
Proof.
  split; [vm_compute; reflexivity|].
  apply (proj2 (default_layout_threads_wraps (2 ^ 63) ltac:(lia) ltac:(lia))).
Defined.

Lemma default_layout_threads_bounds_witness :
  1 <= 8 <= 2 ^ 62 /\ gen.default_layout_threads 8 = 6 /\ 1 <= gen.default_layout_threads 8 <= 8.
Proof.
  split; [lia|]. split; [reflexivity|].
  apply (proj2 (default_layout_threads_bounds 8 ltac:(lia))).
Defined.
