(* ===== verification/Store.v ===== *)
(** * The preference store: [pref_util::Preferences] and its accessor table

    The instance of [Prefs] is the value of every leaf field, indexed by the
    field's static path.  The accessor table [PREF_ACCESSORS], generated by
    [build_structs] from the schema, maps each string key to a getter and a
    setter for its leaf; the setter rejects a value of the wrong shape.  The
    store [Preferences] holds the instance and the table and offers [get],
    [set] and [set_all] (spec 4.2, 4.3; [pref_util.rs] is not under [src/]).
    The macros [pref!] and [set_pref!] (prefs.rs 27-45) read and write the
    same instance through a static path checked at compile time.

    The store's contract is the typeclass [PrefStore] with its laws
    [PrefStoreLaws]: the bulk applier ([BulkApply]) is proved against the
    laws, and [Preferences] is shown to satisfy them. *)

From S2P Require Import Prelude Float64 Json PrefValue StoreSpec Schema.

(** The [Prefs] instance: each leaf's value under its static path. *)
Abbreviation Prefs := (gmap string PrefValue.t).

(** [pref_util::Accessor]: a getter and a setter for one leaf. *)
Record Accessor : Type := {
  getter : Prefs -> PrefValue.t;
  setter : Prefs -> PrefValue.t -> Result Prefs PrefValue.t;
}.

(** The closures [build_structs] generates for a leaf: [getter] clones the
    field into a [PrefValue]; [setter] converts the value to the field's type
    and assigns it, and gives the value back when its shape is wrong. *)
Definition accessor (l : LeafInfo) : Accessor := {|
  getter := λ p, p !!! static_path l;
  setter := λ p v,
    if shape_matches (leaf_ty l) v then Ok (<[static_path l := v]> p) else Err v;
|}.

(** [gen::PREF_ACCESSORS] *)
Definition PREF_ACCESSORS : gmap string Accessor :=
  list_to_map (map (λ l, (pref_key l, accessor l)) schema_leaves).

(** [pref_util::Preferences<'static, Prefs>]; the [RwLock] around
    [user_prefs] is the subject of [Concurrency]. *)
Record Preferences : Type := {
  user_prefs : Prefs;
  accessors : gmap string Accessor;
}.

(** [Preferences::new] *)
Definition new (def_prefs : Prefs) (accessors : gmap string Accessor) : Preferences :=
  {| user_prefs := def_prefs; accessors := accessors |}.

(** [Preferences::get]: a snapshot of the field under the key. *)
Definition get (p : Preferences) (key : string) : Result PrefValue.t PrefError :=
  match accessors p !! key with
  | Some accessor => Ok (getter accessor (user_prefs p))
  | None => Err (NoSuchPref key)
  end.

(** [Preferences::set]: the field is assigned under the write guard; a
    value of the wrong shape leaves the instance as it was. *)
Definition set (p : Preferences) (key : string) (value : PrefValue.t) :
    Result Preferences PrefError :=
  match accessors p !! key with
  | Some accessor =>
      match setter accessor (user_prefs p) value with
      | Ok prefs => Ok {| user_prefs := prefs; accessors := accessors p |}
      | Err v => Err (TypeMismatch key v)
      end
  | None => Err (NoSuchPref key)
  end.

(** ** The static path macros *)

(** The leaf a static path names, if the schema has one: the compile-time
    check of [$($segment).+]. *)
Definition leaf_at (path : list string) : option LeafInfo :=
  List.find (λ l, bool_decide (leaf_path l = path)) schema_leaves.

(** [pref!($($segment).+)]: [None] is a compile error. *)
Definition pref (p : Preferences) (path : list string) : option PrefValue.t :=
  l ← leaf_at path; Some (user_prefs p !!! static_path l).

(** [set_pref!($($segment).+, $value)]: the value must have the field's
    Rust type, or the assignment does not compile. *)
Definition set_pref (p : Preferences) (path : list string) (value : PrefValue.t) :
    option Preferences :=
  l ← leaf_at path;
  if shape_matches (leaf_ty l) value
  then Some {| user_prefs := <[static_path l := value]> (user_prefs p); accessors := accessors p |}
  else None.

(** ** The accessor table *)

(** The leaf a string key names. *)
Definition key_leaf (key : string) : option LeafInfo :=
  List.find (λ l, String.eqb (pref_key l) key) schema_leaves.

Lemma find_elem_of {A} (p : A -> bool) l x : List.find p l = Some x -> x ∈ l /\ p x = true.
Proof.
  intros H. split; [apply list_elem_of_In; by eapply find_some|by eapply find_some].
Qed.

Lemma key_leaf_Some key l :
  key_leaf key = Some l <-> l ∈ schema_leaves /\ pref_key l = key.
Proof.
  split.
  - intros [Hl Hk]%find_elem_of. by apply String.eqb_eq in Hk.
  - intros [Hl Hk]. destruct (key_leaf key) as [l'|] eqn:E.
    + apply find_elem_of in E as [Hl' Hk'%String.eqb_eq]. f_equal.
      apply (NoDup_map_inj_on pref_key schema_leaves); [apply pref_keys_NoDup|done|done|congruence].
    + exfalso. apply list_elem_of_In, (find_none _ _ E), String.eqb_neq in Hl.
      congruence.
Qed.

Lemma map_fst_pairs {A B C} (f : A -> B) (g : A -> C) l :
  (map (λ x, (f x, g x)) l).*1 = map f l.
Proof. induction l as [|x l IH]; simpl; [done|]. by f_equal. Qed.

(** The table holds, under each key, the accessor of the leaf it names. *)
Lemma PREF_ACCESSORS_lookup key : PREF_ACCESSORS !! key = accessor <$> key_leaf key.
Proof.
  apply option_eq. intros a. unfold PREF_ACCESSORS.
  rewrite <-elem_of_list_to_map by (rewrite map_fst_pairs; apply pref_keys_NoDup).
  rewrite list_elem_of_In, in_map_iff. split.
  - intros (l&[= <- <-]&Hl). rewrite (proj2 (key_leaf_Some _ l)); [done|].
    split; [exact (proj2 (list_elem_of_In _ _) Hl)|done].
  - destruct (key_leaf key) as [l|] eqn:E; simpl; [|done]. intros [= <-].
    apply key_leaf_Some in E as [Hl <-]. exists l.
    split; [done|exact (proj1 (list_elem_of_In _ _) Hl)].
Qed.

(** ** The well-typedness invariant *)

(** The instance has exactly the schema's fields, each holding a value of
    its declared shape: what the Rust type [Prefs] guarantees statically. *)
Definition prefs_wf (up : Prefs) : Prop :=
  (∀ l, l ∈ schema_leaves ->
        exists v, up !! static_path l = Some v /\ shape_matches (leaf_ty l) v = true) /\
  (∀ path v, up !! path = Some v -> exists l, l ∈ schema_leaves /\ static_path l = path).

(** The store's table is the generated one and its instance is well typed. *)
Definition store_wf (p : Preferences) : Prop :=
  accessors p = PREF_ACCESSORS /\ prefs_wf (user_prefs p).

(** [get] and [set] on the generated table, branch by branch. *)
Lemma get_eq p key :
  accessors p = PREF_ACCESSORS ->
  get p key = match key_leaf key with
              | Some l => Ok (user_prefs p !!! static_path l)
              | None => Err (NoSuchPref key)
              end.
Proof.
  intros Ha. unfold get. rewrite Ha, PREF_ACCESSORS_lookup.
  by destruct (key_leaf key).
Qed.

Lemma set_eq p key value :
  accessors p = PREF_ACCESSORS ->
  set p key value =
  match key_leaf key with
  | Some l =>
      if shape_matches (leaf_ty l) value
      then Ok {| user_prefs := <[static_path l := value]> (user_prefs p); accessors := accessors p |}
      else Err (TypeMismatch key value)
  | None => Err (NoSuchPref key)
  end.
Proof.
  intros Ha. unfold set. rewrite Ha, PREF_ACCESSORS_lookup.
  destruct (key_leaf key) as [l|]; simpl; [|done].
  by destruct (shape_matches (leaf_ty l) value).
Qed.

(** Distinct keys of the table name fields with distinct static paths. *)
Lemma key_leaf_static_path_ne k k' l l' :
  key_leaf k = Some l -> key_leaf k' = Some l' -> k <> k' -> static_path l <> static_path l'.
Proof.
  intros [Hl <-]%key_leaf_Some [Hl' <-]%key_leaf_Some Hne Hp. apply Hne.
  f_equal. by apply (NoDup_map_inj_on static_path schema_leaves _ _ static_paths_unique).
Qed.

(** A successful [set] names a leaf of the schema, the value has the
    leaf's shape, and the field alone is assigned. *)
Lemma set_Ok_inv p key value p' :
  accessors p = PREF_ACCESSORS -> set p key value = Ok p' ->
  exists l, key_leaf key = Some l /\ l ∈ schema_leaves /\ shape_matches (leaf_ty l) value = true /\
    p' = {| user_prefs := <[static_path l := value]> (user_prefs p); accessors := accessors p |}.
Proof.
  intros Ha. rewrite set_eq by done.
  destruct (key_leaf key) as [l|] eqn:Hk; [|done].
  destruct (shape_matches (leaf_ty l) value) eqn:Hv; [|done]. intros [= <-].
  exists l. apply key_leaf_Some in Hk as Hl'. naive_solver.
Qed.

(** A [set_pref!] that compiles names a leaf, and the value has its type. *)
Lemma set_pref_Some_inv p path value p' :
  set_pref p path value = Some p' ->
  exists l, leaf_at path = Some l /\ l ∈ schema_leaves /\ shape_matches (leaf_ty l) value = true /\
    p' = {| user_prefs := <[static_path l := value]> (user_prefs p); accessors := accessors p |}.
Proof.
  unfold set_pref. destruct (leaf_at path) as [l|] eqn:Hl; simpl; [|done].
  destruct (shape_matches (leaf_ty l) value) eqn:Hv; [|done]. intros [= <-].
  exists l. apply find_elem_of in Hl as [Hin _]. auto.
Qed.

(** Neither [set] nor [set_pref!] changes the accessor table. *)
Lemma set_accessors m key v m' : set m key v = Ok m' -> accessors m' = accessors m.
Proof. unfold set. repeat case_match; by intros [= <-]. Qed.

Lemma set_pref_accessors m p v m' : set_pref m p v = Some m' -> accessors m' = accessors m.
Proof. by intros (l&_&_&_&->)%set_pref_Some_inv. Qed.

(** After the field of a key is assigned, [get] of the key reads the value. *)
Lemma get_assign_eq p key l value :
  accessors p = PREF_ACCESSORS -> key_leaf key = Some l ->
  get {| user_prefs := <[static_path l := value]> (user_prefs p); accessors := accessors p |} key =
  Ok value.
Proof. intros Ha Hk. rewrite get_eq, Hk by (cbn; done). simpl. by rewrite lookup_total_insert_eq. Qed.

(** Setting a key again to the value it was just set to changes nothing. *)
Lemma set_Ok_idem p key value p' :
  accessors p = PREF_ACCESSORS -> set p key value = Ok p' -> set p' key value = Ok p'.
Proof.
  intros Ha Hs. destruct (set_Ok_inv p key value p' Ha Hs) as (l&Hk&_&Hv&->).
  rewrite set_eq, Hk, Hv by done. simpl. by rewrite insert_insert_eq.
Qed.

(** Assigning the field of one key leaves what [get] reads for any other key. *)
Lemma get_assign_ne p key key' l value :
  accessors p = PREF_ACCESSORS -> key_leaf key = Some l -> key' <> key ->
  get {| user_prefs := <[static_path l := value]> (user_prefs p); accessors := accessors p |} key' =
  get p key'.
Proof.
  intros Ha Hk Hne. rewrite !get_eq by (cbn; done).
  destruct (key_leaf key') as [l'|] eqn:Hk'; [|done]. simpl.
  rewrite lookup_total_insert_ne; [done|]. by apply (key_leaf_static_path_ne key key').
Qed.




Lemma set_preserves_prefs_wf up l v :
  prefs_wf up -> l ∈ schema_leaves -> shape_matches (leaf_ty l) v = true ->
  prefs_wf (<[static_path l := v]> up).
Proof.
  intros [Hty Hdom] Hl Hv. split.
  - intros l' Hl'. destruct (decide (static_path l = static_path l')) as [Heq|Hne].
    + assert (l = l') as <- by
        (apply (NoDup_map_inj_on static_path schema_leaves _ _ static_paths_unique); done).
      rewrite lookup_insert_eq. eauto.
    + rewrite lookup_insert_ne by done. by apply Hty.
  - intros path v'. rewrite lookup_insert.
    case_decide as Heq; [intros _; subst; eauto|apply Hdom].
Qed.

(** A decision procedure for [prefs_wf]. *)
Definition prefs_wfb (up : Prefs) : bool :=
  forallb (λ l, match up !! static_path l with
                | Some v => shape_matches (leaf_ty l) v
                | None => false
                end) schema_leaves &&
  bool_decide (map_Forall (λ path _, path ∈ map static_path schema_leaves) up).

Lemma prefs_wfb_spec up : prefs_wfb up = true -> prefs_wf up.
Proof.
  unfold prefs_wfb. rewrite andb_true_iff, forallb_forall, bool_decide_eq_true.
  intros [Hty Hdom]. split.
  - intros l Hl%list_elem_of_In. specialize (Hty l Hl).
    destruct (up !! static_path l) as [v|]; [eauto|done].
  - intros path v Hv. apply Hdom in Hv.
    apply list_elem_of_In, in_map_iff in Hv as (l&<-&Hl).
    exists l. split; [by apply list_elem_of_In|done].
Qed.

(** ** Functional behaviour of [get] and [set] *)

(** C6. The generated accessor table has exactly one entry per leaf of the
    schema: its size is the number of leaves, so no key is lost to a
    duplicate (spec 4.2: a duplicate key is a defect of the schema), and the
    key of each leaf holds that leaf's getter and setter. *)
Theorem accessor_table_complete :
  size PREF_ACCESSORS = length schema_leaves /\
  ∀ l, l ∈ schema_leaves -> PREF_ACCESSORS !! pref_key l = Some (accessor l).
Proof.
  split.
  - unfold PREF_ACCESSORS.
    rewrite map_size_list_to_map by (rewrite map_fst_pairs; apply pref_keys_NoDup).
    apply length_map.
  - intros l Hl. by rewrite PREF_ACCESSORS_lookup, (proj2 (key_leaf_Some _ l)).
Qed.

(** C8. On a well-typed store, setting a key of the table to a value of its
    field's shape succeeds, a later [get] of that key returns the value, and
    the store stays well typed (spec 8, second property). *)
Theorem set_then_get p key l value :
  store_wf p -> key_leaf key = Some l -> shape_matches (leaf_ty l) value = true ->
  exists p', set p key value = Ok p' /\ get p' key = Ok value /\ store_wf p'.
Proof.
  intros [Ha Hwf] Hk Hv. rewrite set_eq, Hk, Hv by done.
  eexists. split; [done|]. split.
  - by apply get_assign_eq.
  - split; [done|]. apply set_preserves_prefs_wf; [done| |done].
    by apply key_leaf_Some in Hk as [? _].
Qed.

(** C9. A value whose shape does not match the field's declared type is
    refused with [TypeMismatch]: the setter coerces nothing (spec 7, spec 8
    third property; the store, not returned, is left as it was). *)
Theorem set_type_mismatch p key l value :
  accessors p = PREF_ACCESSORS -> key_leaf key = Some l ->
  shape_matches (leaf_ty l) value = false ->
  set p key value = Err (TypeMismatch key value).
Proof. intros Ha Hk Hv. by rewrite set_eq, Hk, Hv. Qed.

(** C10. A key that is not in the table is refused with [NoSuchPref] by
    [get] and by [set] (spec 8, fourth property). *)
Theorem unknown_key p key value :
  accessors p = PREF_ACCESSORS -> key_leaf key = None ->
  get p key = Err (NoSuchPref key) /\ set p key value = Err (NoSuchPref key).
Proof. intros Ha Hk. by rewrite get_eq, set_eq, Hk. Qed.

(** C11. Setting one key changes no other key's value: the table has no
    two keys for one field. *)
Theorem set_frame p p' key key' value :
  accessors p = PREF_ACCESSORS -> set p key value = Ok p' -> key' <> key ->
  get p' key' = get p key'.
Proof.
  intros Ha Hs Hne. destruct (set_Ok_inv p key value p' Ha Hs) as (l&Hk&_&_&->).
  by apply (get_assign_ne p key key' l value).
Qed.

(** C12. [set] preserves the well-typedness of the store. *)
Theorem set_preserves_wf p key value p' :
  store_wf p -> set p key value = Ok p' -> store_wf p'.
Proof.
  intros [Ha Hwf] Hs. destruct (set_Ok_inv p key value p' Ha Hs) as (l&_&Hl&Hv&->).
  split; [done|]. by apply set_preserves_prefs_wf.
Qed.

(** On a well-typed store every key of the table reads a value of its
    field's shape. *)
Lemma get_typed p key l :
  store_wf p -> key_leaf key = Some l ->
  exists v, get p key = Ok v /\ shape_matches (leaf_ty l) v = true.
Proof.
  intros [Ha [Hty _]] Hk. rewrite get_eq, Hk by done.
  apply key_leaf_Some in Hk as [Hl _]. destruct (Hty l Hl) as (v&Hv&Hs).
  exists v. split; [|done]. by rewrite (lookup_total_correct _ _ _ Hv).
Qed.

(** ** Static and dynamic access agree *)

Lemma leaf_at_leaf_path l : l ∈ schema_leaves -> leaf_at (leaf_path l) = Some l.
Proof.
  intros Hl. destruct (leaf_at (leaf_path l)) as [l'|] eqn:E.
  - apply find_elem_of in E as [Hl' Hp%bool_decide_eq_true]. f_equal.
    by apply (NoDup_map_inj_on leaf_path schema_leaves _ _ leaf_paths_unique).
  - exfalso. apply list_elem_of_In, (find_none _ _ E) in Hl.
    by rewrite bool_decide_eq_false in Hl.
Qed.

(** C13. The compile-time checked macros and the string-keyed API read and
    write the same field: for every leaf, [pref!] on its static path returns
    what [get] returns for its key, and [set_pref!] with a value of the
    field's type has the effect [set] has. *)
Theorem static_dynamic_agree p l value :
  accessors p = PREF_ACCESSORS -> l ∈ schema_leaves ->
  pref p (leaf_path l) = ok (get p (pref_key l)) /\
  set_pref p (leaf_path l) value = ok (set p (pref_key l) value).
Proof.
  intros Ha Hl. unfold pref, set_pref. rewrite leaf_at_leaf_path by done.
  rewrite get_eq, set_eq, (proj2 (key_leaf_Some _ l)) by done. simpl.
  split; [done|]. by destruct (shape_matches (leaf_ty l) value).
Qed.

(** ** A well-typed store for the witnesses *)

(** Every field at its [Default::default()]. *)
Definition default_instance : Prefs :=
  list_to_map (map (λ l, (static_path l, rust_default (leaf_ty l))) schema_leaves).

Definition example_store : Preferences := new default_instance PREF_ACCESSORS.

Lemma example_store_wf : store_wf example_store.
Proof. split; [reflexivity|]. apply prefs_wfb_spec. vm_compute. reflexivity. Qed.

(** Discharges [store_wf] of a concrete store by evaluation. *)
Ltac store_wf_by_computation :=
  split; [reflexivity|apply prefs_wfb_spec; vm_compute; reflexivity].

(** Evaluates a [set] on a store with the generated table without
    evaluating the table's closures. *)
Ltac set_by_computation := rewrite set_eq by reflexivity; reflexivity.

Definition webgpu_leaf : LeafInfo :=
  {| leaf_path := ["dom"; "webgpu"; "enabled"]; leaf_ty := TBool;
     leaf_default := None; leaf_rename := None |}.

Definition webgpu_on : Preferences :=
  {| user_prefs := <["dom.webgpu.enabled" := PrefValue.Bool true]> default_instance;
     accessors := PREF_ACCESSORS |}.

Lemma set_then_get_witness :
  exists p', set example_store "dom.webgpu.enabled" (PrefValue.Bool true) = Ok p' /\
             get p' "dom.webgpu.enabled" = Ok (PrefValue.Bool true) /\ store_wf p'.
Proof.
  apply (set_then_get example_store "dom.webgpu.enabled" webgpu_leaf);
    [store_wf_by_computation|vm_compute; reflexivity|reflexivity].
Defined.

Lemma set_type_mismatch_witness :
  set example_store "dom.webgpu.enabled" (PrefValue.Int 1) =
  Err (TypeMismatch "dom.webgpu.enabled" (PrefValue.Int 1)).
Proof.
  apply (set_type_mismatch example_store "dom.webgpu.enabled" webgpu_leaf);
    [reflexivity|vm_compute; reflexivity..].
Defined.

Lemma unknown_key_witness :
  get example_store "dom.no-such-pref" = Err (NoSuchPref "dom.no-such-pref") /\
  set example_store "dom.no-such-pref" (PrefValue.Bool true) = Err (NoSuchPref "dom.no-such-pref").
Proof. apply unknown_key; [reflexivity|vm_compute; reflexivity]. Defined.

Lemma set_frame_witness :
  get webgpu_on "layout.threads" = get example_store "layout.threads".
Proof.
  apply (set_frame example_store webgpu_on "dom.webgpu.enabled" "layout.threads"
           (PrefValue.Bool true)); [reflexivity|set_by_computation|discriminate].
Defined.

Lemma set_preserves_wf_witness : store_wf webgpu_on.
Proof.
  apply (set_preserves_wf example_store "dom.webgpu.enabled" (PrefValue.Bool true));
    [store_wf_by_computation|set_by_computation].
Defined.

Lemma static_dynamic_agree_witness :
  pref example_store ["dom"; "webgpu"; "enabled"] = ok (get example_store "dom.webgpu.enabled") /\
  set_pref example_store ["dom"; "webgpu"; "enabled"] (PrefValue.Bool true) =
  ok (set example_store "dom.webgpu.enabled" (PrefValue.Bool true)).
Proof.
  apply (static_dynamic_agree example_store webgpu_leaf);
    [reflexivity|apply (list_elem_of_lookup_2 _ 5); vm_compute; reflexivity].
Defined.

(** ** [Preferences] implements the store contract *)

#[global] Instance preferences_store : PrefStore Preferences := {|
  store_get := get;
  store_set := set;
  store_inv := store_wf;
|}.

Lemma set_err_eq p key value e :
  accessors p = PREF_ACCESSORS -> set p key value = Err e ->
  e = match key_leaf key with
      | Some _ => TypeMismatch key value
      | None => NoSuchPref key
      end /\
  match key_leaf key with
  | Some l => shape_matches (leaf_ty l) value = false
  | None => True
  end.
Proof.
  intros Ha. rewrite set_eq by done.
  destruct (key_leaf key) as [l|]; [|by intros [= <-]].
  destruct (shape_matches (leaf_ty l) value); [done|by intros [= <-]].
Qed.

#[global] Instance preferences_store_laws : PrefStoreLaws Preferences.
Proof.
  split; simpl.
  - intros p p' k v [Ha Hwf] Hs. destruct (set_Ok_inv p k v p' Ha Hs) as (l&_&Hl&Hv&->).
    split; [done|]. by apply set_preserves_prefs_wf.
  - intros p p' k v [Ha _] Hs. destruct (set_Ok_inv p k v p' Ha Hs) as (l&Hk&_&_&->).
    by apply get_assign_eq.
  - intros p p' k k' v [Ha _] Hs Hne. destruct (set_Ok_inv p k v p' Ha Hs) as (l&Hk&_&_&->).
    by apply (get_assign_ne p k k' l v).
  - intros p p' k v e [Ha _] [Ha' _] Hs.
    destruct (set_err_eq p k v e Ha Hs) as [-> Hl].
    rewrite set_eq by done. destruct (key_leaf k); [|done]. by rewrite Hl.
Qed.
