(* ===== verification/Loader.v ===== *)
(** * Loading the defaults: [PREFS] (prefs.rs, lines 16-22)

    The bundled resource is parsed with [serde_json::from_str::<Prefs>],
    the [Deserialize] that [#[derive(Deserialize)]] generates for the
    structs of [mod gen] (Schema.v).  As written, each struct is read from a
    JSON object whose keys are its field names, a field's [rename] replacing
    its name; unknown keys are skipped, a repeated key is an error, an absent
    field takes its [default] (the type's [Default::default()] or the named
    function) or is an error.  serde also accepts a struct written as an
    array of its fields in order.  The result is kept as the [Prefs]
    instance of Store.v: the value of each leaf under its static path.  A
    failure makes [PREFS]'s initialiser panic ([expect], line 19).  The
    derived [Serialize] of the same structs ([serde_json::to_value]) is
    modelled too, for the round trip through both derives. *)

From S2P Require Import Prelude Float64 Json PrefValue StoreSpec Schema Store.

(** The errors [serde_json::from_str] reports: a syntax error of the text,
    or one of the errors of the derived deserializer. *)
Inductive DeError : Type :=
| Syntax (msg : string)
| InvalidType
| IntegerOutOfRange
| InvalidLength
| MissingField (field : string)
| DuplicateField (field : string).

(** A field's key in its struct's object: its [rename], or its name. *)
Definition field_key (n : Node) : string :=
  match n with
  | Leaf id _ _ (Some r) => r
  | Leaf id _ _ None => id
  | Group id _ _ => id
  end.

Section Loader.

(** [num_cpus::get()] on the host, read by [default_layout_threads]. *)
Variable num_cpus : Z.

(** A leaf value of the declared type, as serde's primitive visitors read
    it from JSON. *)
Definition de_value (ty : FieldType) (v : Value.t) : Result PrefValue.t DeError :=
  match ty, v with
  | TBool, Value.Bool b => Ok (PrefValue.Bool b)
  | TI64, Value.Number n =>
      match n with
      | Number.Float _ => Err InvalidType
      | _ => match Number.as_i64 n with
             | Some i => Ok (PrefValue.Int i)
             | None => Err IntegerOutOfRange
             end
      end
  | TF64, Value.Number n => Ok (PrefValue.Float (unwrap (Number.as_f64 n)))
  | TString, Value.String s => Ok (PrefValue.Str s)
  | TF64Array k, Value.Array vs =>
      if (length vs =? k)%nat
      then PrefValue.Array <$>
             mapM (λ x, match x with
                        | Value.Number n => Ok (PrefValue.Float (unwrap (Number.as_f64 n)))
                        | _ => Err InvalidType
                        end) vs
      else Err InvalidLength
  | _, _ => Err InvalidType
  end.

(** The value an absent field takes, when it has a [default] attribute. *)
Definition field_default (prefix : list string) (n : Node) : option Prefs :=
  match n with
  | Leaf id ty (Some DefaultTrait) _ =>
      Some {[String.concat "." (prefix ++ [id]) := rust_default ty]}
  | Leaf id ty (Some (DefaultPath p)) _ =>
      (λ z, {[String.concat "." (prefix ++ [id]) := PrefValue.Int z]}) <$> default_fn num_cpus p
  | _ => None
  end.

(** What the derived visitor knows of a field: its key, its default, and
    the deserializer of its type. *)
Record FieldDe : Type := {
  fd_key : string;
  fd_default : option Prefs;
  fd_de : Value.t -> Result Prefs DeError;
}.

(** [visit_map]: the entries in document order; unknown keys are skipped,
    a key seen twice is an error, each known value is deserialized. *)
Fixpoint visit_entries (fields : list FieldDe) (seen : list string) (acc : Prefs)
    (es : list (string * Value.t)) : Result (list string * Prefs) DeError :=
  match es with
  | [] => Ok (seen, acc)
  | (k, v) :: rest =>
      match List.find (λ f, String.eqb (fd_key f) k) fields with
      | None => visit_entries fields seen acc rest
      | Some f =>
          if bool_decide (k ∈ seen) then Err (DuplicateField k)
          else p ← fd_de f v; visit_entries fields (k :: seen) (p ∪ acc) rest
      end
  end.

(** After the entries: each absent field takes its default, in declaration
    order, or is reported missing. *)
Fixpoint fill_missing (fields : list FieldDe) (seen : list string) (acc : Prefs) :
    Result Prefs DeError :=
  match fields with
  | [] => Ok acc
  | f :: rest =>
      if bool_decide (fd_key f ∈ seen) then fill_missing rest seen acc
      else match fd_default f with
           | Some d => fill_missing rest seen (d ∪ acc)
           | None => Err (MissingField (fd_key f))
           end
  end.

(** [visit_seq]: the fields in declaration order from the array's
    elements; a missing element takes the default; left-over elements are
    an error. *)
Fixpoint visit_seq (fields : list FieldDe) (acc : Prefs) (vs : list Value.t) :
    Result Prefs DeError :=
  match fields, vs with
  | [], [] => Ok acc
  | [], _ :: _ => Err InvalidLength
  | f :: rest, v :: vs' => p ← fd_de f v; visit_seq rest (p ∪ acc) vs'
  | f :: rest, [] =>
      match fd_default f with
      | Some d => visit_seq rest (d ∪ acc) []
      | None => Err InvalidLength
      end
  end.

(** [deserialize_struct] *)
Definition de_struct (fields : list FieldDe) (v : Value.t) : Result Prefs DeError :=
  match v with
  | Value.Object es => '(seen, acc) ← visit_entries fields [] ∅ es; fill_missing fields seen acc
  | Value.Array vs => visit_seq fields ∅ vs
  | _ => Err InvalidType
  end.

(** [Deserialize] for a field below [prefix]: a leaf reads its value, a
    struct-typed field its struct. *)
Fixpoint de_node (prefix : list string) (n : Node) (v : Value.t) {struct n} :
    Result Prefs DeError :=
  match n with
  | Leaf id ty _ _ => pv ← de_value ty v; Ok {[String.concat "." (prefix ++ [id]) := pv]}
  | Group id _ fs =>
      de_struct
        ((fix go (fs : list Node) : list FieldDe :=
            match fs with
            | [] => []
            | f :: fs =>
                {| fd_key := field_key f; fd_default := field_default (prefix ++ [id]) f;
                   fd_de := de_node (prefix ++ [id]) f |} :: go fs
            end) fs) v
  end.

(** The field visitors of a struct below [prefix]. *)
Definition field_des (prefix : list string) (fs : list Node) : list FieldDe :=
  map (λ f, {| fd_key := field_key f; fd_default := field_default prefix f;
               fd_de := de_node prefix f |}) fs.

(** [serde_json::from_str::<Prefs>] on the parsed resource. *)
Definition load (v : Value.t) : Result Prefs DeError := de_struct (field_des [] gen.Pref) v.

(** [serde_json::from_str::<Prefs>] on the text: the JSON parser (a
    parameter, as in ReadPrefs.v), then the derived deserializer. *)
Definition from_str_prefs (parse_json : string -> Result Value.t string) (text : string) :
    Result Prefs DeError :=
  v ← map_err Syntax (parse_json text); load v.

(** The initialiser of [PREFS] (lines 17-21) on the text that
    [resources::read_string(Resource::Preferences)] returns: [expect] panics
    on an error. *)
Definition init_prefs (parse_json : string -> Result Value.t string) (resource : string) :
    outcome Preferences :=
  match from_str_prefs parse_json resource with
  | Ok def_prefs => Returned (new def_prefs PREF_ACCESSORS)
  | Err _ => Panicked "Failed to initialize config preferences."
  end.

End Loader.

(** A document the schema refuses at some field: inside the objects of
    the structs that lead to it, a leaf holds a value its declared type
    does not accept. *)
Inductive refused : list Node -> Value.t -> Prop :=
| refused_leaf fs es id ty d r v :
    Leaf id ty d r ∈ fs -> (field_key (Leaf id ty d r), v) ∈ es ->
    is_ok (de_value ty v) = false -> refused fs (Value.Object es)
| refused_group fs es id s gs v :
    Group id s gs ∈ fs -> (id, v) ∈ es -> refused gs v -> refused fs (Value.Object es).

(** ** The derived [Serialize]

    [#[derive(Serialize)]] on the structs of [mod gen] (line 117 and the
    derive of every other struct): a struct is written as an object of its
    fields in declaration order, each under its key (its [rename], or its
    name); a leaf's value as [serde_json::to_value] writes its Rust type,
    which is [PrefValue.to_json_value]'s conversion: a non-finite [f64]
    becomes [null]. *)
Fixpoint ser_node (p : Prefs) (prefix : list string) (n : Node) : Value.t :=
  match n with
  | Leaf id _ _ _ => PrefValue.to_json_value (p !!! String.concat "." (prefix ++ [id]))
  | Group id _ fs =>
      Value.Object ((fix go (fs : list Node) : list (string * Value.t) :=
                       match fs with
                       | [] => []
                       | f :: fs => (field_key f, ser_node p (prefix ++ [id]) f) :: go fs
                       end) fs)
  end.

(** [serde_json::to_value::<Prefs>] *)
Definition to_value (p : Prefs) : Value.t :=
  Value.Object (map (λ f, (field_key f, ser_node p [] f)) gen.Pref).

(** What deserializing [ser_node] yields: the field's leaves, each with
    its value in [p], merged in the order [visit_seq] merges them. *)
Fixpoint sub_node (p : Prefs) (prefix : list string) (n : Node) : Prefs :=
  match n with
  | Leaf id _ _ _ =>
      {[String.concat "." (prefix ++ [id]) := p !!! String.concat "." (prefix ++ [id])]}
  | Group id _ fs => foldl (λ acc f, sub_node p (prefix ++ [id]) f ∪ acc) ∅ fs
  end.

(** ** Documents for the witnesses *)

(** The JSON of a field type's [Default::default()]. *)
Definition json_default (ty : FieldType) : Value.t :=
  match ty with
  | TBool => Value.Bool false
  | TI64 => Value.Number (Number.PosInt 0)
  | TF64 => Value.Number (Number.Float 0)
  | TString => Value.String ""
  | TF64Array k => Value.Array (replicate k (Value.Number (Number.Float 0)))
  end.

(** A document giving every field of a struct, or only the fields that
    have no [default] attribute. *)
Fixpoint doc_of_node (all : bool) (n : Node) : option (string * Value.t) :=
  match n with
  | Leaf _ ty d _ =>
      if all || negb (is_some d) then Some (field_key n, json_default ty) else None
  | Group _ _ fs =>
      Some (field_key n, Value.Object
        ((fix go (fs : list Node) : list (string * Value.t) :=
            match fs with
            | [] => []
            | f :: fs => match doc_of_node all f with Some e => e :: go fs | None => go fs end
            end) fs))
  end.

Definition doc_of_schema (all : bool) : Value.t := Value.Object (omap (doc_of_node all) gen.Pref).

(** ** The loaded instance is complete and well typed *)

(** [p] holds exactly the leaves [P] describes, each with a value of its
    declared shape. *)
Definition covers (P : LeafInfo -> Prop) (p : Prefs) : Prop :=
  (∀ l, P l -> exists v, p !! static_path l = Some v /\ shape_matches (leaf_ty l) v = true) /\
  (∀ path v, p !! path = Some v -> exists l, P l /\ static_path l = path).

Lemma covers_iff (P Q : LeafInfo -> Prop) p : (∀ l, P l <-> Q l) -> covers P p -> covers Q p.
Proof.
  intros HPQ [H1 H2]. split.
  - intros l Hl. apply H1, HPQ, Hl.
  - intros path v Hv. destruct (H2 path v Hv) as (l&Hl&?). exists l. by rewrite <-HPQ.
Qed.

Lemma covers_empty : covers (λ _, False) ∅.
Proof. split; [done|]. intros path v. by rewrite lookup_empty. Qed.

(** Union of two instances over leaves with distinct static paths. *)
Lemma covers_union (P1 P2 : LeafInfo -> Prop) p1 p2 :
  covers P1 p1 -> covers P2 p2 ->
  (∀ l1 l2, P1 l1 -> P2 l2 -> static_path l1 <> static_path l2) ->
  covers (λ l, P1 l \/ P2 l) (p1 ∪ p2).
Proof.
  intros [H11 H12] [H21 H22] Hdisj. split.
  - intros l [Hl|Hl].
    + destruct (H11 l Hl) as (v&Hv&Hs). exists v. split; [|done].
      by apply lookup_union_Some_l.
    + destruct (H21 l Hl) as (v&Hv&Hs). exists v. split; [|done].
      rewrite lookup_union_r; [done|]. destruct (p1 !! static_path l) as [v1|] eqn:E; [|done].
      destruct (H12 _ _ E) as (l1&Hl1&Hp). exfalso. by apply (Hdisj l1 l).
  - intros path v [Hv|[_ Hv]]%lookup_union_Some_raw.
    + destruct (H12 _ _ Hv) as (l&?&?). eauto.
    + destruct (H22 _ _ Hv) as (l&?&?). eauto.
Qed.

Lemma rust_default_shape ty : shape_matches ty (rust_default ty) = true.
Proof.
  destruct ty as [| | | |k]; simpl; [done..|].
  rewrite length_replicate, Nat.eqb_refl. simpl. by induction k.
Qed.

Lemma leaves_of_leaf prefix id ty d r :
  leaves_of prefix (Leaf id ty d r) =
  [{| leaf_path := prefix ++ [id]; leaf_ty := ty; leaf_default := d; leaf_rename := r |}].
Proof. reflexivity. Qed.

Lemma leaves_of_group prefix id s fs :
  leaves_of prefix (Group id s fs) = concat (map (leaves_of (prefix ++ [id])) fs).
Proof. simpl. induction fs as [|f fs IH]; simpl; [done|]. by f_equal. Qed.

Lemma de_node_group nc prefix id s fs v :
  de_node nc prefix (Group id s fs) v = de_struct (field_des nc (prefix ++ [id]) fs) v.
Proof.
  simpl. f_equal.
Qed.

Lemma covers_leaf prefix id ty d r v :
  shape_matches ty v = true ->
  covers (λ l, l ∈ leaves_of prefix (Leaf id ty d r)) {[String.concat "." (prefix ++ [id]) := v]}.
Proof.
  intros Hv. rewrite leaves_of_leaf. split.
  - intros l ->%list_elem_of_singleton. exists v. by rewrite lookup_singleton_eq.
  - intros path v' [<- _]%lookup_singleton_Some. eexists. split; [by left|done].
Qed.

Lemma elem_of_concat_map {A B} (h : A -> list B) fs x :
  x ∈ concat (map h fs) <-> exists f, f ∈ fs /\ x ∈ h f.
Proof.
  rewrite list_elem_of_In, in_concat. setoid_rewrite in_map_iff. split.
  - intros (l&(f&<-&Hf)&Hx). exists f. by rewrite !list_elem_of_In.
  - intros (f&Hf&Hx). exists (h f).
    split; [exists f; split; [done|by apply list_elem_of_In]|by apply list_elem_of_In].
Qed.

(** What the schema must satisfy for the derived code to make sense: the
    keys of each struct are distinct, and a [default = "path"] names an
    [i64] function for an [i64] field. *)
Fixpoint node_ok (n : Node) : bool :=
  match n with
  | Leaf _ TI64 (Some (DefaultPath p)) _ => is_some (default_fn 0 p)
  | Leaf _ _ (Some (DefaultPath _)) _ => false
  | Leaf _ _ _ _ => true
  | Group _ _ fs =>
      bool_decide (NoDup (map field_key fs)) &&
      (fix go (fs : list Node) : bool :=
         match fs with [] => true | f :: fs => node_ok f && go fs end) fs
  end.

Lemma node_ok_group id s fs :
  node_ok (Group id s fs) = true <->
  NoDup (map field_key fs) /\ ∀ f, f ∈ fs -> node_ok f = true.
Proof.
  simpl. rewrite andb_true_iff, bool_decide_eq_true. apply and_iff_compat_l.
  induction fs as [|f fs IH]; simpl.
  - split; [by intros _ ? ?%elem_of_nil|done].
  - rewrite andb_true_iff, IH. setoid_rewrite elem_of_cons. naive_solver.
Qed.

Lemma default_fn_some nc1 nc2 p : is_some (default_fn nc1 p) = is_some (default_fn nc2 p).
Proof.
  unfold default_fn. by repeat (case_match; simpl).
Qed.

Lemma field_default_covers nc prefix f d :
  node_ok f = true -> field_default nc prefix f = Some d ->
  covers (λ l, l ∈ leaves_of prefix f) d.
Proof.
  destruct f as [id ty [[|p]|] r|id s fs]; simpl; try discriminate.
  - intros _ [= <-]. apply covers_leaf, rust_default_shape.
  - destruct ty; try discriminate. intros _.
    destruct (default_fn nc p); simpl; [|discriminate]. intros [= <-]. by apply covers_leaf.
Qed.

Lemma find_field_des nc path fs k fd :
  List.find (λ f, String.eqb (fd_key f) k) (field_des nc path fs) = Some fd ->
  exists f, f ∈ fs /\ field_key f = k /\ fd_de fd = de_node nc path f.
Proof.
  unfold field_des. induction fs as [|f fs IH]; simpl; [discriminate|].
  destruct (String.eqb_spec (field_key f) k) as [<-|Hne].
  - intros [= <-]. exists f. split; [by left|done].
  - intros (f'&?&?&?)%IH. exists f'. split; [by right|done].
Qed.

(** The keys [visit_map] marks as seen come from the document. *)
Lemma visit_entries_seen nc path fs seen acc es seen' p :
  visit_entries (field_des nc path fs) seen acc es = Ok (seen', p) ->
  ∀ k, k ∈ seen' -> k ∈ seen \/ k ∈ es.*1.
Proof.
  revert seen acc; induction es as [|[k v] es IH]; intros seen acc; simpl.
  - intros [= <- <-]. auto.
  - destruct (List.find _ _) as [fd|]; [|intros Hv k' Hk'; destruct (IH _ _ Hv k' Hk'); set_solver].
    case_bool_decide; [discriminate|]. destruct (fd_de fd v); simpl; [|discriminate].
    intros Hv k' Hk'. destruct (IH _ _ Hv k' Hk') as [[->|?]%elem_of_cons|?]; set_solver.
Qed.

Lemma fill_missing_app nc path seen acc l1 l2 :
  fill_missing (field_des nc path (l1 ++ l2)) seen acc =
  (acc1 ← fill_missing (field_des nc path l1) seen acc; fill_missing (field_des nc path l2) seen acc1).
Proof.
  revert acc; induction l1 as [|f l1 IH]; intros acc; simpl; [done|].
  case_bool_decide; [apply IH|]. destruct (field_default nc path f); [apply IH|done].
Qed.

Section StructProofs.
Variables (nc : Z) (path : list string) (fs : list Node).
Hypothesis Hkeys : NoDup (map field_key fs).
Hypothesis Hpaths : NoDup (map static_path (concat (map (leaves_of path) fs))).
Hypothesis Hfields : ∀ f, f ∈ fs -> ∀ v q, de_node nc path f v = Ok q ->
  covers (λ l, l ∈ leaves_of path f) q.
Hypothesis Hdefaults : ∀ f, f ∈ fs -> ∀ d, field_default nc path f = Some d ->
  covers (λ l, l ∈ leaves_of path f) d.

(** Two different fields of the struct have no static path in common. *)
Lemma fields_disjoint f f' l l' :
  f ∈ fs -> f' ∈ fs -> f <> f' -> l ∈ leaves_of path f -> l' ∈ leaves_of path f' ->
  static_path l <> static_path l'.
Proof. intros. by apply (NoDup_concat_map_disjoint static_path (leaves_of path) fs f f'). Qed.

Lemma visit_entries_covers seen acc es seen' p :
  (∀ k, k ∈ seen -> exists f, f ∈ fs /\ field_key f = k) ->
  covers (λ l, exists f, f ∈ fs /\ field_key f ∈ seen /\ l ∈ leaves_of path f) acc ->
  visit_entries (field_des nc path fs) seen acc es = Ok (seen', p) ->
  (∀ k, k ∈ seen' -> exists f, f ∈ fs /\ field_key f = k) /\
  covers (λ l, exists f, f ∈ fs /\ field_key f ∈ seen' /\ l ∈ leaves_of path f) p.
Proof.
  revert seen acc; induction es as [|[k v] es IH]; intros seen acc Hseen Hacc; simpl.
  - by intros [= <- <-].
  - destruct (List.find _ _) as [fd|] eqn:Hfind; [|by apply IH].
    apply find_field_des in Hfind as (f&Hf&Hk&Hde).
    case_bool_decide as Hin; [discriminate|].
    rewrite Hde. destruct (de_node nc path f v) as [q|e] eqn:Hq; simpl; [|discriminate].
    apply IH.
    + intros k' [->|Hk']%elem_of_cons; [eauto|by apply Hseen].
    + eapply covers_iff; [|apply covers_union; [exact (Hfields f Hf v q Hq)|exact Hacc|]].
      * intros l. split.
        -- intros [Hl|(f'&Hf'&Hk'&Hl)]; [exists f; rewrite elem_of_cons; auto|].
           exists f'. rewrite elem_of_cons. auto.
        -- intros (f'&Hf'&[Hk'|Hk']%elem_of_cons&Hl); [left|right; eauto].
           assert (f' = f) as -> by
             (apply (NoDup_map_inj_on field_key fs); [done|done|done|congruence]).
           done.
      * intros l1 l2 Hl1 (f'&Hf'&Hk'&Hl2). apply (fields_disjoint f f'); [done|done| |done|done].
        intros ->. by subst k.
Qed.

Lemma fields_NoDup : NoDup fs.
Proof. apply NoDup_ListNoDup, (NoDup_map_inv field_key), NoDup_ListNoDup, Hkeys. Qed.

(** [fill_missing] completes the fields not seen, over the suffix [rest]
    of the struct's fields still to inspect. *)
Lemma fill_missing_covers seen done rest acc p :
  fs = done ++ rest ->
  covers (λ l, exists f, f ∈ fs /\ (f ∈ done \/ field_key f ∈ seen) /\ l ∈ leaves_of path f) acc ->
  fill_missing (field_des nc path rest) seen acc = Ok p ->
  covers (λ l, exists f, f ∈ fs /\ l ∈ leaves_of path f) p.
Proof.
  revert done acc; induction rest as [|f rest IH]; intros done acc Hfs Hacc; simpl.
  - intros [= <-]. eapply covers_iff; [|exact Hacc]. intros l.
    rewrite Hfs, app_nil_r. naive_solver.
  - assert (Hf : f ∈ fs) by (rewrite Hfs; apply elem_of_app; right; by left).
    assert (Hfd : f ∉ done).
    { intros Hd. pose proof fields_NoDup as Hnd. rewrite Hfs in Hnd.
      apply NoDup_app in Hnd as (_&Hdisj&_). apply (Hdisj f Hd). by left. }
    case_bool_decide as Hk.
    + apply (IH (done ++ [f])); [by rewrite <-app_assoc|].
      eapply covers_iff; [|exact Hacc]. intros l. setoid_rewrite elem_of_app.
      setoid_rewrite list_elem_of_singleton. split; [naive_solver|].
      intros (f'&Hf'&[[Hd| ->]|Hs]&Hl); eauto.
    + destruct (field_default nc path f) as [d|] eqn:Hd; [|discriminate].
      apply (IH (done ++ [f])); [by rewrite <-app_assoc|].
      eapply covers_iff; [|apply covers_union; [exact (Hdefaults f Hf d Hd)|exact Hacc|]].
      * intros l. setoid_rewrite elem_of_app. setoid_rewrite list_elem_of_singleton.
        split; [intros [Hl|(f'&Hf'&Hor&Hl)]; [exists f; auto|exists f'; naive_solver]|].
        intros (f'&Hf'&[[Hd'| ->]|Hs]&Hl); [right; eauto|left; done|right; eauto].
      * intros l1 l2 Hl1 (f'&Hf'&Hor&Hl2). apply (fields_disjoint f f'); [done|done| |done|done].
        intros <-. destruct Hor; [by apply Hfd|by apply Hk].
Qed.

(** [visit_seq] over the fields still to read, [rest], after [done]. *)
Lemma visit_seq_covers done rest acc vs p :
  fs = done ++ rest ->
  covers (λ l, exists f, f ∈ done /\ l ∈ leaves_of path f) acc ->
  visit_seq (field_des nc path rest) acc vs = Ok p ->
  covers (λ l, exists f, f ∈ fs /\ l ∈ leaves_of path f) p.
Proof.
  revert done acc vs; induction rest as [|f rest IH]; intros done acc vs Hfs Hacc; simpl.
  - destruct vs; [|discriminate]. intros [= <-]. rewrite Hfs, app_nil_r. exact Hacc.
  - assert (Hf : f ∈ fs) by (rewrite Hfs; apply elem_of_app; right; by left).
    assert (Hfd : f ∉ done).
    { intros Hd. pose proof fields_NoDup as Hnd. rewrite Hfs in Hnd.
      apply NoDup_app in Hnd as (_&Hdisj&_). apply (Hdisj f Hd). by left. }
    assert (Hstep : ∀ q, covers (λ l, l ∈ leaves_of path f) q ->
      covers (λ l, exists f', f' ∈ done ++ [f] /\ l ∈ leaves_of path f') (q ∪ acc)).
    { intros q Hq. eapply covers_iff; [|apply covers_union; [exact Hq|exact Hacc|]].
      - intros l. setoid_rewrite elem_of_app. setoid_rewrite list_elem_of_singleton.
        split; [intros [Hl|(f'&?&?)]; eauto|intros (f'&[Hd| ->]&Hl); eauto].
      - intros l1 l2 Hl1 (f'&Hf'&Hl2). apply (fields_disjoint f f'); [done| | |done|done].
        + rewrite Hfs. apply elem_of_app. by left.
        + by intros <-. }
    destruct vs as [|v vs].
    + destruct (field_default nc path f) as [d|] eqn:Hd; [|discriminate].
      apply (IH (done ++ [f])); [by rewrite <-app_assoc|]. by apply Hstep, (Hdefaults f Hf).
    + destruct (de_node nc path f v) as [q|e] eqn:Hq; simpl; [|discriminate].
      apply (IH (done ++ [f])); [by rewrite <-app_assoc|]. by apply Hstep, (Hfields f Hf v).
Qed.

(** [deserialize_struct] yields exactly the struct's leaves, well typed. *)
Lemma de_struct_covers v p :
  de_struct (field_des nc path fs) v = Ok p ->
  covers (λ l, exists f, f ∈ fs /\ l ∈ leaves_of path f) p.
Proof.
  destruct v as [| | | |vs|es]; simpl; try discriminate.
  - intros Hseq. apply (visit_seq_covers [] fs ∅ vs); [done| |exact Hseq].
    eapply covers_iff; [|exact covers_empty].
    intros l. split; [done|]. by intros (?&?%elem_of_nil&_).
  - destruct (visit_entries _ [] ∅ es) as [[seen acc]|e] eqn:E; simpl; [|discriminate].
    intros Hfill. apply visit_entries_covers in E as [_ Hacc].
    + apply (fill_missing_covers seen [] fs acc p); [done| |exact Hfill].
      eapply covers_iff; [|exact Hacc]. intros l. split; [naive_solver|].
      intros (f&Hf&[[]%elem_of_nil|Hs]&Hl); eauto.
    + by intros ? ?%elem_of_nil.
    + eapply covers_iff; [|exact covers_empty]. intros l. split; [done|].
      by intros (?&?&?%elem_of_nil&_).
Qed.

(** Later defaults never overwrite the instance of a field already done. *)
Lemma fill_missing_keeps seen rest acc p g q :
  g ∈ fs -> g ∉ rest -> (∀ f, f ∈ rest -> f ∈ fs) ->
  covers (λ l, l ∈ leaves_of path g) q -> q ⊆ acc ->
  fill_missing (field_des nc path rest) seen acc = Ok p -> q ⊆ p.
Proof.
  revert acc; induction rest as [|f rest IH]; intros acc Hg Hgr Hrest Hq Hsub; simpl.
  - by intros [= <-].
  - assert (Hf : f ∈ fs) by (apply Hrest; by left).
    assert (Hfg : f <> g) by (intros ->; apply Hgr; by left).
    case_bool_decide.
    + apply IH; [done|set_solver|intros; apply Hrest; by right|done|done].
    + destruct (field_default nc path f) as [d|] eqn:Hd; [|discriminate].
      apply IH; [done|set_solver|intros; apply Hrest; by right|done|].
      apply map_subseteq_spec. intros i x Hix.
      pose proof (proj1 (map_subseteq_spec q acc) Hsub i x Hix) as Hacc.
      rewrite lookup_union_r; [done|].
      destruct (d !! i) as [y|] eqn:Hdi; [exfalso|done].
      destruct (proj2 (Hdefaults f Hf d Hd) i y Hdi) as (l1&Hl1&<-).
      destruct (proj2 Hq _ _ Hix) as (l2&Hl2&Hp).
      by apply (fields_disjoint f g l1 l2).
Qed.

(** The section form of C17: a default fills its field for good. *)
Lemma de_struct_default_subseteq es p f d :
  f ∈ fs -> field_key f ∉ es.*1 -> field_default nc path f = Some d ->
  de_struct (field_des nc path fs) (Value.Object es) = Ok p -> d ⊆ p.
Proof.
  intros Hf Hk Hd. simpl.
  destruct (visit_entries _ [] ∅ es) as [[seen acc]|e] eqn:E; simpl; [|discriminate].
  assert (Hseen : field_key f ∉ seen).
  { intros Hin. destruct (visit_entries_seen _ _ _ [] ∅ es seen acc E _ Hin) as [?%elem_of_nil|]; done. }
  apply list_elem_of_split in Hf as Hsplit. destruct Hsplit as (l1&l2&Hfs).
  rewrite Hfs, fill_missing_app. destruct (fill_missing _ seen acc) as [acc1|e] eqn:E1;
    simpl; [|discriminate].
  cbn [field_des map fill_missing fd_key fd_default].
  rewrite bool_decide_eq_false_2 by done. rewrite Hd.
  pose proof fields_NoDup as Hnd. rewrite Hfs in Hnd.
  apply NoDup_app in Hnd as (_&_&Hnd2). apply NoDup_cons in Hnd2 as [Hfl2 _].
  apply (fill_missing_keeps seen l2 (d ∪ acc1) p f d); [done|done| |by apply Hdefaults|].
  - intros f' Hf'. rewrite Hfs. apply elem_of_app. right. by right.
  - apply map_union_subseteq_l.
Qed.

End StructProofs.

(** C18. A field absent from its struct's object that has no [default]
    attribute makes the struct's deserialization fail (spec 8, last
    property, second half). *)
Theorem de_struct_missing_required nc path fs es f :
  f ∈ fs -> field_key f ∉ es.*1 -> field_default nc path f = None ->
  is_ok (de_struct (field_des nc path fs) (Value.Object es)) = false.
Proof.
  intros Hf Hk Hd. simpl.
  destruct (visit_entries _ [] ∅ es) as [[seen acc]|e] eqn:E; simpl; [|done].
  assert (Hseen : field_key f ∉ seen).
  { intros Hin. destruct (visit_entries_seen _ _ _ [] ∅ es seen acc E _ Hin)
      as [?%elem_of_nil|]; done. }
  apply list_elem_of_split in Hf as (l1&l2&->).
  rewrite fill_missing_app. destruct (fill_missing _ seen acc); simpl; [|done].
  cbn [field_des map fill_missing fd_key fd_default].
  rewrite bool_decide_eq_false_2 by done. by rewrite Hd.
Qed.

Lemma de_value_shape ty v pv : de_value ty v = Ok pv -> shape_matches ty pv = true.
Proof.
  destruct ty as [| | | |k], v as [|b|n|s|vs|es]; simpl; try discriminate.
  - by intros [= <-].
  - destruct n as [u|i|b]; [| |discriminate]; destruct (Number.as_i64 _); by intros [= <-].
  - by intros [= <-].
  - by intros [= <-].
  - destruct (Nat.eqb_spec (length vs) k) as [Hk|]; [|discriminate].
    destruct (mapM _ vs) as [xs|e] eqn:E; simpl; [|discriminate]. intros [= <-].
    apply mapM_res_Ok in E. simpl. apply andb_true_iff. split.
    + apply Nat.eqb_eq. rewrite <-Hk. symmetry. by eapply Forall2_length.
    + apply forallb_forall. intros x Hx%list_elem_of_In.
      apply list_elem_of_lookup_1 in Hx as [i Hi].
      destruct (Forall2_lookup_r _ vs xs i x E Hi) as (y&_&Hy).
      destruct y as [| |n| | |]; simpl in Hy; try discriminate. by injection Hy as <-.
Qed.

(** Every field deserializer yields exactly the leaves of its field. *)
Lemma de_node_covers nc n :
  ∀ prefix v p, node_ok n = true -> NoDup (map static_path (leaves_of prefix n)) ->
  de_node nc prefix n v = Ok p -> covers (λ l, l ∈ leaves_of prefix n) p.
Proof.
  induction n as [id ty d r|id s fs IH] using Node_ind; intros prefix v p Hok Hnd Hde.
  - cbn [de_node] in Hde. destruct (de_value ty v) as [pv|e] eqn:E; simpl in Hde; [|discriminate].
    injection Hde as <-. apply covers_leaf. by eapply de_value_shape.
  - rewrite de_node_group in Hde. apply node_ok_group in Hok as [Hkeys Hoks].
    rewrite leaves_of_group in *. apply list_all_Forall in IH.
    eapply covers_iff; [|apply (de_struct_covers nc (prefix ++ [id]) fs Hkeys Hnd) with (v := v); [| |exact Hde]].
    + intros l. by rewrite elem_of_concat_map.
    + intros f Hf v' q Hq. rewrite Forall_forall in IH. apply (IH f Hf _ v'); [by apply Hoks| |done].
      by apply (NoDup_concat_map_block static_path (leaves_of (prefix ++ [id])) fs).
    + intros f Hf d Hd. by apply (field_default_covers nc _ f); [apply Hoks|].
Qed.

(** The hypotheses of [StructProofs] on the fields hold for the fields of
    any struct that meets [node_ok]. *)
Lemma struct_fields_covers nc path fs :
  (∀ f, f ∈ fs -> node_ok f = true) ->
  NoDup (map static_path (concat (map (leaves_of path) fs))) ->
  (∀ f, f ∈ fs -> ∀ v q, de_node nc path f v = Ok q -> covers (λ l, l ∈ leaves_of path f) q) /\
  (∀ f, f ∈ fs -> ∀ d, field_default nc path f = Some d -> covers (λ l, l ∈ leaves_of path f) d).
Proof.
  intros Hoks Hnd. split.
  - intros f Hf v q Hq. apply (de_node_covers nc f path v); [by apply Hoks| |done].
    by apply (NoDup_concat_map_block static_path (leaves_of path) fs).
  - intros f Hf d Hd. by apply (field_default_covers nc _ f); [apply Hoks|].
Qed.

(** C17. In any struct of the schema whose field keys are distinct and
    whose fields are well formed, a field absent from the struct's JSON
    object takes the value its [default] attribute gives: the default's
    entries are in the deserialized instance. *)
Theorem de_struct_missing_default nc path fs es p f d :
  NoDup (map field_key fs) -> Forall (λ f, node_ok f = true) fs ->
  NoDup (map static_path (concat (map (leaves_of path) fs))) ->
  f ∈ fs -> field_key f ∉ es.*1 -> field_default nc path f = Some d ->
  de_struct (field_des nc path fs) (Value.Object es) = Ok p -> d ⊆ p.
Proof.
  intros Hkeys Hoks Hnd. rewrite Forall_forall in Hoks.
  destruct (struct_fields_covers nc path fs Hoks Hnd) as [Hf Hd].
  eapply de_struct_default_subseteq; eassumption.
Qed.

(** The root struct [Pref] meets [node_ok]: checked by evaluation. *)
Lemma pref_root_ok :
  NoDup (map field_key gen.Pref) /\ ∀ f, f ∈ gen.Pref -> node_ok f = true.
Proof.
  apply (node_ok_group "" "Pref"). vm_compute. reflexivity.
Qed.

Lemma schema_leaves_concat : schema_leaves = concat (map (leaves_of []) gen.Pref).
Proof. reflexivity. Qed.

Lemma covers_prefs_wf p : covers (λ l, l ∈ schema_leaves) p -> prefs_wf p.
Proof. intros [H1 H2]. split; [exact H1|exact H2]. Qed.

(** A successful [load] yields every leaf of the schema, each with a value
    of its declared type, and nothing else. *)
Lemma load_covers nc v p : load nc v = Ok p -> prefs_wf p.
Proof.
  intros Hl. apply covers_prefs_wf. destruct pref_root_ok as [Hkeys Hoks].
  assert (Hnd : NoDup (map static_path (concat (map (leaves_of []) gen.Pref))))
    by (rewrite <-schema_leaves_concat; apply static_paths_unique).
  destruct (struct_fields_covers nc [] gen.Pref Hoks Hnd) as [Hf Hd].
  eapply covers_iff; [|exact (de_struct_covers nc [] gen.Pref Hkeys Hnd Hf Hd v p Hl)].
  intros l. by rewrite schema_leaves_concat, elem_of_concat_map.
Qed.

(** C16. The initialiser of [PREFS] either panics with [expect]'s message
    or builds a store whose instance has every field of the schema with a
    value of its declared type, and whose table is the generated one: the
    invariant the store's operations keep holds from the start. *)
Theorem init_prefs_wf nc parse_json resource :
  (exists s, init_prefs nc parse_json resource = Returned s /\ store_wf s) \/
  init_prefs nc parse_json resource = Panicked "Failed to initialize config preferences.".
Proof.
  unfold init_prefs, from_str_prefs.
  destruct (parse_json resource) as [v|m]; simpl; [|by right].
  destruct (load nc v) as [p|e] eqn:E; simpl; [left|by right].
  eexists. split; [done|]. split; [done|]. by apply (load_covers nc v).
Qed.

(** ** Unknown and duplicate keys *)

Lemma find_field_des_None nc path fs k :
  k ∉ map field_key fs -> List.find (λ f, String.eqb (fd_key f) k) (field_des nc path fs) = None.
Proof.
  unfold field_des. induction fs as [|f fs IH]; simpl; [done|]. rewrite elem_of_cons.
  destruct (String.eqb_spec (field_key f) k) as [<-|Hne]; [intros Hk; by destruct Hk; left|].
  intros Hk. apply IH. intros ?. apply Hk. by right.
Qed.

Lemma find_field_des_Some nc path fs k :
  k ∈ map field_key fs -> is_Some (List.find (λ f, String.eqb (fd_key f) k) (field_des nc path fs)).
Proof.
  unfold field_des. induction fs as [|f fs IH]; simpl; [by intros ?%elem_of_nil|].
  rewrite elem_of_cons. destruct (String.eqb_spec (field_key f) k) as [<-|Hne]; [by eexists|].
  intros [->|Hk]; [done|by apply IH].
Qed.

(** [visit_map] skips an entry whose key names no field. *)
Lemma visit_entries_skip fields seen acc e1 k v e2 :
  List.find (λ f, String.eqb (fd_key f) k) fields = None ->
  visit_entries fields seen acc (e1 ++ (k, v) :: e2) = visit_entries fields seen acc (e1 ++ e2).
Proof.
  revert seen acc; induction e1 as [|[k' v'] e1 IH]; intros seen acc Hf; simpl; [by rewrite Hf|].
  case_match; [|by apply IH]. case_bool_decide; [done|].
  destruct (fd_de _ v'); simpl; [by apply IH|done].
Qed.

(** Once a field's key has been seen, meeting it again is an error. *)
Lemma visit_entries_seen_again fields seen acc e2 k v e3 :
  is_Some (List.find (λ f, String.eqb (fd_key f) k) fields) -> k ∈ seen ->
  is_ok (visit_entries fields seen acc (e2 ++ (k, v) :: e3)) = false.
Proof.
  intros [f Hf]. revert seen acc; induction e2 as [|[k' v'] e2 IH]; intros seen acc Hk; simpl.
  - rewrite Hf. by rewrite bool_decide_true.
  - case_match; [|by apply IH]. case_bool_decide; [done|].
    destruct (fd_de _ v'); simpl; [apply IH; by right|done].
Qed.

Lemma visit_entries_duplicate fields seen acc e1 k v1 e2 v2 e3 :
  is_Some (List.find (λ f, String.eqb (fd_key f) k) fields) ->
  is_ok (visit_entries fields seen acc (e1 ++ (k, v1) :: e2 ++ (k, v2) :: e3)) = false.
Proof.
  intros Hs. revert seen acc; induction e1 as [|[k' v'] e1 IH]; intros seen acc; simpl.
  - destruct Hs as [f Hf]. rewrite Hf. case_bool_decide; [done|].
    destruct (fd_de f v1); simpl; [|done]. apply visit_entries_seen_again; [by exists f|by left].
  - case_match; [|by apply IH]. case_bool_decide; [done|].
    destruct (fd_de _ v'); simpl; [by apply IH|done].
Qed.

(** C31. [mod gen] has no [deny_unknown_fields]: an entry of the defaults
    resource whose key names no field of [Prefs] is skipped, and the
    resource loads exactly as it would without that entry. *)
Theorem load_unknown_key_ignored nc e1 k v e2 :
  k ∉ map field_key gen.Pref ->
  load nc (Value.Object (e1 ++ (k, v) :: e2)) = load nc (Value.Object (e1 ++ e2)).
Proof. intros Hk. unfold load, de_struct. by rewrite visit_entries_skip by by apply find_field_des_None. Qed.

(** C32. A defaults resource whose top-level object names a field of
    [Prefs] twice is refused by serde ([duplicate_field]), so the
    initialiser of [PREFS] panics with [expect]'s message. *)
Theorem init_prefs_duplicate_field nc parse_json resource e1 k v1 e2 v2 e3 :
  parse_json resource = Ok (Value.Object (e1 ++ (k, v1) :: e2 ++ (k, v2) :: e3)) ->
  k ∈ map field_key gen.Pref ->
  init_prefs nc parse_json resource = Panicked "Failed to initialize config preferences.".
Proof.
  intros Hp Hk. unfold init_prefs, from_str_prefs. rewrite Hp. simpl. unfold load, de_struct.
  pose proof (visit_entries_duplicate (field_des nc [] gen.Pref) [] ∅ e1 k v1 e2 v2 e3
                (find_field_des_Some nc [] gen.Pref k Hk)) as Hd.
  by destruct (visit_entries _ _ _ _) as [[]|].
Qed.

(** ** Values of the wrong type *)

(** [visit_map] fails at an entry whose field refuses its value, unless
    it has failed before. *)
Lemma visit_entries_refused fields seen acc es k v fd :
  (k, v) ∈ es -> List.find (λ f, String.eqb (fd_key f) k) fields = Some fd ->
  is_ok (fd_de fd v) = false -> is_ok (visit_entries fields seen acc es) = false.
Proof.
  revert seen acc; induction es as [|[k' v'] es IH]; intros seen acc Hin Hf Hv;
    [by apply elem_of_nil in Hin|].
  simpl. apply elem_of_cons in Hin as [[= <- <-]|Hin].
  - rewrite Hf. case_bool_decide; [done|]. by destruct (fd_de fd v).
  - case_match; [|by apply IH]. case_bool_decide; [done|].
    destruct (fd_de _ v'); simpl; [by apply IH|done].
Qed.

(** In a struct with distinct keys, a field's key finds the field. *)
Lemma find_field_des_key nc path fs f :
  NoDup (map field_key fs) -> f ∈ fs ->
  exists fd, List.find (λ g, String.eqb (fd_key g) (field_key f)) (field_des nc path fs) = Some fd /\
             fd_de fd = de_node nc path f.
Proof.
  intros Hnd Hf. destruct (find_field_des_Some nc path fs (field_key f)) as [fd Hfd];
    [by apply list_elem_of_fmap_2|].
  exists fd. split; [done|]. destruct (find_field_des _ _ _ _ _ Hfd) as (f'&Hf'&Hk&->).
  by rewrite (NoDup_map_inj_on field_key fs f' f).
Qed.

Lemma de_struct_refused nc fs v :
  refused fs v -> ∀ path, NoDup (map field_key fs) -> (∀ f, f ∈ fs -> node_ok f = true) ->
  is_ok (de_struct (field_des nc path fs) v) = false.
Proof.
  induction 1 as [fs es id ty d r v Hf Hin Hv|fs es id s gs v Hf Hin _ IH];
    intros path Hnd Hoks; destruct (find_field_des_key nc path fs _ Hnd Hf) as (fd&Hfd&Hde);
    (enough (H : is_ok (visit_entries (field_des nc path fs) [] ∅ es) = false)
       by (simpl; by destruct (visit_entries _ _ _ _))).
  - apply (visit_entries_refused _ _ _ _ _ v fd Hin Hfd). rewrite Hde. simpl.
    by destruct (de_value ty v).
  - apply (visit_entries_refused _ _ _ _ _ v fd Hin Hfd). rewrite Hde, de_node_group.
    destruct (proj1 (node_ok_group id s gs) (Hoks _ Hf)) as [Hk Hok]. by apply IH.
Qed.

(** C20. A defaults resource that holds, at some field of [Prefs]
    (inside the objects of the structs that lead to it), a value the
    field's declared type does not accept fails to load, and the
    initialiser of [PREFS] panics with [expect]'s message: the derived
    deserializer neither coerces such a value nor skips the field, however
    many other fields load (spec 4.4: "failing the entire load if any
    present key's value cannot be coerced"). *)
Theorem init_prefs_refused nc parse_json resource doc :
  parse_json resource = Ok doc -> refused gen.Pref doc ->
  init_prefs nc parse_json resource = Panicked "Failed to initialize config preferences.".
Proof.
  intros Hp Hr. unfold init_prefs, from_str_prefs, load. rewrite Hp. simpl.
  destruct pref_root_ok as [Hkeys Hoks].
  pose proof (de_struct_refused nc gen.Pref doc Hr [] Hkeys Hoks) as H.
  by destruct (de_struct _ doc).
Qed.

(** ** Serialize, then deserialize *)

Lemma find_key_NoDup (fields : list FieldDe) f :
  NoDup (map fd_key fields) -> f ∈ fields ->
  List.find (λ g, String.eqb (fd_key g) (fd_key f)) fields = Some f.
Proof.
  induction fields as [|g fields IH]; simpl; [by intros _ ?%elem_of_nil|].
  intros [Hg Hnd]%NoDup_cons. rewrite elem_of_cons.
  destruct (String.eqb_spec (fd_key g) (fd_key f)) as [He|Hne].
  - intros [->|Hf]; [done|]. destruct Hg. rewrite He. by apply list_elem_of_fmap_2.
  - intros [->|Hf]; [done|]. by apply IH.
Qed.

Lemma fill_missing_all fields seen acc :
  (∀ f, f ∈ fields -> fd_key f ∈ seen) -> fill_missing fields seen acc = Ok acc.
Proof.
  induction fields as [|f fields IH]; intros Hs; simpl; [done|].
  rewrite bool_decide_true by (apply Hs; by left). apply IH. intros g Hg. apply Hs. by right.
Qed.

(** [visit_map] on the entries of the fields [suf] of [fields], in order,
    does what [visit_seq] does on their values. *)
Lemma visit_entries_in_order fields seen acc suf vs :
  NoDup (map fd_key fields) -> (∀ f, f ∈ suf -> f ∈ fields) -> NoDup (map fd_key suf) ->
  (∀ f, f ∈ suf -> fd_key f ∉ seen) -> length vs = length suf ->
  visit_entries fields seen acc (zip (map fd_key suf) vs) =
  (p ← visit_seq suf acc vs; Ok (rev (map fd_key suf) ++ seen, p)).
Proof.
  intros Hnd. revert seen acc vs; induction suf as [|f suf IH]; intros seen acc [|v vs] Hsub Hnds Hseen Hl;
    simpl in *; try done.
  apply NoDup_cons in Hnds as [Hf Hnds].
  rewrite (find_key_NoDup fields f Hnd) by (apply Hsub; by left).
  rewrite bool_decide_false by (apply Hseen; by left).
  destruct (fd_de f v) as [p|e]; simpl; [|done].
  rewrite IH; [|intros g Hg; apply Hsub; by right|done| |lia].
  - destruct (visit_seq suf (p ∪ acc) vs); simpl; [by rewrite <-app_assoc|done].
  - intros g Hg. rewrite elem_of_cons. intros [Hk|Hk]; [|by apply (Hseen g); [right|]].
    apply Hf. rewrite <-Hk. by apply list_elem_of_fmap_2.
Qed.

(** A struct written as the object of all its fields in declaration order
    is read as from the array of their values. *)
Lemma de_struct_object_array (fields : list FieldDe) vs :
  NoDup (map fd_key fields) -> length vs = length fields ->
  de_struct fields (Value.Object (zip (map fd_key fields) vs)) = visit_seq fields ∅ vs.
Proof.
  intros Hnd Hl. simpl. rewrite visit_entries_in_order; [|done|done|done|set_solver|done].
  destruct (visit_seq fields ∅ vs); simpl; [|done].
  apply fill_missing_all. intros f Hf. rewrite app_nil_r.
  apply list_elem_of_In, in_rev. rewrite rev_involutive. apply list_elem_of_In.
  by apply list_elem_of_fmap_2.
Qed.

(** A leaf value written by [to_value] is read back by its type's
    deserializer. *)
Lemma de_value_to_json ty pv :
  shape_matches ty pv = true -> PrefValue.wf pv = true ->
  de_value ty (PrefValue.to_json_value pv) = Ok pv.
Proof.
  destruct ty as [| | | |k], pv as [b|i|b|str|vs]; intros Hs Hwf; try discriminate Hs.
  - reflexivity.
  - cbn [PrefValue.to_json_value]. unfold Number.from_i64. destruct (i <? 0); [reflexivity|].
    cbn [PrefValue.wf] in Hwf. unfold in_i64 in Hwf. cbn [de_value Number.as_i64].
    rewrite (proj2 (Z.leb_le _ _)) by lia. reflexivity.
  - cbn [PrefValue.wf] in Hwf. apply andb_prop in Hwf as [_ Hf].
    cbn [PrefValue.to_json_value]. unfold Number.from_f64. rewrite Hf. reflexivity.
  - reflexivity.
  - cbn [shape_matches] in Hs. apply andb_prop in Hs as [Hk%Nat.eqb_eq Hfl].
    cbn [PrefValue.to_json_value de_value]. rewrite length_map, Hk, Nat.eqb_refl.
    cbn [PrefValue.wf] in Hwf. clear Hk.
    assert (Hm : mapM (λ x, match x with
                            | Value.Number n => Ok (PrefValue.Float (unwrap (Number.as_f64 n)))
                            | _ => Err InvalidType
                            end) (map PrefValue.to_json_value vs) = Ok vs).
    { induction vs as [|x vs IH]; [reflexivity|]. cbn [forallb] in Hfl, Hwf.
      apply andb_prop in Hfl as [Hx Hfl]. apply andb_prop in Hwf as [Hwx Hwf].
      destruct x as [| |b| |]; try discriminate Hx. cbn [PrefValue.wf] in Hwx.
      apply andb_prop in Hwx as [_ Hf].
      cbn [map PrefValue.to_json_value]. unfold Number.from_f64. rewrite Hf.
      cbn [mapM]. rewrite IH by done. reflexivity. }
    rewrite Hm. reflexivity.
Qed.

(** The leaves of a field all have values of their types in [p]. *)
Definition leaves_ok (p : Prefs) (ls : list LeafInfo) : Prop :=
  ∀ l, l ∈ ls -> shape_matches (leaf_ty l) (p !!! static_path l) = true /\
                 PrefValue.wf (p !!! static_path l) = true.

Lemma visit_seq_ser nc p prefix fs acc :
  (∀ f, f ∈ fs -> de_node nc prefix f (ser_node p prefix f) = Ok (sub_node p prefix f)) ->
  visit_seq (field_des nc prefix fs) acc (map (ser_node p prefix) fs) =
  Ok (foldl (λ acc f, sub_node p prefix f ∪ acc) acc fs).
Proof.
  revert acc. induction fs as [|f fs IH]; intros acc Hde; [done|]. simpl.
  rewrite (Hde f) by (by left). simpl. apply IH. intros g Hg. apply Hde. by right.
Qed.

(** A struct whose fields are read back is read back. *)
Lemma de_struct_ser nc p prefix fs :
  NoDup (map field_key fs) ->
  (∀ f, f ∈ fs -> de_node nc prefix f (ser_node p prefix f) = Ok (sub_node p prefix f)) ->
  de_struct (field_des nc prefix fs) (Value.Object (map (λ f, (field_key f, ser_node p prefix f)) fs)) =
  Ok (foldl (λ acc f, sub_node p prefix f ∪ acc) ∅ fs).
Proof.
  intros Hnd Hde.
  assert (Hk : map fd_key (field_des nc prefix fs) = map field_key fs)
    by (unfold field_des; by rewrite map_map).
  assert (Hz : map (λ f, (field_key f, ser_node p prefix f)) fs =
               zip (map fd_key (field_des nc prefix fs)) (map (ser_node p prefix) fs)).
  { rewrite Hk. clear. induction fs as [|f fs IH]; simpl; by f_equal. }
  rewrite Hz, de_struct_object_array; [by apply visit_seq_ser|by rewrite Hk|].
  unfold field_des. by rewrite !length_map.
Qed.

Lemma ser_node_group p prefix id s fs :
  ser_node p prefix (Group id s fs) =
  Value.Object (map (λ f, (field_key f, ser_node p (prefix ++ [id]) f)) fs).
Proof. reflexivity. Qed.

(** Every field of the schema written by [to_value] is read back as its
    leaves with their values. *)
Lemma de_node_ser nc p n :
  ∀ prefix, node_ok n = true -> leaves_ok p (leaves_of prefix n) ->
  de_node nc prefix n (ser_node p prefix n) = Ok (sub_node p prefix n).
Proof.
  induction n as [id ty d r|id s fs IH] using Node_ind; intros prefix Hok Hl.
  - cbn [de_node ser_node sub_node]. destruct (Hl {| leaf_path := prefix ++ [id]; leaf_ty := ty;
                                                     leaf_default := d; leaf_rename := r |})
      as [Hs Hw]; [by left|].
    by rewrite de_value_to_json by done.
  - rewrite de_node_group, ser_node_group. apply node_ok_group in Hok as [Hkeys Hoks].
    rewrite leaves_of_group in Hl. apply list_all_Forall in IH. rewrite Forall_forall in IH.
    apply de_struct_ser; [done|]. intros f Hf. apply IH; [done|by apply Hoks|].
    intros l Hl'. apply Hl, elem_of_concat_map. by exists f.
Qed.

(** The fields' [sub_node]s merged as [visit_seq] merges them have a
    value at the leaves of the fields, [p]'s. *)
Lemma foldl_sub_node_lookup p prefix fs acc A :
  Forall (λ f, ∀ k, sub_node p prefix f !! k =
    if bool_decide (k ∈ map static_path (leaves_of prefix f)) then Some (p !!! k) else None) fs ->
  (∀ k, acc !! k = if bool_decide (k ∈ A) then Some (p !!! k) else None) ->
  ∀ k, foldl (λ acc f, sub_node p prefix f ∪ acc) acc fs !! k =
    if bool_decide (k ∈ A ++ map static_path (concat (map (leaves_of prefix) fs)))
    then Some (p !!! k) else None.
Proof.
  intros Hfs. revert acc A. induction Hfs as [|f fs Hf _ IH]; intros acc A Hacc k;
    cbn [foldl concat map]; [by rewrite app_nil_r|].
  rewrite (IH (sub_node p prefix f ∪ acc) (A ++ map static_path (leaves_of prefix f))).
  - by rewrite map_app, app_assoc.
  - intros k'. rewrite lookup_union, Hf, Hacc.
    repeat case_bool_decide; first [done | exfalso; set_solver].
Qed.

(** Where [sub_node] has a value: at its leaves, [p]'s. *)
Lemma sub_node_lookup p n :
  ∀ prefix k, sub_node p prefix n !! k =
    if bool_decide (k ∈ map static_path (leaves_of prefix n)) then Some (p !!! k) else None.
Proof.
  induction n as [id ty d r|id s fs IH] using Node_ind; intros prefix k.
  - cbn [sub_node leaves_of map]. unfold static_path. simpl.
    destruct (decide (k = String.concat "." (prefix ++ [id]))) as [->|Hne].
    + rewrite lookup_singleton_eq, bool_decide_true; [done|by left].
    + rewrite lookup_singleton_ne by done. rewrite bool_decide_false; [done|].
      rewrite list_elem_of_singleton. done.
  - apply list_all_Forall in IH. rewrite leaves_of_group. cbn [sub_node].
    apply (foldl_sub_node_lookup p (prefix ++ [id]) fs ∅ []); [|intros k'; by rewrite lookup_empty].
    eapply Forall_impl; [exact IH|]. intros f Hf k'. apply Hf.
Qed.


(** ** Witnesses of the default-filling theorems *)

(** The [threads] and [legacy_layout] fields of [struct Layout]. *)
Definition threads_field : Node := Leaf "threads" TI64 (Some (DefaultPath "default_layout_threads")) None.
Definition legacy_layout_field : Node := Leaf "legacy_layout" TBool None None.

(** The [layout] object of a document that omits every field with a default. *)
Definition layout_entries : list (string * Value.t) :=
  match doc_of_node false (Group "layout" "Layout" gen.Layout) with
  | Some (_, Value.Object es) => es
  | _ => []
  end.

(** The instance deserialized from that object with eight CPUs. *)
Definition layout_loaded : Prefs :=
  match de_struct (field_des 8 ["layout"] gen.Layout) (Value.Object layout_entries) with
  | Ok p => p
  | Err _ => ∅
  end.

(** With eight CPUs, a [layout] object without [threads] yields
    [layout.threads = 6]. *)
Lemma de_struct_missing_default_witness :
  de_struct (field_des 8 ["layout"] gen.Layout) (Value.Object layout_entries) = Ok layout_loaded /\
  {["layout.threads" := PrefValue.Int 6]} ⊆ layout_loaded.
Proof.
  split; [reflexivity|].
  apply (de_struct_missing_default 8 ["layout"] gen.Layout layout_entries _ threads_field);
    first [reflexivity | decide_by_eval | apply (list_elem_of_lookup_2 _ 4); reflexivity].
Defined.

(** A [layout] object without [legacy_layout] fails to deserialize. *)
Lemma de_struct_missing_required_witness :
  is_ok (de_struct (field_des 8 ["layout"] gen.Layout)
           (Value.Object (filter (λ e, e.1 <> "legacy_layout") layout_entries))) = false.
Proof.
  apply (de_struct_missing_required 8 ["layout"] gen.Layout _ legacy_layout_field);
    first [decide_by_eval | apply (list_elem_of_lookup_2 _ 3); reflexivity | reflexivity].
Defined.

(** ** Witnesses of the unknown and duplicate key theorems *)

(** An entry ["no_such_group"] beside the [layout] object. *)
Lemma load_unknown_key_ignored_witness :
  load 8 (Value.Object ([] ++ ("no_such_group", Value.Null) :: [("layout", Value.Object layout_entries)])) =
  load 8 (Value.Object ([] ++ [("layout", Value.Object layout_entries)])).
Proof. apply load_unknown_key_ignored. decide_by_eval. Defined.

(** A resource naming [layout] twice. *)
Lemma init_prefs_duplicate_field_witness :
  init_prefs 8 (λ _, Ok (Value.Object ([] ++ ("layout", Value.Object layout_entries) ::
                                       [] ++ ("layout", Value.Object layout_entries) :: []))) "" =
  Panicked "Failed to initialize config preferences.".
Proof. apply (init_prefs_duplicate_field _ _ _ [] "layout" (Value.Object layout_entries) []
           (Value.Object layout_entries) []); [reflexivity|decide_by_eval]. Defined.

(** ** Witness of the wrong-type theorem *)

(** A resource whose [layout.threads] is the float [1.5]. *)
Definition float_threads_doc : Value.t :=
  Value.Object [("layout", Value.Object [("threads", Value.Number (Number.Float 0x3FF8000000000000))])].

Lemma init_prefs_refused_witness :
  init_prefs 8 (λ _, Ok float_threads_doc) "" = Panicked "Failed to initialize config preferences.".
Proof.
  apply (init_prefs_refused 8 (λ _, Ok float_threads_doc) "" float_threads_doc); [reflexivity|].
  apply (refused_group _ _ "layout" "Layout" gen.Layout
           (Value.Object [("threads", Value.Number (Number.Float 0x3FF8000000000000))]));
    [apply (list_elem_of_lookup_2 _ 6); reflexivity|by left|].
  apply (refused_leaf _ _ "threads" TI64 (Some (DefaultPath "default_layout_threads")) None
           (Value.Number (Number.Float 0x3FF8000000000000)));
    [apply (list_elem_of_lookup_2 _ 4); reflexivity|by left|reflexivity].
Defined.

(** ** Witness of the round trip *)

