(* ===== verification/LazyInit.v ===== *)
(** * The lazy initialisation of [PREFS] under concurrent first accesses

    [lazy_static! { static ref PREFS: Preferences<'static, Prefs> = ... }]
    (prefs.rs lines 16-22) runs its initialiser on the first dereference,
    through [std::sync::Once::call_once]: the first thread to dereference
    runs it while later ones wait; when it returns, every dereference
    yields the one store it built; when it panics, the [Once] is poisoned
    and every later dereference panics with the poison message.
    [pref_map()] (lines 54-56) and the macros dereference [PREFS].

    The [Once] and the threads' first dereference are a step relation
    ([lazy_step], an inductive relation) over a world holding the [Once]
    state, where each thread stands, and how many times the initialiser
    has been started.  The initialiser is [Loader.init_prefs] on the
    resource.  The [Once] is modelled from the standard library's
    documentation. *)

From S2P Require Import Prelude Float64 Json PrefValue StoreSpec Schema Store Loader.

(** [std::sync::Once] with the value it guards. *)
Inductive OnceState : Type :=
| Incomplete
| Running (t : nat)
| Complete (s : Preferences)
| Poisoned.

(** Where a thread stands in its dereference of [PREFS]. *)
Inductive Access : Type :=
| Deref
| Initialising
| Got (s : Preferences)
| Died (msg : string).

Record LazyWorld : Type := {
  once : OnceState;
  accesses : list Access;
  runs : nat;
}.

(** The panic message of [call_once] on a poisoned [Once]. *)
Definition poison_msg : string := "Once instance has previously been poisoned".

(** [n] threads about to dereference [PREFS] for the first time. *)
Definition lazy_init (n : nat) : LazyWorld :=
  {| once := Incomplete; accesses := replicate n Deref; runs := 0 |}.

Section Lazy.

(** The outcome of the initialiser's body. *)
Variable init : outcome Preferences.

Inductive lazy_step : LazyWorld -> LazyWorld -> Prop :=
| ls_start w t :
    accesses w !! t = Some Deref -> once w = Incomplete ->
    lazy_step w {| once := Running t; accesses := <[t := Initialising]> (accesses w);
                   runs := S (runs w) |}
| ls_ready w t s :
    accesses w !! t = Some Deref -> once w = Complete s ->
    lazy_step w {| once := once w; accesses := <[t := Got s]> (accesses w); runs := runs w |}
| ls_poisoned w t :
    accesses w !! t = Some Deref -> once w = Poisoned ->
    lazy_step w {| once := once w; accesses := <[t := Died poison_msg]> (accesses w);
                   runs := runs w |}
| ls_done w t s :
    accesses w !! t = Some Initialising -> init = Returned s ->
    lazy_step w {| once := Complete s; accesses := <[t := Got s]> (accesses w); runs := runs w |}
| ls_panic w t msg :
    accesses w !! t = Some Initialising -> init = Panicked msg ->
    lazy_step w {| once := Poisoned; accesses := <[t := Died msg]> (accesses w); runs := runs w |}.

(** What each [Once] state allows of the threads. *)
Definition lazy_inv (w : LazyWorld) : Prop :=
  match once w with
  | Incomplete => runs w = 0%nat /\ ∀ t a, accesses w !! t = Some a -> a = Deref
  | Running u =>
      runs w = 1%nat /\ accesses w !! u = Some Initialising /\
      ∀ t a, accesses w !! t = Some a -> t <> u -> a = Deref
  | Complete s =>
      runs w = 1%nat /\ init = Returned s /\
      ∀ t a, accesses w !! t = Some a -> a = Deref \/ a = Got s
  | Poisoned =>
      runs w = 1%nat /\ (exists m, init = Panicked m) /\
      ∀ t a, accesses w !! t = Some a ->
        a = Deref \/ a = Died poison_msg \/ exists m, init = Panicked m /\ a = Died m
  end.

Lemma lazy_inv_init n : lazy_inv (lazy_init n).
Proof.
  split; [done|]. intros t a Ha. simpl in Ha.
  by apply lookup_replicate in Ha as [-> _].
Qed.

(** Lookups after one thread's access is replaced. *)
Lemma lookup_insert_cases (l : list Access) t u a b :
  <[t := b]> l !! u = Some a -> (u = t /\ a = b) \/ (u <> t /\ l !! u = Some a).
Proof. intros [(->&->&_)|(?&?)]%list_lookup_insert_Some; auto. Qed.

Ltac lazy_cases :=
  match goal with
  | H : <[_ := _]> _ !! _ = Some _ |- _ => apply lookup_insert_cases in H as [[-> ->]|[? H]]
  end.

Lemma lazy_inv_step w w' : lazy_inv w -> lazy_step w w' -> lazy_inv w'.
Proof.
  intros Hinv Hs. destruct Hs as [w t Ht Ho|w t s Ht Ho|w t Ht Ho|w t s Ht Hi|w t msg Ht Hi];
    unfold lazy_inv in *; simpl; rewrite ?Ho in Hinv; rewrite ?Ho; simpl in Hinv |- *.
  - destruct Hinv as [Hr Hall]. split; [lia|]. split.
    + rewrite list_lookup_insert_eq; [done|]. by eapply lookup_lt_Some.
    + intros u a Hu Hne. lazy_cases; [done|]. by eapply Hall.
  - destruct Hinv as (Hr&Hi&Hall). split; [done|]. split; [done|].
    intros u a Hu. lazy_cases; [by right|]. by eapply Hall.
  - destruct Hinv as (Hr&Hi&Hall). split; [done|]. split; [done|].
    intros u a Hu. lazy_cases; [by right; left|]. by eapply Hall.
  - destruct (once w) as [|u|v|]; destruct Hinv as [Hr Hinv]; [by discriminate (Hinv _ _ Ht)| |
      destruct Hinv as [_ Hall]; by destruct (Hall _ _ Ht)|
      destruct Hinv as [_ Hall]; by destruct (Hall _ _ Ht) as [|[|(?&?&?)]]].
    destruct Hinv as [Hu Hall]. destruct (decide (t = u)) as [<-|Hne]; [|by discriminate (Hall _ _ Ht Hne)].
    split; [done|]. split; [done|]. intros u' a Hu'. lazy_cases; [by right|]. left. by apply (Hall u').
  - destruct (once w) as [|u|v|]; destruct Hinv as [Hr Hinv]; [by discriminate (Hinv _ _ Ht)| |
      destruct Hinv as [_ Hall]; by destruct (Hall _ _ Ht)|
      destruct Hinv as [_ Hall]; by destruct (Hall _ _ Ht) as [|[|(?&?&?)]]].
    destruct Hinv as [Hu Hall]. destruct (decide (t = u)) as [<-|Hne]; [|by discriminate (Hall _ _ Ht Hne)].
    split; [done|]. split; [by exists msg|]. intros u' a Hu'.
    lazy_cases; [right; right; by exists msg|]. left. by apply (Hall u').
Qed.

Lemma lazy_inv_reach n w : rtc lazy_step (lazy_init n) w -> lazy_inv w.
Proof.
  intros Hr. generalize (lazy_inv_init n). induction Hr as [|w1 w2 w3 Hs _ IH]; [done|].
  intros Hi. apply IH. by eapply lazy_inv_step.
Qed.

(** A thread holds a store only once the initialiser has returned it. *)
Lemma lazy_inv_got w t s : lazy_inv w -> accesses w !! t = Some (Got s) -> init = Returned s.
Proof.
  unfold lazy_inv. intros Hinv Ht. destruct (once w) as [|u|v|]; destruct Hinv as [_ Hinv].
  - by discriminate (Hinv _ _ Ht).
  - destruct Hinv as [Hu Hall]. destruct (decide (t = u)) as [->|Hne]; [congruence|].
    by discriminate (Hall _ _ Ht Hne).
  - destruct Hinv as [Hi Hall]. by destruct (Hall _ _ Ht) as [|[= <-]].
  - destruct Hinv as [_ Hall]. by destruct (Hall _ _ Ht) as [|[|(?&?&?)]].
Qed.

End Lazy.

(** ** [PREFS] is initialised once, and everyone sees the same store *)

(** What the initialiser of [PREFS] can produce: a well-formed store, or
    [expect]'s panic. *)
Lemma init_prefs_outcome nc parse_json resource :
  (∀ s, init_prefs nc parse_json resource = Returned s -> store_wf s) /\
  (∀ m, init_prefs nc parse_json resource = Panicked m ->
        m = "Failed to initialize config preferences.").
Proof.
  unfold init_prefs, from_str_prefs.
  destruct (parse_json resource) as [v|e]; simpl; [|split; [done|by intros m [= <-]]].
  destruct (load nc v) as [p|e] eqn:E; simpl; [|split; [done|by intros m [= <-]]].
  split; [|done]. intros s [= <-]. split; [done|]. by apply (load_covers nc v).
Qed.

(** Every thread that obtains [PREFS] obtains the one store the
    initialiser built, and that store is well formed; a thread whose
    access panicked did so with [expect]'s message (the thread that ran
    the failing initialiser) or with the poisoned [Once]'s message (every
    thread after it): a defaults resource that fails to load panics the
    threads that use [PREFS], not the process. *)
Lemma prefs_shared_or_poisoned nc parse_json resource n w :
  rtc (lazy_step (init_prefs nc parse_json resource)) (lazy_init n) w ->
  (∀ t s, accesses w !! t = Some (Got s) ->
     init_prefs nc parse_json resource = Returned s /\ store_wf s) /\
  (∀ t m, accesses w !! t = Some (Died m) ->
     m = "Failed to initialize config preferences." \/ m = poison_msg).
Proof.
  intros Hr%lazy_inv_reach. destruct (init_prefs_outcome nc parse_json resource) as [Hwf Hmsg].
  split; [intros t x Ht; pose proof (lazy_inv_got _ _ _ _ Hr Ht); by split; [|apply Hwf]|].
  unfold lazy_inv in Hr. intros t x Ht.
  destruct (once w) as [|u0|v|]; destruct Hr as [_ Hr].
  - by discriminate (Hr _ _ Ht).
  - destruct Hr as [Hu Hall]. destruct (decide (t = u0)) as [->|Hne]; [congruence|].
    by discriminate (Hall _ _ Ht Hne).
  - destruct Hr as [_ Hall]. by destruct (Hall _ _ Ht).
  - destruct Hr as [_ Hall]. destruct (Hall _ _ Ht) as [|[[= ->]|(m&Hm&[= ->])]]; [done|by right|].
    left. by apply Hmsg.
Qed.
