(* ===== verification/BulkApply.v ===== *)
(** * Applying user preferences: [set_all] and [add_user_prefs]

    [Preferences::set_all] (pref_util.rs, spec 4.3) applies its entries one
    at a time with [set] and stops at the first error, keeping what it has
    applied.  [add_user_prefs] (prefs.rs, lines 58-62) hands it the entries
    of a [HashMap] in the map's iteration order and panics on an error.
    Both are written over any store meeting the contract [PrefStoreLaws],
    and every theorem here is proved from the laws alone. *)

From S2P Require Import Prelude Float64 Json PrefValue StoreSpec.

Section BulkApply.
Context {St : Type} `{Hlaws : PrefStoreLaws St}.

(** [Preferences::set_all]: the state reached and the result. *)
Fixpoint set_all (s : St) (entries : list (string * PrefValue.t)) : St * Result () PrefError :=
  match entries with
  | [] => (s, Ok ())
  | (key, value) :: rest =>
      match store_set s key value with
      | Ok s' => set_all s' rest
      | Err e => (s, Err e)
      end
  end.

(** [add_user_prefs(prefs)]: [PREFS.set_all(prefs.into_iter())], and
    [panic!("Error setting preference: {:?}", error)] on an error; the store
    keeps the entries applied before the panic.  [debug] is [{:?}]. *)
Definition add_user_prefs (into_iter : hashmap_order) (debug : PrefError -> string)
    (s : St) (prefs : gmap string PrefValue.t) : St * outcome () :=
  let '(s', r) := set_all s (into_iter _ prefs) in
  match r with
  | Ok _ => (s', Returned ())
  | Err error => (s', Panicked ("Error setting preference: " +:+ debug error))
  end.

(** The value the last entry for [key] assigns, if any. *)
Fixpoint last_value (key : string) (entries : list (string * PrefValue.t)) : option PrefValue.t :=
  match entries with
  | [] => None
  | (k, v) :: rest =>
      match last_value key rest with
      | Some v' => Some v'
      | None => if String.eqb k key then Some v else None
      end
  end.

(** ** Lemmas *)

Lemma set_all_inv s l : store_inv s -> store_inv (set_all s l).1.
Proof.
  revert s; induction l as [|[k v] l IH]; intros s Hs; simpl; [done|].
  destruct (store_set s k v) as [s1|e] eqn:E; simpl; [|done].
  apply IH. by eapply store_set_inv.
Qed.

Lemma set_all_app s l1 l2 :
  set_all s (l1 ++ l2) =
  match set_all s l1 with
  | (s1, Ok _) => set_all s1 l2
  | (s1, Err e) => (s1, Err e)
  end.
Proof.
  revert s; induction l1 as [|[k v] l1 IH]; intros s; simpl; [done|].
  destruct (store_set s k v); [apply IH|done].
Qed.

(** Acceptance of a [set] is the same in any two states that keep the
    invariant. *)
Lemma is_ok_set_stable s s' k v :
  store_inv s -> store_inv s' -> is_ok (store_set s k v) = is_ok (store_set s' k v).
Proof.
  intros Hs Hs'. destruct (store_set s k v) as [|e] eqn:E1, (store_set s' k v) as [|e'] eqn:E2;
    simpl; [done| | |done]; exfalso.
  - apply (store_set_err_stable s' s k v e' Hs' Hs) in E2. congruence.
  - apply (store_set_err_stable s s' k v e Hs Hs') in E1. congruence.
Qed.

Lemma last_value_None k l : k ∉ l.*1 -> last_value k l = None.
Proof.
  induction l as [|[k0 v0] l IH]; simpl; [done|].
  rewrite elem_of_cons. intros Hnot.
  rewrite IH by (intros ?; apply Hnot; by right).
  assert (k <> k0) by (intros ?; apply Hnot; by left).
  destruct (String.eqb_spec k0 k); [congruence|done].
Qed.

(** On entries with distinct keys, [last_value] finds the entry's value. *)
Lemma last_value_NoDup k v l :
  NoDup l.*1 -> last_value k l = Some v <-> (k, v) ∈ l.
Proof.
  revert v; induction l as [|[k0 v0] l IH]; simpl; intros v Hnd.
  - split; [done|by intros ?%elem_of_nil].
  - apply NoDup_cons in Hnd as [Hk0 Hnd]. rewrite elem_of_cons.
    destruct (last_value k l) as [v'|] eqn:E.
    + split.
      * intros [= <-]. right. by apply IH.
      * intros [[= -> ->]|Hin].
        -- exfalso. apply Hk0, (list_elem_of_fmap_2 fst l (k0, v')). by apply IH.
        -- apply IH in Hin; [congruence|done].
    + destruct (String.eqb_spec k0 k) as [<-|Hne].
      * split; [intros [= ->]; auto|]. intros [[= ->]|Hin]; [done|].
        apply IH in Hin; [congruence|done].
      * split; [done|]. intros [[= -> _]|Hin]; [done|]. apply IH in Hin; [congruence|done].
Qed.

(** ** Theorems *)

(** [set_all] stops at the first entry [set] refuses: the entries before
    it stay applied (no rollback), the refused entry and every later one
    are not applied, and the error is that entry's error. *)
Theorem set_all_first_error s l s' e :
  set_all s l = (s', Err e) ->
  exists l1 k v l2, l = l1 ++ (k, v) :: l2 /\ set_all s l1 = (s', Ok ()) /\
                    store_set s' k v = Err e.
Proof.
  revert s; induction l as [|[k v] l IH]; intros s; simpl; [done|].
  destruct (store_set s k v) as [s1|e'] eqn:E.
  - intros H. destruct (IH s1 H) as (l1&k'&v'&l2&->&H1&H2).
    exists ((k, v) :: l1), k', v', l2. simpl. rewrite E. auto.
  - intros [= <- <-]. exists [], k, v, l. auto.
Qed.

(** From a state that keeps the invariant, [set_all] succeeds exactly
    when [set] accepts each entry on its own. *)
Theorem set_all_Ok_iff s l :
  store_inv s ->
  (set_all s l).2 = Ok () <-> Forall (λ kv, is_ok (store_set s kv.1 kv.2) = true) l.
Proof.
  revert s; induction l as [|[k v] l IH]; intros s Hs; simpl.
  - split; [constructor|done].
  - rewrite Forall_cons. destruct (store_set s k v) as [s1|e] eqn:E; simpl.
    + assert (Hs1 : store_inv s1) by (by eapply store_set_inv).
      rewrite (IH s1 Hs1).
      rewrite (Forall_iff (λ kv, is_ok (store_set s1 kv.1 kv.2) = true) l
                 (λ kv, is_ok (store_set s kv.1 kv.2) = true))
        by (intros [k' v']; simpl; by rewrite (is_ok_set_stable s1 s)).
      split; [intros ?; split; [by rewrite E|done]|by intros [_ ?]].
    + split; [intros [=]|intros [Hk _]; by rewrite E in Hk].
Qed.

(** After a successful [set_all], each key holds the value of its last
    entry, and a key with no entry keeps its value. *)
Theorem set_all_get s l s' :
  store_inv s -> set_all s l = (s', Ok ()) ->
  ∀ k, store_get s' k = match last_value k l with Some v => Ok v | None => store_get s k end.
Proof.
  revert s; induction l as [|[k v] l IH]; intros s Hs; simpl; [by intros [= <-]|].
  destruct (store_set s k v) as [s1|e] eqn:E; [|done]. intros H k'.
  assert (Hs1 : store_inv s1) by (by eapply store_set_inv).
  rewrite (IH s1 Hs1 H k'). destruct (last_value k' l); [done|].
  destruct (String.eqb_spec k k') as [<-|Hne]; simpl.
  - exact (store_get_set_eq s s1 k v Hs E).
  - apply (store_get_set_ne s s1 k k' v Hs E). congruence.
Qed.

Section Order.
Variable into_iter : hashmap_order.
Hypothesis Horder : valid_order into_iter.

Lemma last_value_into_iter (m : gmap string PrefValue.t) k :
  last_value k (into_iter _ m) = m !! k.
Proof.
  apply option_eq. intros v.
  rewrite last_value_NoDup by (rewrite (Horder _ m); apply NoDup_fst_map_to_list).
  rewrite (Horder _ m). apply elem_of_map_to_list.
Qed.

(** C14. When [add_user_prefs] panics, the store keeps exactly the entries
    the [HashMap] yielded before the first one [set] refused, that entry and
    the later ones are not applied, and the panic message carries that
    entry's error: the user's file is applied partially, in an order the
    program does not choose (spec 4.3 and 8, fifth property; spec 9). *)
Theorem add_user_prefs_partial debug s m s' msg :
  add_user_prefs into_iter debug s m = (s', Panicked msg) ->
  exists l1 k v l2 e, into_iter _ m = l1 ++ (k, v) :: l2 /\
    set_all s l1 = (s', Ok ()) /\ store_set s' k v = Err e /\
    msg = "Error setting preference: " +:+ debug e.
Proof.
  unfold add_user_prefs. destruct (set_all s (into_iter _ m)) as [s1 [[]|e]] eqn:E; [done|].
  intros [= <- <-]. apply set_all_first_error in E as (l1&k&v&l2&Hl&H1&H2).
  exists l1, k, v, l2, e. auto.
Qed.

(** [add_user_prefs] returns exactly when [set] accepts every entry. *)
Lemma add_user_prefs_returned debug s m :
  store_inv s ->
  (add_user_prefs into_iter debug s m).2 = Returned () <->
  map_Forall (λ k v, is_ok (store_set s k v) = true) m.
Proof.
  intros Hs. unfold add_user_prefs.
  pose proof (set_all_Ok_iff s (into_iter _ m) Hs) as Hok.
  destruct (set_all s (into_iter _ m)) as [s' [[]|e]] eqn:E; simpl in *.
  - split; [|done]. intros _ k v Hkv.
    pose proof (proj1 (List.Forall_forall _ _) (proj1 Hok eq_refl) (k, v)) as Hin.
    apply Hin, list_elem_of_In. rewrite (Horder _ m). by apply elem_of_map_to_list.
  - split; [done|]. intros Hall.
    enough (Err e = Ok ()) by done. apply Hok, List.Forall_forall.
    intros [k v] Hin%list_elem_of_In. apply (Hall k v).
    rewrite (Horder _ m) in Hin. by apply elem_of_map_to_list.
Qed.

(** After [add_user_prefs] returns, each key holds the user's value. *)
Lemma add_user_prefs_values debug s m :
  store_inv s ->
  (add_user_prefs into_iter debug s m).2 = Returned () ->
  ∀ k, store_get (add_user_prefs into_iter debug s m).1 k =
       match m !! k with Some v => Ok v | None => store_get s k end.
Proof.
  intros Hs. unfold add_user_prefs.
  destruct (set_all s (into_iter _ m)) as [s' [[]|e]] eqn:E; simpl; [|done].
  intros _ k. rewrite (set_all_get s _ s' Hs E k). by rewrite last_value_into_iter.
Qed.

(** C15. [add_user_prefs] returns exactly when every entry of the map is
    accepted by [set], and then every key holds the user's value (or, if
    the map has none for it, its old value): the outcome does not depend on
    the order in which the [HashMap] yields its entries.  Otherwise it
    panics. *)
Theorem add_user_prefs_spec debug s m :
  store_inv s ->
  ((add_user_prefs into_iter debug s m).2 = Returned () <->
   map_Forall (λ k v, is_ok (store_set s k v) = true) m) /\
  ((add_user_prefs into_iter debug s m).2 = Returned () ->
   ∀ k, store_get (add_user_prefs into_iter debug s m).1 k =
        match m !! k with Some v => Ok v | None => store_get s k end).
Proof.
  intros Hs. split; [by apply add_user_prefs_returned|by apply add_user_prefs_values].
Qed.

End Order.

End BulkApply.
