(* ===== verification/Concurrency.v ===== *)
(** * The store under concurrent threads: the [RwLock] of [Preferences]

    [pref_util::Preferences] keeps the instance behind a
    [std::sync::RwLock] (spec 4.3, 5).  The macros of prefs.rs take its
    guards themselves: [pref!] (lines 27-34) takes a read guard, clones the
    field in the [map] closure and drops the guard when the closure
    returns; [set_pref!] (lines 39-45) takes the write guard, binds it to
    [lock], then evaluates [$value] and assigns the field while the guard is
    held.  [Preferences::get] and [set] look the key up in the immutable
    accessor table first and take the read or write guard only to run the
    getter or the setter.  [add_user_prefs] (lines 58-62) calls
    [set_all], which calls [set] once per entry, so each entry takes and
    drops the write guard on its own, and the first error ends the loop
    and makes the thread panic.

    Each operation a thread issues is expanded into the instructions its
    code performs ([expand]): guard acquisitions and releases, and the
    critical-section bodies, which are the sequential operations of
    Store.v.  A world holds the instance, the lock and the threads; [step]
    runs one instruction of one thread, and is undefined when the thread
    is blocked on the lock or has finished.  Any interleaving is a sequence
    of [step]s ([reach]).

    The lock follows [std::sync::RwLock]: a read guard is granted when no
    writer holds the lock, the write guard when nobody holds it, and a
    guard is released only by its holder.  A thread that asks for a guard
    the lock cannot grant waits; a thread that asks while holding the
    write guard itself waits forever (the standard library allows a
    deadlock or a panic there; the model takes the deadlock).  Lock
    poisoning is not modelled: no modelled critical section panics.

    This file holds the model, the lock invariant, the exclusion of
    critical sections (C21) and the schedules the witnesses run;
    ConcurrencyProgress.v, ConcurrencyRefine.v and ConcurrencyBulk.v prove
    the rest over the same [step]. *)

From S2P Require Import Prelude Float64 Json PrefValue StoreSpec Schema Store BulkApply.

(** Threads are numbered by their position in the world. *)
Abbreviation tid := nat.

(** [std::sync::RwLock]'s state: the holder of the write guard, and the
    holders of read guards (one entry per guard). *)
Record RwLock : Type := {
  writer : option tid;
  readers : list tid;
}.

Definition unlocked : RwLock := {| writer := None; readers := [] |}.

(** The value expression [$value] of [set_pref!]: a constant, or a read of
    another preference with [pref!]. *)
Inductive ValueExpr : Type :=
| Const (v : PrefValue.t)
| ReadPath (path : list string).

(** The operations a thread performs on the store. *)
Inductive Op : Type :=
| PrefOp (path : list string)                   (** [pref!(path)] *)
| SetPrefOp (path : list string) (e : ValueExpr) (** [set_pref!(path, e)] *)
| GetOp (key : string)                          (** [pref_map().get(key)] *)
| SetOp (key : string) (v : PrefValue.t)        (** [pref_map().set(key, v)] *)
| AddUserPrefsOp (prefs : list (string * PrefValue.t)).
  (** [add_user_prefs(prefs)], the map's entries in its iteration order *)

(** What a thread observes: the value of a [pref!], the result of a [get]
    or of a [set]. *)
Inductive Obs : Type :=
| ORead (v : PrefValue.t)
| OGet (key : string) (r : Result PrefValue.t PrefError)
| OSet (key : string) (r : Result () PrefError)
| OPanic (e : PrefError).  (** [add_user_prefs] panicked with [set_all]'s error *)

(** The steps of an operation's code. *)
Inductive Instr : Type :=
| AcqRead                        (** [values.read()] *)
| RelRead                        (** the read guard dropped *)
| AcqWrite                       (** [values.write().unwrap()] *)
| RelWrite                       (** the write guard dropped *)
| ReadOut (path : list string)   (** [pref!]'s [prefs.seg.clone()], returned *)
| LoadPath (path : list string)  (** [pref!] as [$value]: the clone into the register *)
| SetReg (v : PrefValue.t)       (** a constant [$value] into the register *)
| StorePath (path : list string) (** [lock.seg = value] from the register *)
| CallGet (key : string)         (** the getter, under the read guard *)
| CallSet (key : string) (v : PrefValue.t) (** the setter, under the write guard *)
| Emit (o : Obs)                 (** a result returned without the lock *)
| StopOnErr.                     (** [set_all] stops at an error; [add_user_prefs] panics *)

(** A thread: the operations it has still to issue, the code of the
    current one, its register (the value [$value] evaluated to) and what
    it has observed (newest first).  A [pref!]'s value is observed when
    it is cloned; the guard is dropped next. *)
Record Thread : Type := {
  ops : list Op;
  code : list Instr;
  reg : option PrefValue.t;
  log : list Obs;
}.

Record World : Type := {
  mem : Preferences;
  lock : RwLock;
  threads : list Thread;
}.

(** [$value] of [set_pref!]: a [pref!] takes its own read guard. *)
Definition expand_value (e : ValueExpr) : list Instr :=
  match e with
  | Const v => [SetReg v]
  | ReadPath q => [AcqRead; LoadPath q; RelRead]
  end.

(** [Preferences::set]: the table is consulted before any guard, and an
    unknown key is [NoSuchPref] without locking. *)
Definition set_code (acc : gmap string Accessor) (key : string) (v : PrefValue.t) : list Instr :=
  if is_some (acc !! key) then [AcqWrite; CallSet key v; RelWrite]
  else [Emit (OSet key (Err (NoSuchPref key)))].

(** The code of an operation.  [get] consults the table like [set];
    [set_all] runs [set] on each entry in turn, checking its result. *)
Definition expand (acc : gmap string Accessor) (op : Op) : list Instr :=
  match op with
  | PrefOp q => [AcqRead; ReadOut q; RelRead]
  | SetPrefOp p e => AcqWrite :: expand_value e ++ [StorePath p; RelWrite]
  | GetOp key =>
      if is_some (acc !! key) then [AcqRead; CallGet key; RelRead]
      else [Emit (OGet key (Err (NoSuchPref key)))]
  | SetOp key v => set_code acc key v
  | AddUserPrefsOp es => concat (map (λ kv, set_code acc kv.1 kv.2 ++ [StopOnErr]) es)
  end.

(** The error of the [set] just returned, if it failed. *)
Definition failed (lg : list Obs) : option PrefError :=
  match lg with
  | OSet _ (Err e) :: _ => Some e
  | _ => None
  end.

(** The code and operations left after an instruction: a panic ends the
    thread. *)
Definition next (i : Instr) (c : list Instr) (os : list Op) (lg : list Obs) : list Instr * list Op :=
  match i, failed lg with
  | StopOnErr, Some _ => ([], [])
  | _, _ => (c, os)
  end.

(** One guard of [t] released: the first entry of [t] among the readers. *)
Fixpoint remove_one (t : tid) (rs : list tid) : list tid :=
  match rs with
  | [] => []
  | r :: rs => if Nat.eqb r t then rs else r :: remove_one t rs
  end.

(** The lock's answer to an instruction of thread [t]: [None] when [t]
    must wait (or does not hold the guard it releases). *)
Definition lock_step (t : tid) (i : Instr) (l : RwLock) : option RwLock :=
  match i with
  | AcqRead =>
      match writer l with
      | None => Some {| writer := None; readers := t :: readers l |}
      | Some _ => None
      end
  | RelRead =>
      if bool_decide (t ∈ readers l)
      then Some {| writer := writer l; readers := remove_one t (readers l) |}
      else None
  | AcqWrite =>
      match writer l, readers l with
      | None, [] => Some {| writer := Some t; readers := [] |}
      | _, _ => None
      end
  | RelWrite =>
      if bool_decide (writer l = Some t)
      then Some {| writer := None; readers := readers l |}
      else None
  | _ => Some l
  end.

(** The effect of an instruction on the instance, the register and the
    log. *)
Definition exec (i : Instr) (m : Preferences) (r : option PrefValue.t) (lg : list Obs) :
    Preferences * option PrefValue.t * list Obs :=
  match i with
  | ReadOut q =>
      match pref m q with
      | Some v => (m, r, ORead v :: lg)
      | None => (m, r, lg)
      end
  | LoadPath q => (m, pref m q, lg)
  | SetReg v => (m, Some v, lg)
  | StorePath p =>
      match r ≫= set_pref m p with
      | Some m' => (m', r, lg)
      | None => (m, r, lg)
      end
  | CallGet key => (m, r, OGet key (get m key) :: lg)
  | CallSet key v =>
      match set m key v with
      | Ok m' => (m', r, OSet key (Ok ()) :: lg)
      | Err e => (m, r, OSet key (Err e) :: lg)
      end
  | Emit o => (m, r, o :: lg)
  | StopOnErr =>
      match failed lg with
      | Some e => (m, r, OPanic e :: lg)
      | None => (m, r, lg)
      end
  | _ => (m, r, lg)
  end.

(** One step of thread [t]: start its next operation, or run the first
    instruction of the current one.  [None]: [t] does not exist, has
    finished, or waits for the lock. *)
Definition step (w : World) (t : tid) : option World :=
  th ← threads w !! t;
  match code th with
  | [] =>
      match ops th with
      | [] => None
      | op :: rest =>
          Some {| mem := mem w; lock := lock w;
                  threads := <[t := {| ops := rest; code := expand (accessors (mem w)) op;
                                       reg := reg th; log := log th |}]> (threads w) |}
      end
  | i :: c =>
      l' ← lock_step t i (lock w);
      let '(m', r', lg') := exec i (mem w) (reg th) (log th) in
      let '(c', os') := next i c (ops th) (log th) in
      Some {| mem := m'; lock := l';
              threads := <[t := {| ops := os'; code := c'; reg := r'; log := lg' |}]> (threads w) |}
  end.

(** Some thread takes a step. *)
Definition step_any (w w' : World) : Prop := exists t, step w t = Some w'.

(** The worlds an interleaving reaches. *)
Abbreviation reach := (rtc step_any).

(** A thread that has issued nothing yet. *)
Definition fresh (prog : list Op) : Thread :=
  {| ops := prog; code := []; reg := None; log := [] |}.

(** The store shared by threads running [progs], the lock free. *)
Definition init (s : Preferences) (progs : list (list Op)) : World :=
  {| mem := s; lock := unlocked; threads := map fresh progs |}.

(** A thread has finished when it has neither code nor operations left. *)
Definition finished (th : Thread) : bool :=
  match code th, ops th with [], [] => true | _, _ => false end.

(** ** Guards held by a thread, read off its remaining code *)

(** Read guards the code still has to release, less those it has still to
    take: the read guards the thread holds. *)
Fixpoint held_read (c : list Instr) : Z :=
  match c with
  | [] => 0
  | AcqRead :: c => held_read c - 1
  | RelRead :: c => held_read c + 1
  | _ :: c => held_read c
  end.

Fixpoint held_write (c : list Instr) : Z :=
  match c with
  | [] => 0
  | AcqWrite :: c => held_write c - 1
  | RelWrite :: c => held_write c + 1
  | _ :: c => held_write c
  end.

(** The bodies that write the instance, and those that read it. *)
Definition body_writes (i : Instr) : bool :=
  match i with StorePath _ | CallSet _ _ => true | _ => false end.

Definition body_reads (i : Instr) : bool :=
  match i with ReadOut _ | LoadPath _ | CallGet _ => true | _ => false end.

(** Where the code stands in its guards: a writing body or a write guard's
    release holds the write guard; a reading body holds a read guard (and,
    for [set_pref!]'s value, the write guard); a read guard's release holds
    one read guard; [set_all] checks a result holding no guard. *)
Definition crit_ok (c : list Instr) : bool :=
  match c with
  | StorePath _ :: _ | CallSet _ _ :: _ | RelWrite :: _ => Z.eqb (held_write c) 1
  | ReadOut _ :: _ | CallGet _ :: _ | RelRead :: _ => Z.eqb (held_read c) 1
  | LoadPath _ :: _ => Z.eqb (held_read c) 1 && Z.eqb (held_write c) 1
  | StopOnErr :: _ => Z.eqb (held_read c) 0 && Z.eqb (held_write c) 0
  | _ => true
  end.

(** A panic ends the thread only where it holds no guard. *)
Lemma next_held i c os lg c' os' :
  crit_ok (i :: c) = true -> next i c os lg = (c', os') ->
  held_read c' = held_read c /\ held_write c' = held_write c.
Proof.
  unfold next. intros Hok Hn. destruct i; simplify_eq; try done;
    simpl in Hok; rewrite andb_true_iff, !Z.eqb_eq in Hok;
    destruct (failed lg); simplify_eq/=; lia.
Qed.

(** The read guards [t] holds according to the lock. *)
Fixpoint occ (t : tid) (rs : list tid) : Z :=
  match rs with
  | [] => 0
  | r :: rs => (if Nat.eqb r t then 1 else 0) + occ t rs
  end.

(** The write guards [t] holds according to the lock. *)
Definition wcount (t : tid) (l : RwLock) : Z :=
  match writer l with
  | Some u => if Nat.eqb u t then 1 else 0
  | None => 0
  end.

(** What thread [t]'s code says it holds; nothing for a missing thread. *)
Definition thread_held (f : list Instr -> Z) (w : World) (t : tid) : Z :=
  match threads w !! t with
  | Some th => f (code th)
  | None => 0
  end.

(** The lock invariant: the lock's bookkeeping is the threads' control
    points, and a writer excludes readers. *)
Record lock_inv (w : World) : Prop := {
  inv_readers : ∀ t, occ t (readers (lock w)) = thread_held held_read w t;
  inv_writer : ∀ t, wcount t (lock w) = thread_held held_write w t;
  inv_excl : writer (lock w) <> None -> readers (lock w) = [];
}.

(** ** Inversion of [step] *)

Lemma step_Some w t w' :
  step w t = Some w' ->
  exists th, threads w !! t = Some th /\
  ((code th = [] /\ exists op rest, ops th = op :: rest /\
      w' = {| mem := mem w; lock := lock w;
              threads := <[t := {| ops := rest; code := expand (accessors (mem w)) op;
                                   reg := reg th; log := log th |}]> (threads w) |}) \/
   (exists i c l', code th = i :: c /\ lock_step t i (lock w) = Some l' /\
      w' = {| mem := (exec i (mem w) (reg th) (log th)).1.1; lock := l';
              threads := <[t := {| ops := (next i c (ops th) (log th)).2;
                                   code := (next i c (ops th) (log th)).1;
                                   reg := (exec i (mem w) (reg th) (log th)).1.2;
                                   log := (exec i (mem w) (reg th) (log th)).2 |}]> (threads w) |})).
Proof.
  unfold step. destruct (threads w !! t) as [th|] eqn:Ht; cbn -[exec next]; [|done].
  intros Hs. exists th. split; [done|].
  destruct (code th) as [|i c] eqn:Hc.
  - left. split; [done|]. destruct (ops th) as [|op rest]; [done|]. injection Hs as <-. eauto.
  - right. destruct (lock_step t i (lock w)) as [l'|] eqn:Hl; cbn -[exec next] in Hs; [|done].
    destruct (exec i (mem w) (reg th) (log th)) as [[m' r'] lg'] eqn:He.
    destruct (next i c (ops th) (log th)) as [c' os'] eqn:Hn. injection Hs as <-.
    exists i, c, l'. rewrite He, Hn. auto.
Qed.

(** Lookups in the threads after thread [t] is replaced. *)
Lemma thread_held_insert f w t th th' m l :
  threads w !! t = Some th ->
  ∀ u, thread_held f {| mem := m; lock := l; threads := <[t := th']> (threads w) |} u =
       if Nat.eqb t u then f (code th') else thread_held f w u.
Proof.
  intros Ht u. unfold thread_held; simpl. destruct (Nat.eqb_spec t u) as [<-|Hne].
  - by rewrite list_lookup_insert_eq by (eapply lookup_lt_Some; eauto).
  - by rewrite list_lookup_insert_ne.
Qed.

Lemma occ_remove_one t u rs :
  0 < occ t rs -> occ u (remove_one t rs) = occ u rs - (if Nat.eqb t u then 1 else 0).
Proof.
  induction rs as [|r rs IH]; simpl; [lia|].
  destruct (Nat.eqb_spec r t) as [->|Hrt]; intros Hpos.
  - destruct (Nat.eqb_spec t u); lia.
  - simpl. rewrite IH by lia. destruct (Nat.eqb_spec r u), (Nat.eqb_spec t u); lia.
Qed.

Lemma occ_nonneg t rs : 0 <= occ t rs.
Proof. induction rs as [|r rs IH]; simpl; [lia|]. destruct (Nat.eqb r t); lia. Qed.

Lemma occ_elem_of t rs : t ∈ rs <-> 0 < occ t rs.
Proof.
  induction rs as [|r rs IH]; simpl.
  - rewrite elem_of_nil. lia.
  - rewrite elem_of_cons, IH. pose proof (occ_nonneg t rs).
    destruct (Nat.eqb_spec r t); [subst; lia|]. split; [intros [->|?]; [done|lia]|auto].
Qed.

(** ** The lock invariant holds in every reachable world *)

Lemma held_read_app c1 c2 : held_read (c1 ++ c2) = held_read c1 + held_read c2.
Proof. induction c1 as [|i c1 IH]; [done|]. destruct i; simpl; lia. Qed.

Lemma held_write_app c1 c2 : held_write (c1 ++ c2) = held_write c1 + held_write c2.
Proof. induction c1 as [|i c1 IH]; [done|]. destruct i; simpl; lia. Qed.

(** Each entry of [set_all] takes the guard it releases. *)
Lemma set_block_held acc k v :
  held_read (set_code acc k v ++ [StopOnErr]) = 0 /\ held_write (set_code acc k v ++ [StopOnErr]) = 0.
Proof. unfold set_code. case_match; simpl; lia. Qed.

(** An operation's code takes every guard it releases. *)
Lemma expand_held acc op :
  held_read (expand acc op) = 0 /\ held_write (expand acc op) = 0.
Proof.
  destruct op as [q|p [v|q]|k|k v|es]; simpl; try (unfold set_code; case_match); simpl; try lia.
  induction es as [|[k v] es IH]; simpl; [lia|].
  rewrite held_read_app, held_write_app. destruct (set_block_held acc k v). lia.
Qed.

(** The lock's bookkeeping for the stepping thread moves as its code says. *)
Lemma lock_step_self t i c l l' :
  lock_step t i l = Some l' ->
  occ t (readers l') = occ t (readers l) + (held_read c - held_read (i :: c)) /\
  wcount t l' = wcount t l + (held_write c - held_write (i :: c)).
Proof.
  unfold wcount. intros Hs. destruct i; simpl in Hs; try (simplify_eq/=; lia).
  - destruct (writer l); simplify_eq/=. rewrite Nat.eqb_refl. lia.
  - case_bool_decide as Hin; simplify_eq/=.
    rewrite occ_remove_one, Nat.eqb_refl by (by apply occ_elem_of). lia.
  - destruct (writer l), (readers l); simplify_eq/=. rewrite Nat.eqb_refl. lia.
  - case_bool_decide as Hw; simplify_eq/=. rewrite Hw, Nat.eqb_refl. lia.
Qed.

(** ... and does not move for the other threads. *)
Lemma lock_step_other t u i l l' :
  lock_step t i l = Some l' -> t <> u ->
  occ u (readers l') = occ u (readers l) /\ wcount u l' = wcount u l.
Proof.
  unfold wcount. intros Hs Hne. apply Nat.eqb_neq in Hne as Hne'.
  destruct i; simpl in Hs; try by simplify_eq.
  - destruct (writer l); simplify_eq/=. by rewrite Hne'.
  - case_bool_decide as Hin; simplify_eq/=.
    rewrite occ_remove_one, Hne' by (by apply occ_elem_of). lia.
  - destruct (writer l), (readers l); simplify_eq/=. by rewrite Hne'.
  - case_bool_decide as Hw; simplify_eq/=. by rewrite Hw, Hne'.
Qed.

Lemma lock_step_excl t i l l' :
  lock_step t i l = Some l' ->
  (writer l <> None -> readers l = []) -> writer l' <> None -> readers l' = [].
Proof.
  intros Hs Hex. destruct i; simpl in Hs; try by simplify_eq.
  - destruct (writer l); by simplify_eq/=.
  - case_bool_decide as Hin; simplify_eq/=. intros Hw.
    rewrite Hex in Hin by done. by apply elem_of_nil in Hin.
  - destruct (writer l), (readers l); by simplify_eq/=.
  - case_bool_decide; by simplify_eq/=.
Qed.

Lemma lock_inv_step w t w' :
  lock_inv w -> (∀ t th, threads w !! t = Some th -> crit_ok (code th) = true) ->
  step w t = Some w' -> lock_inv w'.
Proof.
  intros [Hr Hw Hex] Hok (th&Ht&[(Hc&op&rest&Hops&->)|(i&c&l'&Hc&Hl&->)])%step_Some.
  - destruct (expand_held (accessors (mem w)) op) as [Er Ew].
    split; simpl; [| |done]; intros u; rewrite (thread_held_insert _ w t th) by done;
      destruct (Nat.eqb_spec t u) as [<-|]; simpl; auto.
    + rewrite Er, Hr. unfold thread_held. by rewrite Ht, Hc.
    + rewrite Ew, Hw. unfold thread_held. by rewrite Ht, Hc.
  - pose proof (Hok t th Ht) as Hk. rewrite Hc in Hk.
    destruct (next i c (ops th) (log th)) as [c' os'] eqn:Hn.
    destruct (next_held i c (ops th) (log th) c' os' Hk Hn) as [Hn1 Hn2].
    split; simpl; [| |by eapply lock_step_excl].
    + intros u. rewrite (thread_held_insert _ w t th) by done.
      destruct (Nat.eqb_spec t u) as [<-|Hne]; simpl.
      * rewrite Hn1.
        rewrite (proj1 (lock_step_self t i c _ _ Hl)), Hr. unfold thread_held.
        rewrite Ht, Hc. lia.
      * by rewrite (proj1 (lock_step_other t u i _ _ Hl Hne)).
    + intros u. rewrite (thread_held_insert _ w t th) by done.
      destruct (Nat.eqb_spec t u) as [<-|Hne]; simpl.
      * rewrite Hn2.
        rewrite (proj2 (lock_step_self t i c _ _ Hl)), Hw. unfold thread_held.
        rewrite Ht, Hc. lia.
      * by rewrite (proj2 (lock_step_other t u i _ _ Hl Hne)).
Qed.

Lemma lock_inv_init s progs : lock_inv (init s progs).
Proof.
  split; simpl; [| |done]; intros u; unfold thread_held; simpl;
    rewrite list_lookup_fmap; by destruct (progs !! u).
Qed.

(** Invariants of [step] hold along interleavings. *)
Lemma reach_ind (P : World -> Prop) w w' :
  (∀ w t w', P w -> step w t = Some w' -> P w') -> P w -> reach w w' -> P w'.
Proof. intros Hstep HP Hr. induction Hr as [|w1 w2 w3 [t Hs] _ IH]; [done|]. eauto. Qed.

(** ** The shape of a thread's code *)

(** The code of a thread is what is left of one operation's expansion;
    [P] is a property of the operations the programs issue. *)
Definition code_from (P : Op -> bool) (c : list Instr) : Prop :=
  c = [] \/ exists acc op n, P op = true /\ c = drop n (expand acc op).

Record shape_inv (P : Op -> bool) (w : World) : Prop := {
  shape_threads : ∀ t th, threads w !! t = Some th ->
    code_from P (code th) /\ Forall (λ op, P op = true) (ops th);
}.

(** [Q] holds of every suffix of a list. *)
Fixpoint all_suffixes (Q : list Instr -> bool) (c : list Instr) : bool :=
  Q c && match c with [] => true | _ :: c' => all_suffixes Q c' end.

Lemma drop_S_cons {A} n (l : list A) x c : drop n l = x :: c -> drop (S n) l = c.
Proof.
  revert n; induction l as [|y l IH]; intros [|n]; simpl; try done.
  - by intros [= -> ->].
  - apply IH.
Qed.

Lemma all_suffixes_drop Q l n : all_suffixes Q l = true -> Q (drop n l) = true.
Proof.
  revert n; induction l as [|x l IH]; intros n; simpl; rewrite andb_true_iff.
  - intros [HQ _]. by rewrite drop_nil.
  - intros [HQ Hl]. destruct n; simpl; auto.
Qed.

(** A check of the suffixes of every expansion holds of every thread's code. *)
Lemma code_from_check P (Q : list Instr -> bool) c :
  Q [] = true -> (∀ acc op, P op = true -> all_suffixes Q (expand acc op) = true) ->
  code_from P c -> Q c = true.
Proof.
  intros Hnil Hexp [->|(acc&op&n&HP&->)]; [done|]. by apply all_suffixes_drop, Hexp.
Qed.

Lemma shape_inv_step P w t w' : shape_inv P w -> step w t = Some w' -> shape_inv P w'.
Proof.
  intros [Hsh] (th&Ht&[(Hc&op&rest&Hops&->)|(i&c&l'&Hc&Hl&->)])%step_Some;
    split; intros u th' Hu; simpl in Hu;
    (apply list_lookup_insert_Some in Hu as [(<-&<-&_)|(_&Hu)]; [simpl|by eapply Hsh]).
  - destruct (Hsh t th Ht) as [_ Hf]. rewrite Hops in Hf. apply Forall_cons in Hf as [HP Hf].
    split; [|done]. right. by exists (accessors (mem w)), op, 0%nat.
  - destruct (Hsh t th Ht) as [[Hnil|(acc&op&n&HP&Hd)] Hf]; rewrite Hc in *; [done|].
    unfold next. destruct i, (failed (log th)); simpl; (split; [|done]);
      first [right; exists acc, op, (S n); split; [done|]; symmetry; by eapply drop_S_cons
            | by left].
Qed.

Lemma shape_inv_init P s progs :
  Forall (Forall (λ op, P op = true)) progs -> shape_inv P (init s progs).
Proof.
  intros Hprogs. split. intros t th. simpl. rewrite list_lookup_fmap.
  destruct (progs !! t) as [prog|] eqn:Hp; simpl; [|done]. intros [= <-]. split; [by left|].
  by eapply Forall_lookup_1.
Qed.

(** [Q] looks only at the first instruction and the guards held. *)
Definition guard_local (Q : list Instr -> bool) : Prop :=
  ∀ c l2, c <> [] -> held_read l2 = 0 -> held_write l2 = 0 -> Q (c ++ l2) = Q c.

Lemma all_suffixes_app Q l1 l2 :
  guard_local Q -> held_read l2 = 0 -> held_write l2 = 0 ->
  all_suffixes Q l1 = true -> all_suffixes Q l2 = true -> all_suffixes Q (l1 ++ l2) = true.
Proof.
  intros HQ Hr Hw. induction l1 as [|x l1 IH]; simpl; [done|].
  rewrite !andb_true_iff. intros [Hx Hl1] Hl2. split; [|by apply IH].
  pose proof (HQ (x :: l1) l2 ltac:(done) Hr Hw) as E. simpl in E. by rewrite E.
Qed.

(** A check that holds of each entry's code holds of [set_all]'s. *)
Lemma all_suffixes_set_all Q acc es :
  guard_local Q -> Q [] = true ->
  (∀ k v, all_suffixes Q (set_code acc k v ++ [StopOnErr]) = true) ->
  all_suffixes Q (expand acc (AddUserPrefsOp es)) = true.
Proof.
  intros HQ Hnil Hblock. induction es as [|[k v] es IH]; simpl; [by rewrite Hnil|].
  destruct (expand_held acc (AddUserPrefsOp es)) as [Hr Hw].
  by apply all_suffixes_app.
Qed.

Lemma held_app_nil c l2 :
  held_read l2 = 0 -> held_write l2 = 0 ->
  held_read (c ++ l2) = held_read c /\ held_write (c ++ l2) = held_write c.
Proof. rewrite held_read_app, held_write_app. lia. Qed.

Lemma crit_ok_local : guard_local crit_ok.
Proof.
  intros [|i c] l2 Hne Hr Hw; [done|]. destruct (held_app_nil (i :: c) l2 Hr Hw) as [Er Ew].
  simpl in *. by destruct i; rewrite ?Er, ?Ew.
Qed.

Lemma crit_ok_expand acc op : all_suffixes crit_ok (expand acc op) = true.
Proof.
  destruct op as [q|p [v|q]|k|k v|es]; try (simpl; unfold set_code; try case_match; reflexivity).
  apply all_suffixes_set_all; [apply crit_ok_local|done|].
  intros k v. unfold set_code. case_match; reflexivity.
Qed.

Lemma crit_ok_code P c : code_from P c -> crit_ok c = true.
Proof. apply code_from_check; [done|]. intros acc op _. apply crit_ok_expand. Qed.

Lemma Forall_Forall_true {A} (progs : list (list A)) :
  Forall (Forall (λ _, true = true)) progs.
Proof. apply Forall_forall. intros. by apply Forall_forall. Qed.

(** Both invariants along any interleaving from a store with the lock free. *)
Lemma reach_invariants P s progs w :
  Forall (Forall (λ op, P op = true)) progs -> reach (init s progs) w ->
  lock_inv w /\ shape_inv P w.
Proof.
  intros Hprogs. apply (reach_ind (λ w, lock_inv w /\ shape_inv P w)).
  - intros w1 t w2 [Hl Hs] Hst. split; [|by eapply shape_inv_step].
    eapply lock_inv_step; [done| |done]. intros u th Hu.
    by apply (crit_ok_code P), (shape_threads _ _ Hs u th Hu).
  - split; [apply lock_inv_init|by apply shape_inv_init].
Qed.

(** ** Critical sections *)

(** The thread a guard count of one names is the writer. *)
Lemma writer_of w u th :
  lock_inv w -> threads w !! u = Some th -> held_write (code th) = 1 -> writer (lock w) = Some u.
Proof.
  intros [_ Hw _] Hu Hh. specialize (Hw u). unfold thread_held, wcount in Hw. rewrite Hu, Hh in Hw.
  destruct (writer (lock w)) as [v|]; [|done]. destruct (Nat.eqb_spec v u); [by subst|done].
Qed.

Lemma reader_of w u th :
  lock_inv w -> threads w !! u = Some th -> 0 < held_read (code th) -> u ∈ readers (lock w).
Proof.
  intros [Hr _ _] Hu Hh. apply occ_elem_of. rewrite Hr. unfold thread_held. by rewrite Hu.
Qed.

(** C21. No data race on the instance: in every reachable world, a thread
    about to run a body that writes the instance ([set_pref!]'s assignment,
    [set]'s setter) holds the write guard and no thread holds a read
    guard; a thread about to run a body that reads it ([pref!]'s clone,
    [get]'s getter) holds a guard, and no other thread holds the write
    guard.  So each body runs as one atomic step, as [exec] has it. *)
Theorem critical_sections_exclusive s progs w u th i c :
  reach (init s progs) w -> threads w !! u = Some th -> code th = i :: c ->
  (body_writes i = true -> writer (lock w) = Some u /\ readers (lock w) = []) /\
  (body_reads i = true -> (u ∈ readers (lock w) \/ writer (lock w) = Some u) /\
                          ∀ v, writer (lock w) = Some v -> v = u).
Proof.
  intros Hr Hu Hc.
  destruct (reach_invariants (λ _, true) s progs w (Forall_Forall_true _) Hr) as [Hinv [Hsh]].
  pose proof (crit_ok_code _ _ (proj1 (Hsh u th Hu))) as Hok. rewrite Hc in Hok.
  assert (Hwr : held_write (code th) = 1 -> writer (lock w) = Some u /\ readers (lock w) = []).
  { intros Hh. assert (Hw : writer (lock w) = Some u) by by eapply writer_of.
    split; [done|]. apply (inv_excl _ Hinv). by rewrite Hw. }
  assert (Hrd : 0 < held_read (code th) -> u ∈ readers (lock w) /\ writer (lock w) = None).
  { intros Hh. assert (Hin : u ∈ readers (lock w)) by by eapply reader_of. split; [done|].
    destruct (writer (lock w)) eqn:Hw; [|done]. rewrite (inv_excl _ Hinv) in Hin by congruence.
    by apply elem_of_nil in Hin. }
  rewrite Hc in Hwr, Hrd.
  destruct i; simpl in *; split; try done; intros _;
    repeat match goal with H : _ && _ = true |- _ => apply andb_prop in H as [? ?] end;
    repeat match goal with H : Z.eqb _ _ = true |- _ => apply Z.eqb_eq in H end.
  - destruct Hrd as [? ->]; [lia|]. split; [by left|done].
  - destruct Hwr as [-> _]; [done|]. split; [by right|congruence].
  - by apply Hwr.
  - destruct Hrd as [? ->]; [lia|]. split; [by left|done].
  - by apply Hwr.
Qed.

(** ** Schedules, for the witnesses *)

(** The world after the threads of [sched] take one step each, in order. *)
Fixpoint run (w : World) (sched : list tid) : option World :=
  match sched with
  | [] => Some w
  | t :: sched => w' ← step w t; run w' sched
  end.

Lemma run_reach w sched w' : run w sched = Some w' -> reach w w'.
Proof.
  revert w; induction sched as [|t sched IH]; intros w; simpl; [by intros [= <-]|].
  destruct (step w t) as [w1|] eqn:Hs; simpl; [|done].
  intros Hr. eapply rtc_l; [by exists t|]. by apply IH.
Qed.

(** A store with the one field [dom.webgpu.enabled], and two threads: one
    sets the field, the other reads it with [pref!] and with [get]. *)
Definition webgpu_path : list string := ["dom"; "webgpu"; "enabled"].

Definition mini_store : Preferences :=
  new {[static_path webgpu_leaf := PrefValue.Bool false]}
      {["dom.webgpu.enabled" := accessor webgpu_leaf]}.

Definition demo_progs : list (list Op) :=
  [[SetOp "dom.webgpu.enabled" (PrefValue.Bool true)];
   [PrefOp webgpu_path; GetOp "dom.webgpu.enabled"]].

(** Thread [t] of a world (a thread with nothing to do if there is none). *)
Definition thread_of (w : World) (t : tid) : Thread := default (fresh []) (threads w !! t).

Definition world_after (w : World) (sched : list tid) : World :=
  match run w sched with Some w' => w' | None => w end.

Definition demo : World := init mini_store demo_progs.

(** Thread 0 inside its write section, about to run the setter. *)
Definition demo_writing : World := world_after demo [0; 0]%nat.

(** Both threads done: the writer first, then the reader. *)
Definition demo_done : World := world_after demo [0; 0; 0; 0; 1; 1; 1; 1; 1; 1; 1; 1]%nat.

(** A thread running [set_pref!(dom.webgpu.enabled, pref!(dom.webgpu.enabled))]
    next to a thread running [get]. *)
Definition nested_progs : list (list Op) :=
  [[SetPrefOp webgpu_path (ReadPath webgpu_path)]; [GetOp "dom.webgpu.enabled"]].

Definition nested : World := init mini_store nested_progs.

(** C21 at thread 0 about to run the setter: it is the writer, with no
    reader. *)
Lemma critical_sections_exclusive_witness :
  writer (lock demo_writing) = Some 0%nat /\ readers (lock demo_writing) = [].
Proof.
  apply (critical_sections_exclusive mini_store demo_progs demo_writing 0
           (thread_of demo_writing 0) (CallSet "dom.webgpu.enabled" (PrefValue.Bool true))
           [RelWrite]); [apply (run_reach _ [0; 0]%nat); reflexivity|reflexivity|reflexivity|reflexivity].
Defined.
