(* ===== verification/ConcurrencyProgress.v ===== *)
(** * Progress of the threads sharing the [RwLock]

    The self-deadlock of [set_pref!(p, pref!(q))] (C24, the finding on
    prefs.rs line 42), and deadlock freedom when no [set_pref!] reads a
    preference in its value (C23), over the world and [step] of
    Concurrency.v. *)

From S2P Require Import Prelude Float64 Json PrefValue StoreSpec Schema Store BulkApply Concurrency.

(** ** The self-deadlock of [set_pref!] reading a preference *)

(** While [t] holds the write guard, no other thread's step takes it away. *)
Lemma lock_step_writer_kept u t i l l' :
  lock_step u i l = Some l' -> writer l = Some t -> u <> t -> writer l' = Some t.
Proof.
  intros Hs Hw Hne. destruct i; simpl in Hs; rewrite ?Hw in Hs; try by simplify_eq.
  - case_bool_decide; by simplify_eq/=.
  - case_bool_decide; simplify_eq/=.
Qed.

(** C24. [set_pref!(p, pref!(q))] deadlocks its thread: once the thread has
    started the operation and taken the write guard (line 42), the
    [pref!] in [$value] asks for a read guard that the lock never grants,
    because only the thread itself could release the write guard.  In
    every later world, whatever the other threads do, the thread is still
    waiting at the same instruction and still holds the write guard, so
    every other thread that needs the lock waits too. *)
Theorem set_pref_reading_pref_deadlocks w t th p q rest w1 w2 w3 :
  threads w !! t = Some th -> code th = [] -> ops th = SetPrefOp p (ReadPath q) :: rest ->
  step w t = Some w1 -> step w1 t = Some w2 -> reach w2 w3 ->
  writer (lock w3) = Some t /\
  exists th3, threads w3 !! t = Some th3 /\
    code th3 = [AcqRead; LoadPath q; RelRead; StorePath p; RelWrite] /\ step w3 t = None.
Proof.
  intros Ht Hc Hops Hs1 Hs2 Hr.
  set (c := [AcqRead; LoadPath q; RelRead; StorePath p; RelWrite]).
  set (Q := λ w, writer (lock w) = Some t /\ exists th, threads w !! t = Some th /\ code th = c).
  assert (Hw1 : exists th1, threads w1 !! t = Some th1 /\ code th1 = AcqWrite :: c).
  { apply step_Some in Hs1 as (th'&Ht'&[(_&op&rest'&Hops'&->)|(i&c'&_&Hc'&_)]);
      rewrite Ht in Ht'; injection Ht' as <-; [|congruence].
    rewrite Hops in Hops'. injection Hops' as <- <-. simpl.
    eexists. rewrite list_lookup_insert_eq by (by eapply lookup_lt_Some). by split. }
  assert (HQ2 : Q w2).
  { destruct Hw1 as (th1&Ht1&Hc1).
    apply step_Some in Hs2 as (th2&Ht2&[(Hc2&_)|(i&c2&l'&Hc2&Hl&->)]);
      rewrite Ht1 in Ht2; injection Ht2 as <-; rewrite Hc1 in Hc2; [done|].
    injection Hc2 as <- <-. simpl in Hl.
    destruct (writer (lock w1)), (readers (lock w1)); simplify_eq/=.
    split; [done|]. eexists. simpl. rewrite list_lookup_insert_eq by (by eapply lookup_lt_Some).
    by split. }
  assert (HQ3 : Q w3).
  { apply (reach_ind Q w2 w3); [|exact HQ2|exact Hr]. clear.
    intros w u w' [Hw (th&Hu&Hct)] Hs.
    destruct (step_Some _ _ _ Hs) as (thu&Htu&[(Hcu&op&rest&Hops&->)|(i&c'&l'&Hcu&Hl&->)]).
    - assert (Hne : u <> t).
      { intros ->. rewrite Hu in Htu. injection Htu as <-. rewrite Hct in Hcu. by subst c. }
      split; [done|]. exists th. simpl. by rewrite list_lookup_insert_ne.
    - destruct (Nat.eqb_spec u t) as [->|Hne].
      + rewrite Hu in Htu. injection Htu as <-. rewrite Hct in Hcu. injection Hcu as <- _.
        simpl in Hl. by rewrite Hw in Hl.
      + split; [by eapply lock_step_writer_kept|]. exists th. simpl.
        by rewrite list_lookup_insert_ne. }
  destruct HQ3 as [Hw (th3&Ht3&Hc3)]. split; [done|]. exists th3. split; [done|]. split; [done|].
  unfold step. rewrite Ht3. simpl. rewrite Hc3. simpl. by rewrite Hw.
Qed.

(** ** Deadlock freedom *)

(** [set_pref!] whose value reads another preference takes a read guard
    while holding the write guard; no other operation nests guards. *)
Definition nested_free (op : Op) : bool :=
  match op with SetPrefOp _ (ReadPath _) => false | _ => true end.

(** A thread about to take a guard holds none. *)
Definition acq_free (c : list Instr) : bool :=
  match c with
  | AcqRead :: _ | AcqWrite :: _ => Z.eqb (held_read c) 0 && Z.eqb (held_write c) 0
  | _ => true
  end.

Lemma acq_free_local : guard_local acq_free.
Proof.
  intros [|i c] l2 Hne Hr Hw; [done|]. destruct (held_app_nil (i :: c) l2 Hr Hw) as [Er Ew].
  simpl in *. by destruct i; rewrite ?Er, ?Ew.
Qed.

Lemma acq_free_expand acc op : nested_free op = true -> all_suffixes acq_free (expand acc op) = true.
Proof.
  intros Hn. destruct op as [q|p [v|q]|k|k v|es]; simpl in Hn; try discriminate;
    try (simpl; unfold set_code; try case_match; reflexivity).
  apply all_suffixes_set_all; [apply acq_free_local|done|].
  intros k v. unfold set_code. case_match; reflexivity.
Qed.

Lemma step_None_code w u th i c :
  threads w !! u = Some th -> code th = i :: c -> step w u = None -> lock_step u i (lock w) = None.
Proof.
  unfold step. intros Hu Hc. rewrite Hu. simpl. rewrite Hc.
  destruct (lock_step u i (lock w)); [|done]. simpl.
  destruct (exec i (mem w) (reg th) (log th)) as [[??]?]. by destruct (next i c (ops th) (log th)).
Qed.

Lemma step_None_nil w u th :
  threads w !! u = Some th -> code th = [] -> step w u = None -> ops th = [].
Proof. unfold step. intros Hu Hc. rewrite Hu. simpl. rewrite Hc. by destruct (ops th). Qed.

(** A thread that cannot step holds no guard, and has finished or waits
    to take a guard. *)
Lemma stuck_thread w u th :
  lock_inv w -> shape_inv nested_free w -> threads w !! u = Some th -> step w u = None ->
  held_read (code th) = 0 /\ held_write (code th) = 0 /\
  (finished th = true \/ exists i c, code th = i :: c /\ lock_step u i (lock w) = None /\
                                      (i = AcqRead \/ i = AcqWrite)).
Proof.
  intros Hinv [Hsh] Hu Hst. destruct (Hsh u th Hu) as [Hcode _].
  pose proof (crit_ok_code _ _ Hcode) as Hok.
  pose proof (code_from_check _ acq_free _ eq_refl (λ acc op, acq_free_expand acc op) Hcode) as Hacq.
  destruct (code th) as [|i c] eqn:Hc.
  - unfold finished. rewrite Hc, (step_None_nil w u th) by done. auto.
  - pose proof (step_None_code w u th i c Hu Hc Hst) as Hl. rewrite <-Hc in Hok, Hacq.
    destruct i; simpl in Hl; try done; rewrite Hc in Hok, Hacq; simpl in Hok, Hacq;
      repeat match goal with H : _ && _ = true |- _ => apply andb_prop in H as [? ?] end;
      repeat match goal with H : Z.eqb _ _ = true |- _ => apply Z.eqb_eq in H end;
      simpl; try (split; [lia|split; [lia|eauto 10]]).
    + rewrite bool_decide_eq_true_2 in Hl; [done|]. eapply reader_of; [done|done|].
      rewrite Hc. simpl. lia.
    + rewrite bool_decide_eq_true_2 in Hl; [done|]. eapply writer_of; [done|done|].
      by rewrite Hc.
Qed.

(** When no thread can step, the lock is free and every thread has
    finished. *)
Lemma all_stuck_finished w :
  lock_inv w -> shape_inv nested_free w -> (∀ u, step w u = None) ->
  ∀ u th, threads w !! u = Some th -> finished th = true.
Proof.
  intros Hinv Hsh Hst.
  assert (Hheld : ∀ f u, f = held_read \/ f = held_write -> thread_held f w u = 0).
  { intros f u Hf. unfold thread_held. destruct (threads w !! u) as [th|] eqn:Hu; [|done].
    destruct (stuck_thread w u th Hinv Hsh Hu (Hst u)) as (?&?&_). by destruct Hf as [->| ->]. }
  assert (Hw : writer (lock w) = None).
  { destruct (writer (lock w)) as [v|] eqn:Hv; [|done].
    pose proof (inv_writer _ Hinv v) as Hc. unfold wcount in Hc. rewrite Hv, Nat.eqb_refl in Hc.
    rewrite Hheld in Hc by auto. lia. }
  assert (Hr : readers (lock w) = []).
  { destruct (readers (lock w)) as [|v rs] eqn:Hv; [done|].
    pose proof (inv_readers _ Hinv v) as Hc. rewrite Hv, Hheld in Hc by auto.
    simpl in Hc. rewrite Nat.eqb_refl in Hc. pose proof (occ_nonneg v rs). lia. }
  intros u th Hu. destruct (stuck_thread w u th Hinv Hsh Hu (Hst u)) as (_&_&[?|(i&c&_&Hl&[-> | ->])]);
    [done| |]; simpl in Hl; by rewrite ?Hw, ?Hr in Hl.
Qed.

(** Every reachable world is finished or lets a thread step. *)
Lemma stuck_or_step s progs w :
  Forall (Forall (λ op, nested_free op = true)) progs -> reach (init s progs) w ->
  (∀ u th, threads w !! u = Some th -> finished th = true) \/ exists u w', step w u = Some w'.
Proof.
  intros Hprogs Hr. destruct (reach_invariants nested_free s progs w Hprogs Hr) as [Hinv Hsh].
  destruct (existsb (λ u, is_some (step w u)) (seq 0 (length (threads w)))) eqn:E.
  - apply existsb_exists in E as (u&_&Hu). right. exists u.
    destruct (step w u) as [w'|]; [by exists w'|done].
  - left. apply all_stuck_finished; [done|done|]. intros u.
    destruct (step w u) as [w'|] eqn:Hs; [exfalso|done].
    assert (Hlt : (u < length (threads w))%nat).
    { unfold step in Hs. destruct (threads w !! u) eqn:Hu; [|done]. by eapply lookup_lt_Some. }
    apply not_true_iff_false in E. apply E, existsb_exists. exists u.
    split; [apply in_seq; lia|by rewrite Hs].
Qed.

(** C23. Deadlock freedom: when the threads' programs contain no
    [set_pref!] whose value reads a preference, every world an
    interleaving reaches either has every thread finished or lets some
    thread step. *)
Theorem no_deadlock s progs w :
  Forall (Forall (λ op, nested_free op = true)) progs -> reach (init s progs) w ->
  (∀ u th, threads w !! u = Some th -> finished th = true) \/ exists u w', step w u = Some w'.
Proof. apply stuck_or_step. Qed.

(** ** Witnesses *)

(** C23 when both threads of the demonstration have run to the end. *)
Lemma no_deadlock_witness :
  (∀ u th, threads demo_done !! u = Some th -> finished th = true) \/
  exists u w', step demo_done u = Some w'.
Proof.
  apply (no_deadlock mini_store demo_progs demo_done); [repeat constructor|].
  apply (run_reach _ [0; 0; 0; 0; 1; 1; 1; 1; 1; 1; 1; 1]%nat). vm_compute. reflexivity.
Defined.

(** C24 on the nested program: after thread 0 starts [set_pref!] and takes
    the write guard, and thread 1 starts its [get], thread 0 is stuck. *)
Lemma set_pref_reading_pref_deadlocks_witness :
  writer (lock (world_after nested [0; 0; 1]%nat)) = Some 0%nat /\
  exists th3, threads (world_after nested [0; 0; 1]%nat) !! 0%nat = Some th3 /\
    code th3 = [AcqRead; LoadPath webgpu_path; RelRead; StorePath webgpu_path; RelWrite] /\
    step (world_after nested [0; 0; 1]%nat) 0 = None.
Proof.
  apply (set_pref_reading_pref_deadlocks nested 0 (thread_of nested 0) webgpu_path webgpu_path []
           (world_after nested [0]%nat) (world_after nested [0; 0]%nat)); try reflexivity.
  apply (run_reach _ [1]%nat). reflexivity.
Defined.
