(* ===== verification/ConcurrencyBulk.v ===== *)
(** * [add_user_prefs] under the [RwLock]

    [add_user_prefs] (prefs.rs lines 58-62) runs [set_all], one [set] per
    entry, each under its own write guard, and panics on the first error.
    Alone on its thread it does what BulkApply.v's sequential
    [add_user_prefs] does (C28); beside readers every store they can see is
    the store after a prefix of its entries (C29). *)

From S2P Require Import Prelude Float64 Json PrefValue StoreSpec Schema Store BulkApply Concurrency.

(** ** [add_user_prefs] on its own thread is [BulkApply]'s *)

(** A world with one thread that has no operation left to issue. *)
Definition solo (m : Preferences) (c : list Instr) (lg : list Obs) : World :=
  {| mem := m; lock := unlocked; threads := [{| ops := []; code := c; reg := None; log := lg |}] |}.

Lemma run_app w l1 l2 : run w (l1 ++ l2) = w' ← run w l1; run w' l2.
Proof.
  revert w; induction l1 as [|t l1 IH]; intros w; simpl; [done|].
  destruct (step w t); simpl; [apply IH|done].
Qed.

(** One entry of [set_all]: [set] under the write guard, then the check;
    an error makes the thread panic. *)
Lemma run_set_block m k v c lg :
  exists n, run (solo m (set_code (accessors m) k v ++ StopOnErr :: c) lg) (repeat 0%nat n) =
    Some (match set m k v with
          | Ok m' => solo m' c (OSet k (Ok ()) :: lg)
          | Err e => solo m [] (OPanic e :: OSet k (Err e) :: lg)
          end).
Proof.
  unfold set_code. destruct (accessors m !! k) as [a|] eqn:Ha; simpl.
  - exists 4%nat. destruct (set m k v) as [m'|e] eqn:E; cbn -[set]; rewrite E; reflexivity.
  - exists 2%nat. assert (E : set m k v = Err (NoSuchPref k)) by (unfold set; by rewrite Ha).
    rewrite E. reflexivity.
Qed.

Lemma run_set_all m es lg :
  exists n lg', run (solo m (expand (accessors m) (AddUserPrefsOp es)) lg) (repeat 0%nat n) =
    Some (solo (set_all m es).1 [] lg') /\
    ∀ e, OPanic e ∈ lg' <-> OPanic e ∈ lg \/ (set_all m es).2 = Err e.
Proof.
  revert m lg; induction es as [|[k v] es IH]; intros m lg.
  - exists 0%nat, lg. simpl. split; [done|]. naive_solver.
  - destruct (run_set_block m k v (expand (accessors m) (AddUserPrefsOp es)) lg) as [n1 Hn1].
    simpl in Hn1 |- *. rewrite <-app_assoc. simpl.
    destruct (set m k v) as [m'|e] eqn:E.
    + destruct (IH m' (OSet k (Ok ()) :: lg)) as (n2&lg'&Hn2&Hp).
      rewrite (set_accessors m k v m' E) in Hn2. simpl in Hn2.
      exists (n1 + n2)%nat, lg'. rewrite repeat_app, run_app, Hn1. simpl. split; [done|].
      intros e0. rewrite Hp, elem_of_cons. naive_solver.
    + exists n1, (OPanic e :: OSet k (Err e) :: lg). split; [done|].
      intros e0. rewrite !elem_of_cons. naive_solver.
Qed.

(** C28. A thread running [add_user_prefs] with no other thread does what
    the sequential [add_user_prefs] of BulkApply.v does: it ends with the
    store [set_all] computes and the lock free, and it has panicked exactly
    when the sequential one panics. *)
Theorem add_user_prefs_thread (into_iter : hashmap_order) (debug : PrefError -> string)
    (s : Preferences) (prefs : gmap string PrefValue.t) :
  exists n lg,
    run (init s [[AddUserPrefsOp (into_iter _ prefs)]]) (repeat 0%nat n) =
      Some (solo (add_user_prefs into_iter debug s prefs).1 [] lg) /\
    ((exists e, OPanic e ∈ lg) <-> exists msg, (add_user_prefs into_iter debug s prefs).2 = Panicked msg).
Proof.
  destruct (run_set_all s (into_iter _ prefs) []) as (n&lg&Hn&Hp).
  exists (S n), lg. unfold add_user_prefs.
  destruct (set_all s (into_iter _ prefs)) as [s' r] eqn:Hs. simpl in Hn, Hp.
  destruct r as [u|e]; simpl; (split; [exact Hn|]); split.
  - intros [e [He|He]%Hp]; [by apply elem_of_nil in He|discriminate].
  - by intros [msg ?].
  - intros _. by eexists.
  - intros _. exists e. apply Hp. by right.
Qed.

(** ** [add_user_prefs] beside readers: atomic per entry

    The stores a thread passes through when it runs its code alone
    ([trace]); a thread that only reads never changes the store, so while
    one thread runs [add_user_prefs] and the others only read, the store
    is always one of the thread's own intermediate stores. *)

(** The store after each instruction of [c] run alone from [m], [r], [lg]
    (stopping where [next] stops the thread). *)
Fixpoint trace (m : Preferences) (r : option PrefValue.t) (lg : list Obs) (c : list Instr) :
    list Preferences :=
  match c with
  | [] => []
  | i :: c =>
      let '(m', r', lg') := exec i m r lg in
      m' :: match i, failed lg with
            | StopOnErr, Some _ => []
            | _, _ => trace m' r' lg' c
            end
  end.

Lemma trace_next m r lg i c os :
  trace m r lg (i :: c) =
    (exec i m r lg).1.1 ::
      trace (exec i m r lg).1.1 (exec i m r lg).1.2 (exec i m r lg).2 (next i c os lg).1.
Proof.
  simpl. destruct (exec i m r lg) as [[m' r'] lg']. unfold next. by destruct i, (failed lg).
Qed.

Lemma next_code_Forall (P : Instr -> Prop) i c os lg :
  Forall P c -> Forall P (next i c os lg).1.
Proof. unfold next. by destruct i, (failed lg). Qed.

Lemma next_ops_Forall (P : Op -> Prop) i c os lg :
  Forall P os -> Forall P (next i c os lg).2.
Proof. unfold next. by destruct i, (failed lg). Qed.

Lemma next_ops_nil i c lg : (next i c [] lg).2 = [].
Proof. unfold next. by destruct i, (failed lg). Qed.

(** Operations that only read the store. *)
Definition read_only (op : Op) : bool :=
  match op with PrefOp _ | GetOp _ => true | _ => false end.

Lemma exec_mem_keep i m r lg : body_writes i = false -> (exec i m r lg).1.1 = m.
Proof. intros Hw. destruct i; simpl in *; repeat case_match; done. Qed.

Lemma expand_read_only acc op :
  read_only op = true -> Forall (λ i, body_writes i = false) (expand acc op).
Proof. destruct op; try done. all: intros _; simpl; repeat case_match; repeat constructor. Qed.

(** Every store [add_user_prefs]'s code passes through, run alone, is the
    store after a prefix of its entries. *)
Lemma trace_set_all m r lg l :
  Forall (λ m', exists j, m' = (set_all m (take j l)).1)
    (trace m r lg (expand (accessors m) (AddUserPrefsOp l))).
Proof.
  revert m r lg; induction l as [|[k v] l IH]; intros m r lg; [constructor|].
  simpl. rewrite <-app_assoc. unfold set_code.
  assert (H0 : exists j, m = (set_all m (take j ((k, v) :: l))).1) by (by exists 0%nat).
  destruct (accessors m !! k) as [a|]; simpl.
  - destruct (set m k v) as [m'|e] eqn:E; cbn -[set].
    + assert (H1 : exists j, m' = (set_all m (take j ((k, v) :: l))).1)
        by (exists 1%nat; simpl; by rewrite E).
      do 4 (constructor; [done|]).
      pose proof (IH m' r (OSet k (Ok ()) :: lg)) as Hi.
      rewrite (set_accessors m k v m' E) in Hi.
      eapply Forall_impl; [exact Hi|]. intros m'' [j ->]. exists (S j). simpl. by rewrite E.
    + repeat (constructor; [done|]). constructor.
  - repeat (constructor; [done|]). constructor.
Qed.

Section EntryAtomic.
Variables (s : Preferences) (es : list (string * PrefValue.t)).

(** The store after the first [n] entries of [set_all]. *)
Definition applied (m : Preferences) : Prop := exists n, m = (set_all s (take n es)).1.

(** Thread 0 runs [add_user_prefs], the others only read; the store and
    every store thread 0 will pass through are [applied]. *)
Definition atomic_inv (w : World) : Prop :=
  applied (mem w) /\
  (∀ u th, threads w !! u = Some th -> u <> 0%nat ->
     Forall (λ op, read_only op = true) (ops th) /\ Forall (λ i, body_writes i = false) (code th)) /\
  exists th0, threads w !! 0%nat = Some th0 /\
    ((ops th0 = [AddUserPrefsOp es] /\ code th0 = [] /\ mem w = s) \/
     (ops th0 = [] /\ Forall applied (trace (mem w) (reg th0) (log th0) (code th0)))).

Lemma atomic_inv_init readers :
  Forall (Forall (λ op, read_only op = true)) readers ->
  atomic_inv (init s ([AddUserPrefsOp es] :: readers)).
Proof.
  intros Hr. split; [by exists 0%nat|]. split.
  - intros [|u] th Hu Hne; [done|]. simpl in Hu. rewrite list_lookup_fmap in Hu.
    destruct (readers !! u) as [prog|] eqn:Hp; simplify_eq/=. split; [|constructor].
    by eapply Forall_lookup_1.
  - eexists. split; [done|]. by left.
Qed.

Lemma atomic_inv_step w t w' : atomic_inv w -> step w t = Some w' -> atomic_inv w'.
Proof.
  intros (Hm&Hr&th0&H0&H0c) Hs.
  destruct (step_Some _ _ _ Hs) as (th&Ht&[(Hc&op&rest&Hops&->)|(i&c&l'&Hc&Hl&->)]);
    simpl; (destruct (Nat.eq_dec t 0) as [->|Hne]; [rewrite H0 in Ht; injection Ht as <-|]).
  - destruct H0c as [(Ho&_&Hs0)|(Ho&_)]; rewrite Ho in Hops; [|done]. injection Hops as <- <-.
    split; [done|]. split.
    + intros u thu Hu Hne. simpl in Hu. rewrite list_lookup_insert_ne in Hu by done. by apply (Hr u).
    + eexists. simpl. rewrite list_lookup_insert_eq by (by eapply lookup_lt_Some).
      split; [done|]. right. split; [done|]. rewrite Hs0. simpl. apply trace_set_all.
  - destruct (Hr t th Ht Hne) as [Ho _]. rewrite Hops in Ho. apply Forall_cons in Ho as [Hop Ho].
    split; [done|]. split.
    + intros u thu Hu Hne'. simpl in Hu. apply list_lookup_insert_Some in Hu as [(<-&<-&_)|(_&Hu)].
      * split; [done|]. by apply expand_read_only.
      * by apply (Hr u).
    + exists th0. simpl. rewrite list_lookup_insert_ne by done. done.
  - destruct H0c as [(_&Hc0&_)|(Ho&Htr)]; rewrite Hc in *; [done|].
    rewrite (trace_next _ _ _ _ _ (ops th0)) in Htr. apply Forall_cons in Htr as [Hm' Htr].
    split; [done|]. split.
    + intros u thu Hu Hne. simpl in Hu. rewrite list_lookup_insert_ne in Hu by done. by apply (Hr u).
    + eexists. simpl. rewrite list_lookup_insert_eq by (by eapply lookup_lt_Some).
      split; [done|]. right. simpl. split; [|done].
      by rewrite Ho, next_ops_nil.
  - destruct (Hr t th Ht Hne) as [Ho Hw]. rewrite Hc in Hw. apply Forall_cons in Hw as [Hi Hw].
    rewrite (exec_mem_keep _ _ _ _ Hi). split; [done|]. split.
    + intros u thu Hu Hne'. simpl in Hu. apply list_lookup_insert_Some in Hu as [(<-&<-&_)|(_&Hu)].
      * simpl. split; [by apply next_ops_Forall|by apply next_code_Forall].
      * by apply (Hr u).
    + exists th0. simpl. rewrite list_lookup_insert_ne by done. done.
Qed.

End EntryAtomic.

(** C29. [set_all] is atomic per entry (spec 2 and 4.3): while one thread
    runs [add_user_prefs] and the others only read ([pref!] or [get]),
    every store of any interleaving is the store after the first [n]
    entries of [set_all], for some [n].  So no reader sees an entry
    applied before an earlier one, or any entry after the one refused. *)
Theorem add_user_prefs_atomic_per_entry s es readers w :
  Forall (Forall (λ op, read_only op = true)) readers ->
  reach (init s ([AddUserPrefsOp es] :: readers)) w ->
  exists n, mem w = (set_all s (take n es)).1.
Proof.
  intros Hr Hreach.
  destruct (reach_ind (atomic_inv s es) _ _ (atomic_inv_step s es)
              (atomic_inv_init s es readers Hr) Hreach) as [Hm _].
  exact Hm.
Qed.

Definition atomic_entries : list (string * PrefValue.t) :=
  [("dom.webgpu.enabled", PrefValue.Bool true); ("dom.no-such-pref", PrefValue.Bool true)].

Definition atomic_readers : list (list Op) :=
  [[GetOp "dom.webgpu.enabled"; PrefOp webgpu_path]].

Lemma add_user_prefs_atomic_per_entry_witness :
  exists n, mem (world_after (init mini_store ([AddUserPrefsOp atomic_entries] :: atomic_readers))
                             [0; 0; 0; 0; 1; 1; 1; 1; 0; 0; 0; 1; 1; 1; 1]%nat) =
            (set_all mini_store (take n atomic_entries)).1.
Proof.
  apply (add_user_prefs_atomic_per_entry _ _ atomic_readers).
  - repeat constructor.
  - apply (run_reach _ [0; 0; 0; 0; 1; 1; 1; 1; 0; 0; 0; 1; 1; 1; 1]%nat). vm_compute. reflexivity.
Defined.
