(* ===== verification/ConcurrencyRefine.v ===== *)
(** * The store under the [RwLock] is linearisable

    The operations of Concurrency.v's threads, run under the lock, behave
    as if each ran alone, whole, on the sequential store of Store.v.  The
    sequential machine below runs the threads' operations one action at a
    time: [pref!], [set_pref!], [get] and [set] are one action each, and
    [add_user_prefs] is one [set] per entry followed by the check of its
    result.  Every interleaving of the lock-level code is matched by an
    interleaving of these actions that ends in the same instance and gives
    every thread the same observations (C26).  The proof is a simulation:
    an instruction that is an operation's linearisation point (the body
    under the guard, or the error returned without it) is one sequential
    action, any other instruction none.  Readers of a key that another
    thread sets see the old value or the new one (C27). *)

From S2P Require Import Prelude Float64 Json PrefValue StoreSpec Schema Store BulkApply Concurrency.

(** ** The sequential store *)

(** The atomic actions of the sequential store. *)
Inductive Act : Type :=
| APref (path : list string)
| ASetPref (path : list string) (e : ValueExpr)
| AGet (key : string)
| ASet (key : string) (v : PrefValue.t)
| AStop.

(** The actions of an operation: [set_all] sets the entries in turn and
    checks each result. *)
Definition acts_of (op : Op) : list Act :=
  match op with
  | PrefOp q => [APref q]
  | SetPrefOp p e => [ASetPref p e]
  | GetOp key => [AGet key]
  | SetOp key v => [ASet key v]
  | AddUserPrefsOp es => concat (map (λ kv, [ASet kv.1 kv.2; AStop]) es)
  end.

(** [$value] evaluated on the instance. *)
Definition eval_value (m : Preferences) (e : ValueExpr) : option PrefValue.t :=
  match e with Const v => Some v | ReadPath q => pref m q end.

(** One action on the instance [m] of Store.v, with the thread's log [lg]:
    the instance and log after it, and whether the thread panicked. *)
Definition sact (a : Act) (m : Preferences) (lg : list Obs) : Preferences * list Obs * bool :=
  match a with
  | APref q => (m, match pref m q with Some v => ORead v :: lg | None => lg end, false)
  | ASetPref p e => (default m (eval_value m e ≫= set_pref m p), lg, false)
  | AGet key => (m, OGet key (get m key) :: lg, false)
  | ASet key v =>
      match set m key v with
      | Ok m' => (m', OSet key (Ok ()) :: lg, false)
      | Err e => (m, OSet key (Err e) :: lg, false)
      end
  | AStop =>
      match failed lg with
      | Some e => (m, OPanic e :: lg, true)
      | None => (m, lg, false)
      end
  end.

Record SThread : Type := {
  sacts : list Act;
  slog : list Obs;
}.

Record SWorld : Type := {
  smem : Preferences;
  sthreads : list SThread;
}.

(** Thread [t] runs its next action alone; a panic ends the thread. *)
Definition sstep (sw : SWorld) (t : tid) : option SWorld :=
  st ← sthreads sw !! t;
  match sacts st with
  | [] => None
  | a :: rest =>
      let '(m', lg', panicked) := sact a (smem sw) (slog st) in
      Some {| smem := m';
              sthreads := <[t := {| sacts := if panicked then [] else rest; slog := lg' |}]>
                            (sthreads sw) |}
  end.

Definition sstep_any (sw sw' : SWorld) : Prop := exists t, sstep sw t = Some sw'.

Definition sinit (s : Preferences) (progs : list (list Op)) : SWorld :=
  {| smem := s; sthreads := map (λ prog, {| sacts := concat (map acts_of prog); slog := [] |}) progs |}.

(** ** Linearisation points *)

(** The instructions at which an operation takes effect. *)
Definition lin (i : Instr) : bool :=
  match i with
  | ReadOut _ | StorePath _ | CallGet _ | CallSet _ _ | Emit _ | StopOnErr => true
  | _ => false
  end.

(** The action a linearisation point performs; an error returned without
    the lock is the action on a key the table does not have. *)
Definition lin_act (acc : gmap string Accessor) (i : Instr) (a : Act) : Prop :=
  match i, a with
  | ReadOut q, APref q' => q = q'
  | StorePath p, ASetPref p' _ => p = p'
  | CallGet k, AGet k' => k = k'
  | Emit (OGet k r), AGet k' => k = k' /\ r = Err (NoSuchPref k) /\ acc !! k = None
  | CallSet k v, ASet k' v' => k = k' /\ v = v'
  | Emit (OSet k r), ASet k' _ => k = k' /\ r = Err (NoSuchPref k) /\ acc !! k = None
  | StopOnErr, AStop => True
  | _, _ => False
  end.

(** What the register holds where [set_pref!] assigns: the constant its
    action stores.  A [pref!] inside [$value] is never reached. *)
Definition value_ok (c : list Instr) (r : option PrefValue.t) (pend : list Act) : Prop :=
  match c with
  | AcqWrite :: SetReg v :: StorePath p :: _ | SetReg v :: StorePath p :: _ =>
      head pend = Some (ASetPref p (Const v))
  | StorePath p :: _ => exists v, head pend = Some (ASetPref p (Const v)) /\ r = Some v
  | LoadPath _ :: _ | RelRead :: StorePath _ :: _ => False
  | _ => True
  end.

(** The instructions that may precede the ones [value_ok] constrains. *)
Definition succ_ok (c : list Instr) : bool :=
  match c with
  | _ :: AcqWrite :: SetReg _ :: StorePath _ :: _ => false
  | i :: SetReg _ :: StorePath _ :: _ => match i with AcqWrite => true | _ => false end
  | i :: StorePath _ :: _ => match i with SetReg _ | RelRead => true | _ => false end
  | i :: LoadPath _ :: _ => match i with AcqRead => true | _ => false end
  | i :: RelRead :: StorePath _ :: _ => match i with LoadPath _ => true | _ => false end
  | _ => true
  end.

(** A lock-level thread and a sequential one agree: the same log, and the
    sequential thread has still to run the actions of the linearisation
    points of the code left, then those of the operations left. *)
Record tmatch (acc : gmap string Accessor) (th : Thread) (st : SThread) : Prop := {
  tm_log : slog st = log th;
  tm_acts : exists pend, sacts st = pend ++ concat (map acts_of (ops th)) /\
    Forall2 (lin_act acc) (List.filter lin (code th)) pend /\ value_ok (code th) (reg th) pend;
}.

Record wmatch (w : World) (sw : SWorld) : Prop := {
  wm_mem : smem sw = mem w;
  wm_threads : Forall2 (tmatch (accessors (mem w))) (threads w) (sthreads sw);
}.

(** ** The simulation *)

(** Whether an instruction makes its thread panic: [set_all]'s check
    after a failed [set]. *)
Definition panics (i : Instr) (lg : list Obs) : bool :=
  match i, failed lg with StopOnErr, Some _ => true | _, _ => false end.

Lemma next_panics i c os lg : next i c os lg = if panics i lg then ([], []) else (c, os).
Proof. unfold next, panics. by destruct i, (failed lg). Qed.

(** No instruction changes the accessor table. *)
Lemma exec_accessors i m r lg : accessors (exec i m r lg).1.1 = accessors m.
Proof.
  destruct i; simpl; repeat case_match; simplify_eq/=; try done.
  - destruct r; simpl in *; [by eapply set_pref_accessors|done].
  - by eapply set_accessors.
Qed.

(** An instruction that is no linearisation point leaves the instance
    and the log as they were. *)
Lemma exec_not_lin i m r lg :
  lin i = false -> (exec i m r lg).1.1 = m /\ (exec i m r lg).2 = lg /\ panics i lg = false.
Proof. by destruct i. Qed.

(** A linearisation point does what its sequential action does. *)
Lemma lin_exec acc i c a pend m r lg :
  lin_act acc i a -> accessors m = acc -> value_ok (i :: c) r (a :: pend) ->
  sact a m lg = ((exec i m r lg).1.1, (exec i m r lg).2, panics i lg).
Proof.
  intros Ha Hacc Hv.
  destruct i, a; simpl in Ha; try (destruct o; simpl in Ha); try contradiction;
    destruct_and?; subst; simpl.
  - by case_match.
  - destruct Hv as (v&Hpe&->). simplify_eq/=. by case_match.
  - done.
  - by case_match.
  - match goal with H : accessors m !! _ = None |- _ => unfold get; by rewrite H end.
  - match goal with H : accessors m !! _ = None |- _ => unfold set; by rewrite H end.
  - unfold panics. by destruct (failed lg).
Qed.

(** The linearisation points of an operation's code are its actions. *)
Lemma lin_expand acc op : Forall2 (lin_act acc) (List.filter lin (expand acc op)) (acts_of op).
Proof.
  destruct op as [q|p [v|q]|k|k v|es]; simpl; try (unfold set_code; case_match eqn:Hk);
    simpl; repeat constructor; try (destruct (acc !! k); naive_solver).
  induction es as [|[k v] es IH]; simpl; [constructor|].
  unfold set_code. destruct (acc !! k) eqn:Hk; simpl;
    (constructor; [simpl; rewrite ?Hk; naive_solver|constructor; [done|exact IH]]).
Qed.

Lemma value_ok_expand acc op r : value_ok (expand acc op) r (acts_of op).
Proof.
  destruct op as [q|p [v|q]|k|k v|es]; simpl; try (unfold set_code; case_match); try done.
  destruct es as [|[k v] es]; simpl; [done|]. unfold set_code. by case_match.
Qed.

(** The instructions [value_ok] does not look at. *)
Definition plain (i : Instr) : bool :=
  match i with SetReg _ | StorePath _ | LoadPath _ | RelRead => false | _ => true end.

Lemma succ_ok_plain c : Forall (λ i, plain i = true) c -> all_suffixes succ_ok c = true.
Proof.
  induction c as [|i c IH]; intros Hc; [done|]. apply Forall_cons in Hc as [_ Hc].
  simpl. rewrite (IH Hc), andb_true_r.
  destruct c as [|j c]; [done|]. apply Forall_cons in Hc as [Hj Hc].
  destruct c as [|k c]; [by destruct j|]. apply Forall_cons in Hc as [Hk _].
  by destruct j, k.
Qed.

Lemma succ_expand acc op : all_suffixes succ_ok (expand acc op) = true.
Proof.
  destruct op as [q|p [v|q]|k|k v|es]; try (simpl; unfold set_code; try case_match; reflexivity).
  apply succ_ok_plain. induction es as [|[k v] es IH]; simpl; [done|].
  apply Forall_app. split; [|done]. unfold set_code. case_match; repeat constructor.
Qed.

Lemma code_from_tail P i c : code_from P (i :: c) -> code_from P c.
Proof.
  intros [?|(acc&op&n&HP&Hd)]; [done|]. right. exists acc, op, (S n).
  split; [done|]. symmetry. by eapply drop_S_cons.
Qed.

(** [value_ok] after an instruction. *)
Lemma value_ok_next i c r r' pend :
  succ_ok (i :: c) = true -> value_ok (i :: c) r pend ->
  (∀ q c', c = LoadPath q :: c' -> False) -> (∀ v, i = SetReg v -> r' = Some v) ->
  value_ok c r' (if lin i then tail pend else pend).
Proof.
  intros Hs Hv Hl Hr. destruct c as [|j c]; [done|].
  destruct j; try exact I.
  - destruct c as [|k c]; [exact I|]. destruct k; try exact I.
    by destruct i; try discriminate Hs.
  - destruct c as [|k c]; [exact I|]. destruct k; try exact I.
    destruct c as [|k' c]; [exact I|]. destruct k'; try exact I. discriminate Hs.
  - by eapply Hl.
  - destruct c as [|k c]; [exact I|]. destruct k; try exact I.
    destruct i; try discriminate Hs. exact Hv.
  - destruct i; try discriminate Hs; [done|]. exists v. split; [exact Hv|by apply Hr].
Qed.

(** A thread holding the write guard waits forever for a read guard. *)
Lemma acq_read_blocked w t th q c l' :
  lock_inv w -> threads w !! t = Some th -> code th = AcqRead :: LoadPath q :: c ->
  crit_ok (LoadPath q :: c) = true -> lock_step t AcqRead (lock w) = Some l' -> False.
Proof.
  intros Hinv Ht Hc Hok Hl. simpl in Hok. apply andb_prop in Hok as [_ Hw%Z.eqb_eq].
  simpl in Hl. rewrite (writer_of w t th) in Hl; [done|done|done|]. by rewrite Hc.
Qed.

(** One step of the lock-level world is matched by no sequential step, or
    by the one action of its linearisation point. *)
Lemma sim_step w t w' sw :
  lock_inv w -> shape_inv (λ _, true) w -> wmatch w sw -> step w t = Some w' ->
  exists sw', rtc sstep_any sw sw' /\ wmatch w' sw'.
Proof.
  intros Hinv [Hsh] [Hm Hth] Hs.
  destruct (step_Some _ _ _ Hs) as (th&Ht&[(Hc&op&rest&Hops&->)|(i&c&l'&Hc&Hl&->)]);
    destruct (Forall2_lookup_l _ _ _ _ _ Hth Ht) as (st&Hst&[Hlog (pend&Hacts&Hf&Hv)]).
  - exists sw. split; [done|]. split; [done|]. simpl.
    rewrite <-(list_insert_id (sthreads sw) t st Hst). apply Forall2_insert; [done|]. rewrite Hc in Hf. apply Forall2_nil_inv_l in Hf as ->.
    split; [done|]. exists (acts_of op). simpl.
    split; [by rewrite Hacts, Hops|]. split; [apply lin_expand|apply value_ok_expand].
  - destruct (Hsh t th Ht) as [Hcode _]. rewrite Hc in Hcode.
    pose proof (code_from_check _ succ_ok _ eq_refl (λ acc op _, succ_expand acc op) Hcode) as Hsucc.
    pose proof (crit_ok_code _ _ (code_from_tail _ _ _ Hcode)) as Hok.
    rewrite next_panics. rewrite Hc in Hf, Hv. simpl in Hf.
    assert (Hnext : ∀ r' pend', (∀ v, i = SetReg v -> r' = Some v) ->
              pend' = (if lin i then tail pend else pend) -> value_ok c r' pend').
    { intros r' pend' Hr ->. apply (value_ok_next i c (reg th)); [done|done| |done].
      intros q c' ->. destruct i; try discriminate Hsucc.
      by eapply (acq_read_blocked w t th q c' l'). }
    destruct (lin i) eqn:Hlin.
    + apply Forall2_cons_inv_l in Hf as (a&pend'&Ha&Hf&->).
      eexists {| smem := _; sthreads := <[t := {| sacts := if panics i (log th) then []
                                                else pend' ++ concat (map acts_of (ops th));
                                                slog := _ |}]> (sthreads sw) |}.
      split.
      * apply rtc_once. exists t. unfold sstep. rewrite Hst. simpl. rewrite Hacts. simpl.
        rewrite Hm, Hlog, (lin_exec (accessors (mem w)) i c a pend' (mem w) (reg th) (log th)) by done.
        reflexivity.
      * split; [done|]. simpl. rewrite exec_accessors. apply Forall2_insert; [done|].
        destruct (panics i (log th)); (split; [done|]); simpl.
        -- exists []. split; [done|]. split; [constructor|exact I].
        -- exists pend'. split; [done|]. split; [done|].
           apply (Hnext _ _); [intros v ->; discriminate Hlin|done].
    + destruct (exec_not_lin i (mem w) (reg th) (log th) Hlin) as (->&->&->).
      exists sw. split; [done|]. split; [done|]. simpl.
      rewrite <-(list_insert_id (sthreads sw) t st Hst). apply Forall2_insert; [done|]. split; [done|]. exists pend. split; [done|]. split; [done|].
      apply (Hnext _ _); [by intros v ->|done].
Qed.

Lemma wmatch_init s progs : wmatch (init s progs) (sinit s progs).
Proof.
  split; [done|]. simpl. induction progs as [|prog progs IH]; simpl; constructor; [|done].
  split; [done|]. exists []. split; [done|]. split; [constructor|exact I].
Qed.

(** C26. The [RwLock] makes the store linearisable: every world an
    interleaving of the threads' lock-level code reaches is also reached
    by running the threads' operations one at a time, each whole, on the
    sequential store of Store.v ([pref!], [set_pref!], [get], [set], and
    [add_user_prefs] one entry at a time): the same instance, and every
    thread has made exactly the same observations, in the same order
    (spec 4.3 and 5: the guard makes each field access atomic). *)
Theorem interleavings_linearizable s progs w :
  reach (init s progs) w ->
  exists sw, rtc sstep_any (sinit s progs) sw /\ smem sw = mem w /\
    slog <$> sthreads sw = log <$> threads w.
Proof.
  intros Hr.
  assert (H : exists sw, rtc sstep_any (sinit s progs) sw /\ wmatch w sw).
  { revert w Hr. apply (rtc_ind_r (λ w, exists sw, rtc sstep_any (sinit s progs) sw /\ wmatch w sw)).
    - exists (sinit s progs). split; [done|apply wmatch_init].
    - intros w1 w2 Hr [t Hs] (sw&Hsw&Hm).
      destruct (reach_invariants (λ _, true) s progs w1 (Forall_Forall_true _) Hr) as [Hinv Hsh].
      destruct (sim_step w1 t w2 sw Hinv Hsh Hm Hs) as (sw'&Hsw'&Hm').
      exists sw'. split; [by etrans|done]. }
  destruct H as (sw&Hsw&[Hm Hth]). exists sw. split; [done|]. split; [done|].
  clear -Hth. induction Hth as [|th st ths sts Hts _ IH]; [done|].
  by rewrite !fmap_cons, (tm_log _ _ _ Hts), IH.
Qed.

(** C26 when both threads of the demonstration have run to the end. *)
Lemma interleavings_linearizable_witness :
  exists sw, rtc sstep_any (sinit mini_store demo_progs) sw /\ smem sw = mem demo_done /\
    slog <$> sthreads sw = log <$> threads demo_done.
Proof.
  apply (interleavings_linearizable mini_store demo_progs demo_done).
  apply (run_reach _ [0; 0; 0; 0; 1; 1; 1; 1; 1; 1; 1; 1]%nat). vm_compute. reflexivity.
Defined.

(** Splits a membership in a concrete list into its cases. *)
Ltac elem_cases H :=
  repeat match type of H with
  | _ ∈ _ :: _ => apply elem_of_cons in H as [H|H]
  | _ ∈ _ ++ _ => apply elem_of_app in H as [H|H]
  | _ ∈ [] => apply elem_of_nil in H; contradiction
  end.

(** ** Readers and one writer of a key (spec 8, the concurrent scenario) *)

Section Scenario.

(** Threads that only [get] the key [k] or [set] it to [v], on a store
    with the generated table in which [k] names a leaf. *)
Variables (s : Preferences) (k : string) (v : PrefValue.t).
Hypothesis Ha : accessors s = PREF_ACCESSORS.
Hypothesis Hk : is_Some (key_leaf k).

Definition scenario_op (op : Op) : Prop := op = GetOp k \/ op = SetOp k v.

Definition scenario_instr (i : Instr) : Prop :=
  match i with
  | CallGet k' => k' = k
  | CallSet k' v' => k' = k /\ v' = v
  | AcqRead | RelRead | AcqWrite | RelWrite => True
  | _ => False
  end.

Record scenario_inv (w : World) : Prop := {
  sc_mem : mem w = s \/ set s k v = Ok (mem w);
  sc_threads : ∀ t th, threads w !! t = Some th ->
    Forall scenario_op (ops th) /\ Forall scenario_instr (code th) /\
    ∀ r, OGet k r ∈ log th -> r = get s k \/ r = Ok v;
}.

Lemma scenario_accessors w : scenario_inv w -> accessors (mem w) = PREF_ACCESSORS.
Proof.
  intros [[->|Hs] _]; [done|]. by destruct (set_Ok_inv s k v _ Ha Hs) as (l&_&_&_&->).
Qed.

Lemma scenario_expand w op :
  scenario_inv w -> scenario_op op -> Forall scenario_instr (expand (accessors (mem w)) op).
Proof.
  intros Hinv Hop. rewrite (scenario_accessors w Hinv). destruct Hk as [l Hl].
  destruct Hop as [->| ->]; unfold expand, set_code; rewrite PREF_ACCESSORS_lookup, Hl; cbn;
    repeat constructor.
Qed.

(** What the key reads in the instance: the old value or [v]. *)
Lemma scenario_get w : scenario_inv w -> get (mem w) k = get s k \/ get (mem w) k = Ok v.
Proof.
  intros [[->|Hs] _]; [by left|right].
  destruct (set_Ok_inv s k v _ Ha Hs) as (l&Hl&_&_&->). by apply get_assign_eq.
Qed.

Lemma scenario_set w m' :
  scenario_inv w -> set (mem w) k v = Ok m' -> set s k v = Ok m'.
Proof.
  intros [[->|Hs] _] Hs'; [done|]. rewrite (set_Ok_idem _ _ _ _ Ha Hs) in Hs'.
  by injection Hs' as <-.
Qed.

Lemma scenario_inv_step w t w' : scenario_inv w -> step w t = Some w' -> scenario_inv w'.
Proof.
  intros Hinv Hs. pose proof Hinv as [Hm Hth].
  destruct (step_Some _ _ _ Hs) as (th&Ht&[(Hc&op&rest&Hops&->)|(i&c&l'&Hc&Hl&->)]);
    destruct (Hth t th Ht) as (Hops_ok&Hcode&Hlog).
  - split; [done|]. intros u thu Hu. simpl in Hu.
    apply list_lookup_insert_Some in Hu as [(<-&<-&_)|(_&Hu)]; [simpl|by apply (Hth u)].
    rewrite Hops in Hops_ok. apply Forall_cons in Hops_ok as [Hop Hrest].
    split; [done|]. split; [by apply scenario_expand|done].
  - rewrite Hc in Hcode. apply Forall_cons in Hcode as [Hi Hcode].
    assert (Hmem : (exec i (mem w) (reg th) (log th)).1.1 = s \/
                   set s k v = Ok (exec i (mem w) (reg th) (log th)).1.1).
    { destruct i; simpl in Hi |- *; try done; destruct Hi as [-> ->].
      destruct (set (mem w) k v) as [m'|] eqn:Hs'; [|done]. right. by eapply scenario_set. }
    split; [done|]. intros u thu Hu. simpl in Hu.
    apply list_lookup_insert_Some in Hu as [(<-&<-&_)|(_&Hu)]; [simpl|by apply (Hth u)].
    assert (Hn : next i c (ops th) (log th) = (c, ops th)) by (by destruct i).
    rewrite ?Hn. split; [done|]. split; [done|]. intros r Hr.
    destruct i; simpl in Hi, Hr; try done; try by apply Hlog.
    + subst key. rewrite elem_of_cons in Hr. destruct Hr as [Hr|Hr]; [|by apply Hlog].
      injection Hr as Hr. subst r. exact (scenario_get w Hinv).
    + destruct Hi as [-> ->]. destruct (set (mem w) k v); simpl in Hr; rewrite elem_of_cons in Hr;
        (destruct Hr as [Hr|Hr]; [done|by apply Hlog]).
Qed.

(** C27. Any number of threads reading a key with [get] while others set
    it to [v] see, at every read, either the value before the write or
    [v]: never anything else (spec 8: "every get observes either the
    pre-write or the fully post-write value for that key"). *)
Theorem readers_see_old_or_new progs w :
  Forall (Forall scenario_op) progs -> reach (init s progs) w ->
  ∀ t th r, threads w !! t = Some th -> OGet k r ∈ log th -> r = get s k \/ r = Ok v.
Proof.
  intros Hprogs Hr t th r Ht Hin.
  assert (Hinv : scenario_inv w).
  { apply (reach_ind scenario_inv (init s progs) w); [apply scenario_inv_step| |done].
    split; [by left|]. intros u th'. simpl. rewrite list_lookup_fmap.
    destruct (progs !! u) as [prog|] eqn:Hp; simpl; [|done]. intros [= <-]. simpl.
    split; [by eapply Forall_lookup_1|]. split; [constructor|]. intros ? []%elem_of_nil. }
  by apply (sc_threads _ Hinv t th Ht).
Qed.

End Scenario.

(** C27 on the example store: a [get] scheduled after the [set] of
    [dom.webgpu.enabled] sees the new value. *)
Definition scenario_progs : list (list Op) :=
  [[SetOp "dom.webgpu.enabled" (PrefValue.Bool true)]; [GetOp "dom.webgpu.enabled"]].

Definition scenario_done : World :=
  world_after (init example_store scenario_progs) [0; 0; 0; 0; 1; 1; 1; 1]%nat.

Lemma readers_see_old_or_new_witness :
  Ok (PrefValue.Bool true) = get example_store "dom.webgpu.enabled" \/
  @Ok PrefError _ (PrefValue.Bool true) = Ok (PrefValue.Bool true).
Proof.
  eapply (readers_see_old_or_new example_store "dom.webgpu.enabled" (PrefValue.Bool true)
           eq_refl (mk_is_Some (key_leaf "dom.webgpu.enabled") webgpu_leaf ltac:(vm_compute; reflexivity))
           scenario_progs scenario_done _ _ 1%nat (thread_of scenario_done 1));
    [reflexivity|apply elem_of_cons; left; reflexivity].
  Unshelve.
  - apply Forall_forall. intros prog Hp. apply Forall_forall. intros op Hop.
    unfold scenario_progs in Hp. elem_cases Hp; subst prog; elem_cases Hop; subst op;
      unfold scenario_op; auto.
  - apply (run_reach _ [0; 0; 0; 0; 1; 1; 1; 1]%nat). reflexivity.
Defined.
