(* ===== verification/Pipeline.v ===== *)
(** * From a user preference document to the store

    [read_prefs_map] followed by [add_user_prefs] is how Servo applies a
    user's preference file.  This file instantiates the bulk applier with
    the store [Preferences] and the generated accessor table, and follows a
    document through both steps. *)

From S2P Require Import Prelude Float64 Json PrefValue StoreSpec ReadPrefs Schema Store BulkApply.

(** ** Witnesses of the bulk applier on the generated store *)

(** A map whose only entry [set] refuses. *)
Definition refused_map : gmap string PrefValue.t :=
  {["dom.webgpu.enabled" := PrefValue.Int 1]}.

Lemma add_user_prefs_partial_witness :
  exists l1 k v l2 e, map_order _ refused_map = l1 ++ (k, v) :: l2 /\
    set_all example_store l1 = (example_store, Ok ()) /\
    store_set example_store k v = Err e /\
    "Error setting preference: " = "Error setting preference: " +:+ (λ _ : PrefError, "") e.
Proof.
  apply (add_user_prefs_partial map_order (λ _, "") example_store refused_map).
  reflexivity.
Defined.

Lemma add_user_prefs_spec_witness :
  let m : gmap string PrefValue.t := {["layout.threads" := PrefValue.Int 2]} in
  ((add_user_prefs map_order (λ _, "") example_store m).2 = Returned () <->
   map_Forall (λ k v, is_ok (store_set example_store k v) = true) m) /\
  ((add_user_prefs map_order (λ _, "") example_store m).2 = Returned () ->
   ∀ k, store_get (add_user_prefs map_order (λ _, "") example_store m).1 k =
        match m !! k with Some v => Ok v | None => store_get example_store k end).
Proof.
  intros m. apply (add_user_prefs_spec map_order map_order_valid). store_wf_by_computation.
Defined.

(** ** A user document that sets the shell's background colour *)

Definition rgba_leaf : LeafInfo :=
  {| leaf_path := ["shell"; "background_color"; "rgba"]; leaf_ty := TF64Array 4;
     leaf_default := None; leaf_rename := Some "shell.background-color.rgba" |}.

Lemma key_leaf_rgba : key_leaf rgba_key = Some rgba_leaf.
Proof. vm_compute. reflexivity. Qed.

(** C19. Any user document whose ["shell.background-color.rgba"] entry is an
    array, the only way to write that [[f64; 4]] field, makes Servo panic
    in [add_user_prefs]: [read_prefs_map] hands over an empty array, which
    the field's setter refuses, whatever the store and the [HashMap]
    order. *)
Theorem user_background_color_panics parse display into_iter debug txt prefs m vs s :
  valid_order into_iter -> store_wf s ->
  from_str_map parse txt = Ok prefs ->
  prefs !! rgba_key = Some (Value.Array vs) ->
  read_prefs_map parse display into_iter txt = Ok m ->
  exists msg, (add_user_prefs into_iter debug s m).2 = Panicked msg.
Proof.
  intros Horder Hs Hstr Hk Hr.
  pose proof (read_prefs_map_array_entry parse display into_iter Horder txt prefs m rgba_key vs
                Hstr Hr Hk) as Hm.
  destruct (add_user_prefs into_iter debug s m).2 as [[]|msg] eqn:E; [exfalso|eauto].
  apply (add_user_prefs_returned into_iter Horder debug s m) in E; [|exact Hs].
  specialize (E rgba_key _ Hm). simpl in E.
  rewrite set_eq, key_leaf_rgba in E by (apply Hs). discriminate E.
Qed.

Lemma user_background_color_panics_witness :
  exists msg, (add_user_prefs map_order (λ _, "") example_store
                 (<[rgba_key := PrefValue.Array []]> ∅)).2 = Panicked msg.
Proof.
  apply (user_background_color_panics (doc_parser (Value.Object rgba_entries)) no_display
           map_order (λ _, "") "" (hashmap_from_entries rgba_entries)
           (<[rgba_key := PrefValue.Array []]> ∅) rgba_array example_store);
    [exact map_order_valid|store_wf_by_computation|vm_compute; reflexivity..].
Defined.

(** ** A user document of scalars of the right kinds *)

(** A JSON scalar that [read_prefs_map] turns into a value of the field
    type: a boolean, an integer in [i64] range, a float, a string. *)
Definition json_fits (ty : FieldType) (v : Value.t) : bool :=
  match ty, v with
  | TBool, Value.Bool _ => true
  | TI64, Value.Number n => Number.is_i64 n
  | TF64, Value.Number n => Number.is_f64 n
  | TString, Value.String _ => true
  | _, _ => false
  end.

(** A user entry naming a preference, with a value that fits its field. *)
Definition user_entry_fits (k : string) (v : Value.t) : bool :=
  match key_leaf k with Some l => json_fits (leaf_ty l) v | None => false end.

Lemma json_fits_convert display ty v :
  json_fits ty v = true ->
  exists pv, convert_value display v = Ok pv /\ shape_matches ty pv = true.
Proof.
  destruct ty, v as [| |[u|i|b]| | |]; simpl; try done; intros H;
    rewrite ?H; simpl; try (eexists; split; [reflexivity|done]).
Qed.

Lemma user_entry_fits_set display s k v :
  store_wf s -> user_entry_fits k v = true ->
  exists pv, convert_value display v = Ok pv /\ is_ok (set s k pv) = true.
Proof.
  intros Hs. unfold user_entry_fits. destruct (key_leaf k) as [l|] eqn:Hk; [|done].
  intros (pv&Hc&Hm)%(json_fits_convert display). exists pv. split; [done|].
  rewrite set_eq by apply Hs. by rewrite Hk, Hm.
Qed.

(** C30. The user override path works end to end on well-formed input: a
    user document whose every entry names a preference with a JSON scalar
    of the field's kind is read by [read_prefs_map], applied by
    [add_user_prefs] without a panic, and leaves every key it names holding
    its converted value and every other key as it was, whatever the
    [HashMap] order. *)
Theorem user_scalar_prefs_applied parse display into_iter debug txt prefs s :
  valid_order into_iter -> store_wf s ->
  from_str_map parse txt = Ok prefs ->
  map_Forall (λ k v, user_entry_fits k v = true) prefs ->
  exists m, read_prefs_map parse display into_iter txt = Ok m /\
    (add_user_prefs into_iter debug s m).2 = Returned () /\
    ∀ k, get (add_user_prefs into_iter debug s m).1 k =
         match prefs !! k with Some v => convert_value display v | None => get s k end.
Proof.
  intros Horder Hs Hstr Hfit.
  assert (Hconv : ∀ k v, prefs !! k = Some v ->
            exists pv, convert_value display v = Ok pv /\ is_ok (set s k pv) = true)
    by (intros k v Hk; apply user_entry_fits_set, (Hfit k v Hk); done).
  destruct (read_prefs_map_Ok_exists parse display into_iter Horder txt prefs Hstr) as [m Hm].
  { intros k v (pv&->&_)%Hconv. done. }
  pose proof Hm as [_ Hlk]%(read_prefs_map_Ok_iff parse display into_iter Horder txt prefs m Hstr).
  assert (Hret : (add_user_prefs into_iter debug s m).2 = Returned ()).
  { apply (add_user_prefs_returned into_iter Horder debug s m); [exact Hs|].
    intros k pv (v&Hv&Hc)%Hlk. destruct (Hconv k v Hv) as (pv'&Hc'&Hok).
    rewrite Hc in Hc'. by injection Hc' as ->. }
  exists m. split; [done|]. split; [done|]. intros k.
  assert (Hk := add_user_prefs_values into_iter Horder debug s m ltac:(exact Hs) Hret k). simpl in Hk.
  rewrite Hk. destruct (prefs !! k) as [v|] eqn:Hv.
  - destruct (Hconv k v Hv) as (pv&Hc&_). rewrite Hc.
    by rewrite (proj2 (Hlk k pv) (ex_intro _ v (conj Hv Hc))).
  - destruct (m !! k) as [pv|] eqn:Hmk; [|done].
    apply Hlk in Hmk as (v&Hv'&_). congruence.
Qed.

Lemma user_scalar_prefs_applied_witness :
  exists m, read_prefs_map (doc_parser (Value.Object small_entries)) no_display map_order "" = Ok m /\
    (add_user_prefs map_order (λ _, "") example_store m).2 = Returned () /\
    ∀ k, get (add_user_prefs map_order (λ _, "") example_store m).1 k =
         match hashmap_from_entries small_entries !! k with
         | Some v => convert_value no_display v | None => get example_store k end.
Proof.
  apply (user_scalar_prefs_applied (doc_parser (Value.Object small_entries)) no_display map_order
           (λ _, "") "" (hashmap_from_entries small_entries) example_store map_order_valid);
    [store_wf_by_computation|vm_compute; reflexivity|].
  decide_by_eval.
Defined.
